(** * j2j: converting JavaScript source text to JSON

    A shallow embedding of [index.js] (module [j2j]): the options merge,
    the sandbox harness built by [parse], the classification of the sandbox
    report, the serializer [output], and the two orchestrations [write] and
    [j2j], followed by the properties of the specification that concern
    them.

    Conventions of the embedding.
    - Text is [string], read as the UTF-8 encoding of the JavaScript
      string: a character below 128 is one byte, any other character is a
      sequence of bytes above 127.  [+:+] is JavaScript's string [+].
    - A Number value is NaN, an infinity, a zero of either sign, or the
      decimal that Number-to-String conversion determines for it
      ([number]); an integer of [Z] stands for its Number value.
    - Objects that are only read are values ([json]); the options records,
      which the program passes around and updates, live in a heap.
    - Console output, sandbox runs, writes and process exit are recorded in
      a trace. *)

From Stdlib Require Import ZArith Ascii String List Bool Lia.
From stdpp Require Import base gmap strings list fin_maps.

Local Open Scope Z_scope.

(** ** Text *)

Module Text.

(** [Array.prototype.join] on texts. *)
Fixpoint join (sep : string) (l : list string) : string :=
  match l with
  | [] => ""
  | [x] => x
  | x :: l' => x +:+ sep +:+ join sep l'
  end.

(** [n] copies of a character. *)
Fixpoint repeat_char (a : ascii) (n : nat) : string :=
  match n with
  | O => ""
  | S n' => String a (repeat_char a n')
  end.

Definition is_empty (s : string) : bool :=
  match s with "" => true | _ => false end.

(** Membership of a character in a text. *)
Fixpoint mem (a : ascii) (s : string) : bool :=
  match s with
  | "" => false
  | String b s' => Ascii.eqb a b || mem a s'
  end.

(** [lit s] is [s] with every backquote read as a double quote; it is
    used to write down texts that contain double quotes. *)
Fixpoint lit (s : string) : string :=
  match s with
  | "" => ""
  | String "`" s' => String "034" (lit s')
  | String a s' => String a (lit s')
  end.

Definition is_digit (a : ascii) : bool :=
  let n := N_of_ascii a in ((48 <=? n) && (n <=? 57))%N.

Definition digit_val (a : ascii) : Z := Z.of_N (N_of_ascii a) - 48.

Definition digit_char (d : Z) : ascii := ascii_of_N (Z.to_N (48 + d)).

(** Decimal digits of a non-negative integer, most significant first.
    [fuel] bounds the number of digits. *)
Fixpoint digits_go (fuel : nat) (n : Z) (acc : string) : string :=
  match fuel with
  | O => acc
  | S f =>
      let acc' := String (digit_char (n mod 10)) acc in
      if n / 10 =? 0 then acc' else digits_go f (n / 10) acc'
  end.

Definition digits (n : Z) : string :=
  digits_go (S (Z.to_nat (Z.log2 n))) n "".

(** Value of a run of decimal digits read left to right. *)
Fixpoint read_digits (acc : Z) (s : string) : Z * string :=
  match s with
  | String a s' =>
      if is_digit a then read_digits (10 * acc + digit_val a) s' else (acc, s)
  | "" => (acc, "")
  end.

(** The first [n] characters of a text, and the rest. *)
Fixpoint take (n : nat) (s : string) : string :=
  match n, s with
  | S n', String a s' => String a (take n' s')
  | _, _ => ""
  end.

Fixpoint drop (n : nat) (s : string) : string :=
  match n, s with
  | S n', String _ s' => drop n' s'
  | _, _ => s
  end.

End Text.

(** ** Numbers *)

(** A Number value.  A finite number other than zero is given by the
    decimal that Number-to-String conversion (ECMAScript 5, 9.8.1, step 5)
    determines for it: the integer [s], whose last digit is not zero, and
    the power of ten [e] with which the number is [s * 10 ^ e]. *)
Inductive number : Type :=
| NaN
| Infinity (negative : bool)
| Zero (negative : bool)
| Decimal (negative : bool) (s : positive) (e : Z).

Module Number.

(** [s] and [e] with the zeros at the end of [s] moved into [e]. *)
Fixpoint strip (fuel : nat) (s e : Z) : Z * Z :=
  match fuel with
  | O => (s, e)
  | S f => if s mod 10 =? 0 then strip f (s / 10) (e + 1) else (s, e)
  end.

(** The number [m * 10 ^ e] with the given sign, for [m] not negative. *)
Definition decimal (negative : bool) (m e : Z) : number :=
  if m <=? 0 then Zero negative
  else
    let r := strip (S (Z.to_nat (Z.log2 m))) m e in
    Decimal negative (Z.to_pos r.1) r.2.

(** The Number value of an integer. *)
Definition of_Z (n : Z) : number := decimal (n <? 0) (Z.abs n) 0.

Definition finite (x : number) : bool :=
  match x with
  | NaN | Infinity _ => false
  | Zero _ | Decimal _ _ _ => true
  end.

(** The last digit of the digits of a decimal is not zero. *)
Definition canonical (x : number) : Prop :=
  match x with
  | Decimal _ s _ => Z.pos s mod 10 ≠ 0
  | _ => True
  end.

Definition zeros (n : Z) : string := Text.repeat_char "0" (Z.to_nat n).

(** Number-to-String conversion of a positive number (9.8.1, steps 5 to
    10): [k] is the number of digits of [s] and [n] places the decimal
    point. *)
Definition positive_text (s : positive) (e : Z) : string :=
  let ds := Text.digits (Z.pos s) in
  let k := Z.of_nat (String.length ds) in
  let n := e + k in
  if (k <=? n) && (n <=? 21) then ds +:+ zeros (n - k)
  else if (0 <? n) && (n <=? 21) then
    Text.take (Z.to_nat n) ds +:+ "." +:+ Text.drop (Z.to_nat n) ds
  else if (-6 <? n) && (n <=? 0) then "0." +:+ zeros (- n) +:+ ds
  else
    (if k =? 1 then ds else Text.take 1 ds +:+ "." +:+ Text.drop 1 ds)
      +:+ "e" +:+ (if n - 1 <? 0 then "-" else "+")
      +:+ Text.digits (Z.abs (n - 1)).

(** Number-to-String conversion (9.8.1). *)
Definition to_text (x : number) : string :=
  match x with
  | NaN => "NaN"
  | Infinity negative => if negative then "-Infinity" else "Infinity"
  | Zero _ => "0"
  | Decimal negative s e =>
      if negative then String "-" (positive_text s e) else positive_text s e
  end.

End Number.

Coercion Number.of_Z : Z >-> number.

(** ** JavaScript values *)

(** Data that [JSON.stringify] renders and [JSON.parse] builds.  An object
    is the list of its own properties in enumeration order. *)
#[warnings="-register-all"]
Inductive json : Type :=
| JNull
| JBool (b : bool)
| JNum (x : number)
| JStr (s : string)
| JArr (l : list json)
| JObj (l : list (string * json)).

(** The values an entry point can be handed. *)
Inductive value : Type :=
| VUndefined
| VFunction (src : string)
| VData (j : json).

Coercion VData : json >-> value.

Section json_induction.
Variable P : json → Prop.
Hypothesis Hnull : P JNull.
Hypothesis Hbool : ∀ b, P (JBool b).
Hypothesis Hnum : ∀ n, P (JNum n).
Hypothesis Hstr : ∀ s, P (JStr s).
Hypothesis Harr : ∀ l, Forall P l → P (JArr l).
Hypothesis Hobj : ∀ l, Forall (λ kv, P kv.2) l → P (JObj l).

Fixpoint json_ind' (j : json) : P j :=
  match j with
  | JNull => Hnull
  | JBool b => Hbool b
  | JNum n => Hnum n
  | JStr s => Hstr s
  | JArr l =>
      Harr l ((fix go (l : list json) : Forall P l :=
                 match l with
                 | [] => Forall_nil_2 P
                 | x :: l' => Forall_cons_2 P x l' (json_ind' x) (go l')
                 end) l)
  | JObj l =>
      Hobj l ((fix go (l : list (string * json)) : Forall (λ kv, P kv.2) l :=
                 match l with
                 | [] => Forall_nil_2 _
                 | kv :: l' => Forall_cons_2 _ kv l' (json_ind' kv.2) (go l')
                 end) l)
  end.
End json_induction.

(** The [typeof] operator. *)
Definition typeof (v : value) : string :=
  match v with
  | VUndefined => "undefined"
  | VFunction _ => "function"
  | VData (JBool _) => "boolean"
  | VData (JNum _) => "number"
  | VData (JStr _) => "string"
  | VData _ => "object"
  end.

(** Truthiness, as tested by [!], [&&] and [if]. *)
Definition truthy (v : value) : bool :=
  match v with
  | VUndefined => false
  | VFunction _ => true
  | VData JNull => false
  | VData (JBool b) => b
  | VData (JNum (NaN | Zero _)) => false
  | VData (JStr s) => negb (Text.is_empty s)
  | VData _ => true
  end.

(** Conversion to text, as applied to the operands of a string [+]. *)
Fixpoint json_to_string (j : json) : string :=
  match j with
  | JNull => "null"
  | JBool true => "true"
  | JBool false => "false"
  | JNum x => Number.to_text x
  | JStr s => s
  | JArr l =>
      Text.join ","
        (map (λ x, match x with JNull => "" | _ => json_to_string x end) l)
  | JObj _ => "[object Object]"
  end.

Definition to_string (v : value) : string :=
  match v with
  | VUndefined => "undefined"
  | VFunction src => src
  | VData j => json_to_string j
  end.

(** [parseInt(v, 10)]; [None] is NaN.  The white space and the line
    terminators below 128: *)
Definition is_white (a : ascii) : bool :=
  match a with
  | "009" | "010" | "011" | "012" | "013" | " " => true
  | _ => false
  end%char.

(** and, by their bytes, those above: U+00A0; U+1680, U+2000 to U+200A,
    U+2028, U+2029, U+202F, U+205F, U+3000 and U+FEFF. *)
Definition white2 (a b : ascii) : bool :=
  ((N_of_ascii a =? 194) && (N_of_ascii b =? 160))%N.

Definition white3 (a b c : ascii) : bool :=
  let a := N_of_ascii a in
  let b := N_of_ascii b in
  let c := N_of_ascii c in
  ((a =? 225) && (b =? 154) && (c =? 128)
   || (a =? 226) && (b =? 128)
      && ((128 <=? c) && (c <=? 138) || (c =? 168) || (c =? 169) || (c =? 175))
   || (a =? 226) && (b =? 129) && (c =? 159)
   || (a =? 227) && (b =? 128) && (c =? 128)
   || (a =? 239) && (b =? 187) && (c =? 191))%N.

Fixpoint skip_white (s : string) : string :=
  match s with
  | String a s1 =>
      if is_white a then skip_white s1
      else if (N_of_ascii a <? 128)%N then s
      else
        match s1 with
        | String b s2 =>
            if white2 a b then skip_white s2
            else
              match s2 with
              | String c s3 => if white3 a b c then skip_white s3 else s
              | "" => s
              end
        | "" => s
        end
  | "" => ""
  end.

Definition parseInt_text (s : string) : option Z :=
  let s := skip_white s in
  let '(sign, s) :=
    match s with
    | String "-" s' => (-1, s')
    | String "+" s' => (1, s')
    | _ => (1, s)
    end in
  match s with
  | String a _ =>
      if Text.is_digit a then Some (sign * (Text.read_digits 0 s).1) else None
  | "" => None
  end.

Definition parseInt (v : value) : option Z := parseInt_text (to_string v).

(** ** [JSON.stringify] *)

Module Stringify.

Definition hex_digit (n : N) : ascii :=
  if (n <? 10)%N then ascii_of_N (48 + n) else ascii_of_N (87 + n).

(** The four hexadecimal digits of a character below 32. *)
Definition hex4 (a : ascii) : string :=
  let n := N_of_ascii a in
  String "0" (String "0"
    (String (hex_digit (n / 16)) (String (hex_digit (n mod 16)) ""))).

(** One character of a quoted string (the abstract operation Quote). *)
Definition quote_char (a : ascii) : string :=
  match a with
  | "034"%char => String "\" (String "034" "")
  | "\"%char => "\\"
  | "008"%char => "\b"
  | "012"%char => "\f"
  | "010"%char => "\n"
  | "013"%char => "\r"
  | "009"%char => "\t"
  | _ =>
      if (N_of_ascii a <? 32)%N then "\u" +:+ hex4 a else String a ""
  end.

Fixpoint quote_body (s : string) : string :=
  match s with
  | "" => ""
  | String a s' => quote_char a +:+ quote_body s'
  end.

Definition quote (s : string) : string :=
  String "034" (quote_body s +:+ String "034" "").

(** The gap for a numeric [space] argument: at most ten spaces, none for
    NaN or a number below one. *)
Definition gap_of (space : option Z) : string :=
  match space with
  | None => ""
  | Some n => Text.repeat_char " " (Z.to_nat (Z.min 10 n))
  end.

Definition newline : string := String "010" "".

(** Wrapping of the serialized members of an object or an array. *)
Definition wrap (open close gap indent : string) (partial : list string)
  : string :=
  match partial with
  | [] => open +:+ close
  | _ =>
      if Text.is_empty gap then
        open +:+ Text.join "," partial +:+ close
      else
        let inner := indent +:+ gap in
        open +:+ newline +:+ inner
          +:+ Text.join ("," +:+ newline +:+ inner) partial
          +:+ newline +:+ indent +:+ close
  end.

(** The abstract operation Str, with its JO and JA cases, on data. *)
Fixpoint str (gap indent : string) (j : json) : string :=
  match j with
  | JNull => "null"
  | JBool true => "true"
  | JBool false => "false"
  | JNum x => if Number.finite x then Number.to_text x else "null"
  | JStr s => quote s
  | JArr l =>
      wrap "[" "]" gap indent (map (str gap (indent +:+ gap)) l)
  | JObj l =>
      wrap "{" "}" gap indent
        (map (λ kv,
                match kv with
                | (k, v) =>
                    quote k +:+ ":"
                      +:+ (if Text.is_empty gap then "" else " ")
                      +:+ str gap (indent +:+ gap) v
                end) l)
  end.

End Stringify.

(** [JSON.stringify(v, null, space)] for a numeric [space]; [None] is the
    [undefined] it returns for [undefined] and for functions. *)
Definition stringify (v : value) (space : option Z) : option string :=
  match v with
  | VData j => Some (Stringify.str (Stringify.gap_of space) "" j)
  | _ => None
  end.

Definition foo_bar_baz : json :=
  JObj [("foo", JStr "bar"); ("baz", JNum 2)].

(** ** Effects: heap, trace and completions *)

(** What a thrown exception or a rejection carries. *)
Inductive error : Type :=
| Reason (text : string)
    (** a plain string, as passed to [dfrd.reject] *)
| ErrorObject (name message : string)
    (** an [Error] instance, as built by [new Error(message)] *)
| NotCallable (callee : string).
    (** the [TypeError] raised by calling a value that is not a function *)

(** [String(e)], the text that the styling helpers and the console print. *)
Definition error_text (e : error) : string :=
  match e with
  | Reason text => text
  | ErrorObject name message => name +:+ ": " +:+ message
  | NotCallable callee => "TypeError: " +:+ callee +:+ " is not a function"
  end.

(** The [chalk] styles bound at the top of the module. *)
Inductive style : Type :=
| StyleError  (** [chalk.red.bold] *)
| StyleInfo   (** [chalk.blue] *)
| StyleWarn.  (** [chalk.yellow] *)

Inductive event : Type :=
| ConsoleInfo (text : string)
| ConsoleWarn (format arg : string)
| ConsoleError (text : string)
| SandboxRun (code : string)
| Highlight (text : option string) (linenos : value)
| StdoutWrite (data : option string)
| FileWrite (path : value) (data : option string).

Definition loc := positive.

Record world : Type := World {
  heap : gmap loc (gmap string value);
  trace : list event
}.

(** How a synchronous stretch of the program ends. *)
Inductive completion (A : Type) : Type :=
| Normal (a : A)
| Throw (e : error)
| Exit (code : Z)
    (** [process.exit(code)] *)
| Uncaught (e : error).
    (** an exception raised inside the sandbox callback: nothing of the
        program catches it, and the deferred is left unsettled *)
Arguments Normal {A} a.
Arguments Throw {A} e.
Arguments Exit {A} code.
Arguments Uncaught {A} e.

(** A settled promise. *)
Inductive promise (A : Type) : Type :=
| Fulfilled (a : A)
| Rejected (e : error).
Arguments Fulfilled {A} a.
Arguments Rejected {A} e.

Definition M (A : Type) : Type := world → completion A * world.

Definition ret {A} (a : A) : M A := λ w, (Normal a, w).

Definition bind {A B} (m : M A) (k : A → M B) : M B :=
  λ w, match m w with
       | (Normal a, w') => k a w'
       | (Throw e, w') => (Throw e, w')
       | (Exit c, w') => (Exit c, w')
       | (Uncaught e, w') => (Uncaught e, w')
       end.

Notation "'let*' x ':=' m 'in' k" := (bind m (λ x, k))
  (at level 10, x pattern, m at level 100, k at level 200).

Definition throw {A} (e : error) : M A := λ w, (Throw e, w).
Definition exit {A} (code : Z) : M A := λ w, (Exit code, w).
Definition uncaught {A} (e : error) : M A := λ w, (Uncaught e, w).

Definition emit (e : event) : M unit :=
  λ w, (Normal (), World (heap w) (trace w ++ [e])).

Definition when (b : bool) (m : M unit) : M unit := if b then m else ret ().

(** The record stored at a reference. *)
Definition record_at (w : world) (l : loc) : gmap string value :=
  default ∅ (heap w !! l).

(** [o[key]] *)
Definition get (l : loc) (key : string) : M value :=
  λ w, (Normal (default VUndefined (record_at w l !! key)), w).

(** [o[key] = v] *)
Definition set (l : loc) (key : string) (v : value) : M unit :=
  λ w, (Normal (), World (<[l := <[key := v]> (record_at w l)]> (heap w)) (trace w)).

(** A fresh object with the given properties. *)
Definition alloc (o : gmap string value) : M loc :=
  λ w, let l := fresh (dom (heap w)) in
       (Normal l, World (<[l := o]> (heap w)) (trace w)).

(** [p.then(onFulfilled, onRejected)]: the handler for the state of [p]
    runs, and what it returns or throws settles the resulting promise. *)
Definition settle {A} (m : M A) : M (promise A) :=
  λ w, match m w with
       | (Normal a, w') => (Normal (Fulfilled a), w')
       | (Throw e, w') => (Normal (Rejected e), w')
       | (Exit c, w') => (Exit c, w')
       | (Uncaught e, w') => (Uncaught e, w')
       end.

Definition then_ {A B} (p : promise A)
    (onFulfilled : A → M B) (onRejected : error → M B) : M (promise B) :=
  match p with
  | Fulfilled a => settle (onFulfilled a)
  | Rejected e => settle (onRejected e)
  end.

(** [p.then(onFulfilled)]: a rejection passes through. *)
Definition then1 {A B} (p : promise A) (onFulfilled : A → M B) : M (promise B) :=
  then_ p onFulfilled throw.

(** An options argument: omitted, a callback in the options position, or a
    reference to the caller's record. *)
Inductive arg : Type :=
| Omitted
| Callback
| Record_ (l : loc).

(** What the sandbox reports to its callback: [result] is the inspected
    completion value of the code, [console] the logged values. *)
Record Info : Type := MkInfo {
  result : string;
  console : list json
}.

(** [a[0]] *)
Definition first (l : list json) : value :=
  match l with
  | [] => VUndefined
  | j :: _ => VData j
  end.

(** ** The module [j2j] *)

Definition DEFAULT_INDENT : value := JNum 2.
Definition DEFAULT_NOCOLOR : value := JBool true.
Definition DEFAULT_DEBUG : value := JBool false.
Definition DEFAULT_LINENOS : value := JBool false.

(** The defaults table handed to [defaults] by [options]. *)
Definition default_options : list (string * value) :=
  [("debug", DEFAULT_DEBUG); ("indent", DEFAULT_INDENT);
   ("no-color", DEFAULT_NOCOLOR); ("line-nos", DEFAULT_LINENOS)].

(** The package [defaults] (required at the top of the module; its source
    is not part of the repository).  It fills in, on the object it is
    given, each key of the table whose current value is [undefined], and
    returns that same object; without an object it starts from a fresh
    empty one:
    [options = options || {};
     Object.keys(defaults).forEach(function(key) {
       if (typeof options[key] === 'undefined')
         options[key] = clone(defaults[key]); });
     return options;] *)
Definition fill_default (l : loc) (entry : string * value) : M unit :=
  let* current := get l entry.1 in
  if String.eqb (typeof current) "undefined" then set l entry.1 entry.2
  else ret ().

Fixpoint for_each {A} (f : A → M unit) (l : list A) : M unit :=
  match l with
  | [] => ret ()
  | x :: l' => let* _ := f x in for_each f l'
  end.

Definition defaults (options : arg) (table : list (string * value)) : M loc :=
  let* l := match options with
            | Record_ l => ret l
            | _ => alloc ∅
            end in
  let* _ := for_each (fill_default l) table in
  ret l.

(** [options(opts)] *)
Definition options (opts : arg) : M loc :=
  let* opts := match opts with
               | Callback => let* l := alloc ∅ in ret (Record_ l)
               | _ => ret opts
               end in
  defaults opts default_options.

(** The code that [parse] hands to the sandbox for the source text [s]. *)
Definition harness (s : string) : string :=
  "(function() { console.log((" +:+ s
    +:+ ")); return typeof function() { return (" +:+ s +:+ ");}();})();".

(** The inspected type names that the sandbox callback lets through. *)
Definition accepted : list string := ["'object'"; "'string'"; "'number'"].

Definition rejection (info : Info) : error :=
  Reason ("input evaluated to " +:+ result info +:+ ", which is no good.").

Section Program.

(** *** Collaborators outside the repository *)

(** The package [sandbox]: the report for a piece of code. *)
Variable sandbox_run : string → Info.
(** [process.stdout.isTTY] *)
Variable isTTY : bool.
(** [cardinal.highlight(text, {json: true, linenos: l})]: the highlighted
    text, or the message of the exception it throws. *)
Variable highlight : option string → value → string + string.
(** The [chalk] styling of a text. *)
Variable chalk : style → string → string.
(** [graceful-fs.writeFileSync(path, data)] and
    [process.stdout.write(data)]: the exception thrown, if any. *)
Variable writeFileSync : value → option string → option error.
Variable stdout_write : option string → option error.

(** *** [parse] *)

(** The callback given to [sandbox.run].  Its parameter [info] hides the
    styling helper [info] of the module, so the debug line of the
    rejecting branch calls the report itself. *)
Definition on_report (opts : loc) (info : Info) : M (promise value) :=
  if bool_decide (result info ∈ accepted) then
    ret (Fulfilled (first (console info)))
  else
    let* debug := get opts "debug" in
    if truthy debug then uncaught (NotCallable "info")
    else ret (Rejected (rejection info)).

Definition parse (s : value) (opts : arg) : M (promise value) :=
  let fn := harness (to_string s) in
  let* opts := options opts in
  let* debug := get opts "debug" in
  let* _ := when (truthy debug)
              (emit (ConsoleInfo
                       (chalk StyleInfo
                          ("Executing:" +:+ Stringify.newline +:+ fn)))) in
  let* _ := emit (SandboxRun fn) in
  on_report opts (sandbox_run fn).

(** *** [output] *)

Definition output (o : value) (opts : arg) : M (option string) :=
  let* opts := options opts in
  let* indent := get opts "indent" in
  let out := stringify o (parseInt indent) in
  let* nocolor := get opts "no-color" in
  let* target := get opts "output" in
  if isTTY && negb (truthy nocolor) && negb (truthy target) then
    let* linenos := get opts "line-nos" in
    let* _ := emit (Highlight out linenos) in
    match highlight out linenos with
    | inl coloured => ret (Some coloured)
    | inr message =>
        let* _ := emit (ConsoleWarn
                          (chalk StyleWarn
                             (Text.lit "Could not highlight!  Exception: `%s`"))
                          message) in
        ret out
    end
  else ret out.

(** *** [write] *)

Definition wrapped : error :=
  ErrorObject "Error"
    "cannot coerce input into anything JSON.stringify() can handle".

Definition deliver (opts : loc) (out : option string) : M unit :=
  let* target := get opts "output" in
  if truthy target then
    let* _ := emit (FileWrite target out) in
    match writeFileSync target out with
    | Some e => throw e
    | None => ret ()
    end
  else
    let* _ := emit (StdoutWrite out) in
    match stdout_write out with
    | Some e => throw e
    | None => ret ()
    end.

(** [callback] tells whether a third argument was given. *)
Definition write (input : value) (opts : arg) (callback : bool)
  : M (promise unit) :=
  let* opts := options opts in
  let* parsed := parse input (Record_ opts) in
  let* rendered :=
    then_ parsed
      (λ s, output s (Record_ opts))
      (λ err,
         let* debug := get opts "debug" in
         let* _ := when (truthy debug)
                     (emit (ConsoleError (chalk StyleError (error_text err)))) in
         throw wrapped) in
  then_ rendered
    (deliver opts)
    (λ err,
       let* _ := emit (ConsoleError (chalk StyleError (error_text err))) in
       if callback then ret () else exit 1).

(** *** [j2j] *)

Definition empty_input : error :=
  ErrorObject "Error" "input parameter cannot be empty".

Definition j2j (input : value) (opts : arg) : M (promise (option string)) :=
  if negb (truthy input) then throw empty_input
  else
    let* opts := options opts in
    if String.eqb (typeof input) "string" then
      let* out := output input (Record_ opts) in
      ret (Fulfilled out)
    else
      let* parsed := parse input (Record_ opts) in
      then1 parsed (λ o, output o (Record_ opts)).

End Program.


(** ** The command line: [_main] *)

(** [o[name]] on the properties of an object. *)
Fixpoint field (name : string) (l : list (string * json)) : value :=
  match l with
  | [] => VUndefined
  | (k, v) :: l' => if String.eqb k name then VData v else field name l'
  end.

(** The first code unit of a text, as a text: its first character or, when
    that is a character of four bytes, which takes two code units, the
    first of its two surrogates, by its three bytes. *)
Definition first_unit (s : string) : string :=
  match s with
  | "" => ""
  | String a r =>
      let n := N_of_ascii a in
      if (n <? 192)%N then String a ""
      else if (n <? 224)%N then Text.take 2 s
      else if (n <? 240)%N then Text.take 3 s
      else
        match r with
        | String b (String c _) =>
            let surrogate :=
              (55232 + (n mod 8) * 256 + (N_of_ascii b mod 64) * 4
               + (N_of_ascii c mod 64) / 16)%N in
            String (ascii_of_N 237)
              (String (ascii_of_N (128 + (surrogate / 64) mod 64))
                 (String (ascii_of_N (128 + surrogate mod 64)) ""))
        | _ => String a ""
        end
  end.

(** [v[0]]: the first element of an array, the first code unit of a text,
    the property [0] of an object; on [undefined] and [null] the access
    raises a [TypeError]. *)
Definition item0 (v : value) : error + value :=
  match v with
  | VUndefined =>
      inl (ErrorObject "TypeError" "Cannot read property '0' of undefined")
  | VData JNull =>
      inl (ErrorObject "TypeError" "Cannot read property '0' of null")
  | VData (JArr l) => inr (first l)
  | VData (JStr (String c r)) => inr (VData (JStr (first_unit (String c r))))
  | VData (JObj l) => inr (field "0" l)
  | _ => inr VUndefined
  end.

(** Where [_main] has its input from. *)
Inductive source : Type :=
| Buffer (contents : string)
    (** the [Buffer] that [readFileSync] returns for [argv.file] *)
| Argument (v : value).
    (** [argv._[0]] *)

(** [!input] is false for a [Buffer], which is an object, whatever its
    length. *)
Definition source_truthy (i : source) : bool :=
  match i with
  | Buffer _ => true
  | Argument v => truthy v
  end.

(** The input as [write] takes it.  [write] uses its input in one place,
    the string concatenation of [parse] that builds the harness, and there
    a [Buffer] stands for its contents. *)
Definition source_value (i : source) : value :=
  match i with
  | Buffer contents => VData (JStr contents)
  | Argument v => v
  end.

Section Cli.

Variable sandbox_run : string → Info.
Variable isTTY : bool.
Variable highlight : option string → value → string + string.
Variable chalk : style → string → string.
Variable writeFileSync : value → option string → option error.
Variable stdout_write : option string → option error.
(** [graceful-fs.readFileSync(path)]: the contents of the file, or the
    exception thrown. *)
Variable readFileSync : value → error + string.
(** The chunks that [process.stdin] delivers before it ends. *)
Variable stdin_chunks : list string.

(** [_main], from the point where [yargs] has parsed the command line
    into the record [argv]. *)
Definition _main (argv : loc) : M unit :=
  let* file := get argv "file" in
  let* input :=
    if truthy file then
      match readFileSync file with
      | inl e => throw e
      | inr contents => ret (Buffer contents)
      end
    else
      let* positional := get argv "_" in
      match item0 positional with
      | inl e => throw e
      | inr v => ret (Argument v)
      end in
  let* argv := defaults (Record_ argv) [("no-color", VData (JBool false))] in
  if negb (source_truthy input) then
    let* _ := write sandbox_run isTTY highlight chalk writeFileSync stdout_write
                (VData (JStr (Text.join "," stdin_chunks))) (Record_ argv) false in
    ret ()
  else
    let* _ := write sandbox_run isTTY highlight chalk writeFileSync stdout_write
                (source_value input) (Record_ argv) false in
    ret ().

End Cli.

(** ** [JSON.parse]

    The reader of JSON text used to state the round trip: the JSON grammar
    of ECMAScript 5 (15.12.1).  A number is read as the decimal that its
    text denotes.  One thing is left out: a [\u] escape above 127, whose
    character takes more than one byte of the text; the reader gives no
    value for a text with such an escape.  Fuel bounds the number of nested
    calls. *)

Module JSON.

(** JSON white space: tab, line feed, carriage return, space. *)
Definition is_ws (a : ascii) : bool :=
  match a with
  | "009" | "010" | "013" | " " => true
  | _ => false
  end%char.

Fixpoint skip_ws (s : string) : string :=
  match s with
  | String a s' => if is_ws a then skip_ws s' else s
  | "" => ""
  end.

Definition hex_val (a : ascii) : option N :=
  let n := N_of_ascii a in
  if ((48 <=? n) && (n <=? 57))%N then Some (n - 48)%N
  else if ((97 <=? n) && (n <=? 102))%N then Some (n - 87)%N
  else if ((65 <=? n) && (n <=? 70))%N then Some (n - 55)%N
  else None.

(** The code unit written by four hexadecimal digits. *)
Definition hex4_val (a b c d : ascii) : option N :=
  match hex_val a, hex_val b, hex_val c, hex_val d with
  | Some x, Some y, Some z, Some u => Some (((x * 16 + y) * 16 + z) * 16 + u)%N
  | _, _, _, _ => None
  end.

Definition cons_char (a : ascii) (r : option (string * string))
  : option (string * string) :=
  match r with
  | Some (t, rest) => Some (String a t, rest)
  | None => None
  end.

(** The characters of a string literal, after its opening quote, up to
    and including the closing quote. *)
Fixpoint string_body (s : string) : option (string * string) :=
  match s with
  | "" => None
  | String "034" s' => Some ("", s')
  | String "\" (String e s') =>
      match e with
      | "034"%char => cons_char "034" (string_body s')
      | "\"%char => cons_char "\" (string_body s')
      | "/"%char => cons_char "/" (string_body s')
      | "b"%char => cons_char "008" (string_body s')
      | "f"%char => cons_char "012" (string_body s')
      | "n"%char => cons_char "010" (string_body s')
      | "r"%char => cons_char "013" (string_body s')
      | "t"%char => cons_char "009" (string_body s')
      | "u"%char =>
          match s' with
          | String a (String b (String c (String d s''))) =>
              match hex4_val a b c d with
              | Some n =>
                  if (n <? 128)%N
                  then cons_char (ascii_of_N n) (string_body s'')
                  else None
              | None => None
              end
          | _ => None
          end
      | _ => None
      end
  | String "\" "" => None
  | String a s' =>
      if (N_of_ascii a <? 32)%N then None
      else cons_char a (string_body s')
  end.

(** The rest of the text after the character [c], if the text starts
    with it. *)
Definition next (c : ascii) (s : string) : option string :=
  match s with
  | String a r => if Ascii.eqb a c then Some r else None
  | "" => None
  end.

(** The digits of a number: a single zero, or a run that does not start
    with zero. *)
Definition natural (s : string) : option (Z * string) :=
  match s with
  | "" => None
  | String a s' =>
      if Ascii.eqb a "0" then
        match s' with
        | String b _ => if Text.is_digit b then None else Some (0, s')
        | "" => Some (0, s')
        end
      else if Text.is_digit a then Some (Text.read_digits 0 s)
      else None
  end.

(** The digits of a fraction: the integer that the digits read so far
    and these make, and the number of these. *)
Fixpoint fraction_digits (m count : Z) (s : string) : Z * Z * string :=
  match s with
  | String a s' =>
      if Text.is_digit a
      then fraction_digits (10 * m + Text.digit_val a) (count + 1) s'
      else (m, count, s)
  | "" => (m, count, "")
  end.

Definition fraction (m : Z) (s : string) : option (Z * Z * string) :=
  match next "." s with
  | Some r =>
      match r with
      | String d _ =>
          if Text.is_digit d then Some (fraction_digits m 0 r) else None
      | "" => None
      end
  | None => Some (m, 0, s)
  end.

Definition exponent (s : string) : option (Z * string) :=
  match s with
  | String c r =>
      if Ascii.eqb c "e" || Ascii.eqb c "E" then
        let '(sign, r) :=
          match r with
          | String a r' =>
              if Ascii.eqb a "-" then (-1, r')
              else if Ascii.eqb a "+" then (1, r')
              else (1, r)
          | "" => (1, r)
          end in
        match r with
        | String d _ =>
            if Text.is_digit d
            then Some (sign * (Text.read_digits 0 r).1, (Text.read_digits 0 r).2)
            else None
        | "" => None
        end
      else Some (0, s)
  | "" => Some (0, "")
  end.

(** A number without its sign: integer part, fraction, exponent. *)
Definition unsigned (negative : bool) (s : string) : option (number * string) :=
  match natural s with
  | Some (i, r1) =>
      match fraction i r1 with
      | Some (m, count, r2) =>
          match exponent r2 with
          | Some (x, r3) => Some (Number.decimal negative m (x - count), r3)
          | None => None
          end
      | None => None
      end
  | None => None
  end.

Definition number (s : string) : option (number * string) :=
  match s with
  | String a s' =>
      if Ascii.eqb a "-" then unsigned true s' else unsigned false s
  | "" => None
  end.

(** Definition of a property on an object under construction: a name
    already present keeps its place and takes the new value. *)
Fixpoint define (k : string) (v : json) (l : list (string * json))
  : list (string * json) :=
  match l with
  | [] => [(k, v)]
  | (k', v') :: l' =>
      if String.eqb k k' then (k', v) :: l' else (k', v') :: define k v l'
  end.

Definition build (members : list (string * json)) : list (string * json) :=
  foldl (λ l kv, define kv.1 kv.2 l) [] members.

Fixpoint value (fuel : nat) (s : string) {struct fuel}
  : option (json * string) :=
  match fuel with
  | O => None
  | S f =>
      match s with
      | String "n" (String "u" (String "l" (String "l" r))) =>
          Some (JNull, r)
      | String "t" (String "r" (String "u" (String "e" r))) =>
          Some (JBool true, r)
      | String "f" (String "a" (String "l" (String "s" (String "e" r)))) =>
          Some (JBool false, r)
      | String "034" r =>
          match string_body r with
          | Some (t, r') => Some (JStr t, r')
          | None => None
          end
      | String "[" r =>
          let r := skip_ws r in
          match next "]" r with
          | Some r' => Some (JArr [], r')
          | None =>
              match elements f r with
              | Some (l, r') => Some (JArr l, r')
              | None => None
              end
          end
      | String "{" r =>
          let r := skip_ws r in
          match next "}" r with
          | Some r' => Some (JObj [], r')
          | None =>
              match members f r with
              | Some (l, r') => Some (JObj (build l), r')
              | None => None
              end
          end
      | _ =>
          match number s with
          | Some (n, r) => Some (JNum n, r)
          | None => None
          end
      end
  end
with elements (fuel : nat) (s : string) {struct fuel}
  : option (list json * string) :=
  match fuel with
  | O => None
  | S f =>
      match value f s with
      | Some (v, r) =>
          let r := skip_ws r in
          match next "," r with
          | Some r' =>
              match elements f (skip_ws r') with
              | Some (l, r'') => Some (v :: l, r'')
              | None => None
              end
          | None =>
              match next "]" r with
              | Some r' => Some ([v], r')
              | None => None
              end
          end
      | None => None
      end
  end
with members (fuel : nat) (s : string) {struct fuel}
  : option (list (string * json) * string) :=
  match fuel with
  | O => None
  | S f =>
      match next "034" s with
      | Some r =>
          match string_body r with
          | Some (k, r) =>
              match next ":" (skip_ws r) with
              | Some r =>
                  match value f (skip_ws r) with
                  | Some (v, r) =>
                      let r := skip_ws r in
                      match next "," r with
                      | Some r' =>
                          match members f (skip_ws r') with
                          | Some (l, r'') => Some ((k, v) :: l, r'')
                          | None => None
                          end
                      | None =>
                          match next "}" r with
                          | Some r' => Some ([(k, v)], r')
                          | None => None
                          end
                      end
                  | None => None
                  end
              | None => None
              end
          | None => None
          end
      | None => None
      end
  end.

(** [JSON.parse(text)]; [None] is a [SyntaxError], or a text with an
    escape that the reader leaves out. *)
Definition parse (text : string) : option json :=
  match value (S (String.length text)) (skip_ws text) with
  | Some (j, rest) =>
      match skip_ws rest with
      | "" => Some j
      | _ => None
      end
  | None => None
  end.

End JSON.

(** ** The isolated context

    [parse] hands its harness to the package [sandbox], which evaluates the
    code in a fresh JavaScript context where it has installed [console.log],
    and reports the inspected completion value together with the logged
    values, each carried across as JSON.  Neither the package nor the
    JavaScript engine is part of the repository.  [MiniJS] is a reference
    model of them for a fragment of ECMAScript 5 that holds the harness:
    literals, object and array literals, identifiers, assignment to an
    identifier, [typeof], member access, calls of [console.log] and of a
    function expression where it is written, and parameterless function
    expressions whose bodies are expression and [return] statements.

    The model says nothing ([None]) wherever the answer is not settled by
    that fragment: text outside it; a name that the engine or the package
    binds, read or assigned; a property that is not an own property of an
    object literal; a call of a function kept in a variable; a call of
    [console.log] with more than one argument; code with a directive
    prologue.  The package ends an evaluation that outlasts its time limit.
    The model has a budget in its place: code longer than the budget or
    evaluated deeper than it has no report.  As no function is called
    outside the place where it is written, every part of the code is
    evaluated at most once, so the budget bounds the work as well. *)

Module MiniJS.

(** *** Lexical analysis *)

Inductive token : Type :=
| TLParen | TRParen | TLBrace | TRBrace | TLBrack | TRBrack
| TComma | TColon | TSemi | TDot | TAssign
| TFunction | TReturn | TTypeof | TNull | TTrue | TFalse
| TIdent (x : string)
| TNum (n : Z)
| TStr (s : string).

Definition is_space (a : ascii) : bool :=
  match a with
  | "009" | "011" | "012" | " " => true
  | _ => false
  end%char.

Definition is_newline (a : ascii) : bool :=
  match a with
  | "010" | "013" => true
  | _ => false
  end%char.

Definition is_ident_start (a : ascii) : bool :=
  let n := N_of_ascii a in
  (((97 <=? n) && (n <=? 122)) || ((65 <=? n) && (n <=? 90))
   || (n =? 36) || (n =? 95))%N.

Definition is_ident_part (a : ascii) : bool :=
  is_ident_start a || Text.is_digit a.

Definition punct (a : ascii) : option token :=
  match a with
  | "("%char => Some TLParen
  | ")"%char => Some TRParen
  | "{"%char => Some TLBrace
  | "}"%char => Some TRBrace
  | "["%char => Some TLBrack
  | "]"%char => Some TRBrack
  | ","%char => Some TComma
  | ":"%char => Some TColon
  | ";"%char => Some TSemi
  | "."%char => Some TDot
  | _ => None
  end.

(** The reserved words of ECMAScript 5 that the fragment has no use
    for. *)
Definition reserved : list string :=
  ["break"; "case"; "catch"; "continue"; "debugger"; "default"; "delete";
   "do"; "else"; "finally"; "for"; "if"; "in"; "instanceof"; "new";
   "switch"; "this"; "throw"; "try"; "var"; "void"; "while"; "with";
   "class"; "const"; "enum"; "export"; "extends"; "import"; "super";
   "implements"; "interface"; "let"; "package"; "private"; "protected";
   "public"; "static"; "yield"].

Inductive lstate : Type :=
| LStart
| LWord (w : string)
| LNum (n : Z) (zero : bool)
| LStr (q : ascii) (t : string)
| LEsc (q : ascii) (t : string)
| LEq
| LRet.

(** The largest integer literal read exactly. *)
Definition max_literal : Z := 9007199254740992.

Definition start (c : ascii) : option (list token * lstate) :=
  if is_space c || is_newline c then Some ([], LStart)
  else match punct c with
       | Some t => Some ([t], LStart)
       | None =>
           if Ascii.eqb c "=" then Some ([], LEq)
           else if is_ident_start c then Some ([], LWord (String c ""))
           else if Text.is_digit c then
             Some ([], LNum (Text.digit_val c) (Ascii.eqb c "0"))
           else if Ascii.eqb c "'" || Ascii.eqb c "034" then
             Some ([], LStr c "")
           else None
       end.

(** After [return] no line terminator may come before the operand. *)
Definition after_return (c : ascii) : option (list token * lstate) :=
  if is_newline c then None
  else if is_space c then Some ([], LRet)
  else start c.

Definition word (w : string) : option (token * lstate) :=
  if String.eqb w "function" then Some (TFunction, LStart)
  else if String.eqb w "return" then Some (TReturn, LRet)
  else if String.eqb w "typeof" then Some (TTypeof, LStart)
  else if String.eqb w "null" then Some (TNull, LStart)
  else if String.eqb w "true" then Some (TTrue, LStart)
  else if String.eqb w "false" then Some (TFalse, LStart)
  else if bool_decide (w ∈ reserved) then None
  else Some (TIdent w, LStart).

Definition number_token (n : Z) : option token :=
  if n <=? max_literal then Some (TNum n) else None.

(** Emit [t], then read [c] from the state [st]. *)
Definition emit_then (t : option token)
    (next : option (list token * lstate)) : option (list token * lstate) :=
  match t, next with
  | Some t, Some (ts, st) => Some (t :: ts, st)
  | _, _ => None
  end.

Definition escape (c : ascii) : option ascii :=
  match c with
  | "'"%char => Some "'"%char
  | "034"%char => Some "034"%char
  | "\"%char => Some "\"%char
  | "n"%char => Some "010"%char
  | "t"%char => Some "009"%char
  | "r"%char => Some "013"%char
  | "b"%char => Some "008"%char
  | "f"%char => Some "012"%char
  | _ => None
  end.

Definition step (st : lstate) (c : ascii) : option (list token * lstate) :=
  if (128 <=? N_of_ascii c)%N then None else
  match st with
  | LStart => start c
  | LWord w =>
      if is_ident_part c then Some ([], LWord (w +:+ String c ""))
      else match word w with
           | Some (t, LRet) => emit_then (Some t) (after_return c)
           | Some (t, _) => emit_then (Some t) (start c)
           | None => None
           end
  | LNum n zero =>
      if Text.is_digit c then
        if zero then None else Some ([], LNum (10 * n + Text.digit_val c) false)
      else if is_ident_start c || Ascii.eqb c "." || Ascii.eqb c "\" then None
      else emit_then (number_token n) (start c)
  | LStr q t =>
      if Ascii.eqb c q then Some ([TStr t], LStart)
      else if Ascii.eqb c "\" then Some ([], LEsc q t)
      else if is_newline c then None
      else Some ([], LStr q (t +:+ String c ""))
  | LEsc q t =>
      match escape c with
      | Some c' => Some ([], LStr q (t +:+ String c' ""))
      | None => None
      end
  | LEq =>
      if Ascii.eqb c "=" then None else emit_then (Some TAssign) (start c)
  | LRet => after_return c
  end.

(** What is pending when the text ends. *)
Definition flush (st : lstate) : option (list token) :=
  match st with
  | LStart | LRet => Some []
  | LWord w =>
      match word w with
      | Some (t, _) => Some [t]
      | None => None
      end
  | LNum n _ =>
      match number_token n with
      | Some t => Some [t]
      | None => None
      end
  | LEq => Some [TAssign]
  | LStr _ _ | LEsc _ _ => None
  end.

Fixpoint lex_from (st : lstate) (s : string) : option (list token) :=
  match s with
  | "" => flush st
  | String c s' =>
      match step st c with
      | Some (ts, st') =>
          match lex_from st' s' with
          | Some ts' => Some (ts ++ ts')
          | None => None
          end
      | None => None
      end
  end.

Definition lex (s : string) : option (list token) := lex_from LStart s.

(** *** Syntax *)

#[warnings="-register-all"]
Inductive expr : Type :=
| ENum (n : Z)
| EStr (s : string)
| ENull
| EBool (b : bool)
| EIdent (x : string)
| EObj (props : list (string * expr))
| EArr (elems : list expr)
| EFun (body : list stmt)
| ECall (f : expr) (args : list expr)
| EMember (e : expr) (name : string)
| ETypeof (e : expr)
| EAssign (x : string) (e : expr)
with stmt : Type :=
| SExpr (e : expr)
| SReturn (e : expr).

Definition parser (A : Type) : Type := list token → option (A * list token).

(** The next token must be [t]. *)
Definition expect {A} (t : token → bool) (r : option (A * list token))
  : option (A * list token) :=
  match r with
  | Some (a, t' :: ts) => if t t' then Some (a, ts) else None
  | _ => None
  end.

Definition is_rparen (t : token) : bool :=
  match t with TRParen => true | _ => false end.
Definition is_rbrack (t : token) : bool :=
  match t with TRBrack => true | _ => false end.
Definition is_rbrace (t : token) : bool :=
  match t with TRBrace => true | _ => false end.
Definition is_semi (t : token) : bool :=
  match t with TSemi => true | _ => false end.

Definition map_fst {A B} (f : A → B) (r : option (A * list token))
  : option (B * list token) :=
  match r with
  | Some (a, ts) => Some (f a, ts)
  | None => None
  end.

(** Recursive descent; [fuel] bounds the depth of the calls.  A function
    body that starts with a string literal may start with a directive,
    and is left out. *)
Fixpoint p_expr (fuel : nat) (ts : list token) {struct fuel}
  : option (expr * list token) :=
  match fuel with
  | O => None
  | S n =>
      match ts with
      | TIdent x :: TAssign :: ts' => map_fst (EAssign x) (p_expr n ts')
      | _ => p_unary n ts
      end
  end
with p_unary (fuel : nat) (ts : list token) {struct fuel}
  : option (expr * list token) :=
  match fuel with
  | O => None
  | S n =>
      match ts with
      | TTypeof :: ts' => map_fst ETypeof (p_unary n ts')
      | _ =>
          match p_primary n ts with
          | Some (e, ts') => p_postfix n e ts'
          | None => None
          end
      end
  end
with p_postfix (fuel : nat) (e : expr) (ts : list token) {struct fuel}
  : option (expr * list token) :=
  match fuel with
  | O => None
  | S n =>
      match ts with
      | TDot :: TIdent x :: ts' => p_postfix n (EMember e x) ts'
      | TDot :: _ => None
      | TLParen :: TRParen :: ts' => p_postfix n (ECall e []) ts'
      | TLParen :: ts' =>
          match expect is_rparen (p_exprs n ts') with
          | Some (args, ts'') => p_postfix n (ECall e args) ts''
          | None => None
          end
      | _ => Some (e, ts)
      end
  end
with p_primary (fuel : nat) (ts : list token) {struct fuel}
  : option (expr * list token) :=
  match fuel with
  | O => None
  | S n =>
      match ts with
      | TNum z :: ts' => Some (ENum z, ts')
      | TStr s :: ts' => Some (EStr s, ts')
      | TNull :: ts' => Some (ENull, ts')
      | TTrue :: ts' => Some (EBool true, ts')
      | TFalse :: ts' => Some (EBool false, ts')
      | TIdent x :: ts' => Some (EIdent x, ts')
      | TLParen :: ts' => expect is_rparen (p_expr n ts')
      | TLBrack :: TRBrack :: ts' => Some (EArr [], ts')
      | TLBrack :: ts' => map_fst EArr (expect is_rbrack (p_exprs n ts'))
      | TLBrace :: TRBrace :: ts' => Some (EObj [], ts')
      | TLBrace :: ts' => map_fst EObj (expect is_rbrace (p_props n ts'))
      | TFunction :: TLParen :: TRParen :: TLBrace :: TStr _ :: _ => None
      | TFunction :: TLParen :: TRParen :: TLBrace :: ts' =>
          map_fst EFun (p_body n ts')
      | _ => None
      end
  end
with p_exprs (fuel : nat) (ts : list token) {struct fuel}
  : option (list expr * list token) :=
  match fuel with
  | O => None
  | S n =>
      match p_expr n ts with
      | Some (e, TComma :: ts') => map_fst (cons e) (p_exprs n ts')
      | Some (e, ts') => Some ([e], ts')
      | None => None
      end
  end
with p_props (fuel : nat) (ts : list token) {struct fuel}
  : option (list (string * expr) * list token) :=
  match fuel with
  | O => None
  | S n =>
      match ts with
      | TIdent k :: TColon :: ts' | TStr k :: TColon :: ts' =>
          match p_expr n ts' with
          | Some (e, TComma :: ts'') => map_fst (cons (k, e)) (p_props n ts'')
          | Some (e, ts'') => Some ([(k, e)], ts'')
          | None => None
          end
      | _ => None
      end
  end
with p_body (fuel : nat) (ts : list token) {struct fuel}
  : option (list stmt * list token) :=
  match fuel with
  | O => None
  | S n =>
      match ts with
      | TRBrace :: ts' => Some ([], ts')
      | TLBrace :: _ | TFunction :: _ => None
      | TReturn :: ts' =>
          match expect is_semi (p_expr n ts') with
          | Some (e, ts'') => map_fst (cons (SReturn e)) (p_body n ts'')
          | None => None
          end
      | _ =>
          match expect is_semi (p_expr n ts) with
          | Some (e, ts'') => map_fst (cons (SExpr e)) (p_body n ts'')
          | None => None
          end
      end
  end.

(** A program: expression statements up to the end of the text. *)
Fixpoint p_program (fuel : nat) (ts : list token) {struct fuel}
  : option (list expr) :=
  match fuel with
  | O => None
  | S n =>
      match ts with
      | [] => Some []
      | TLBrace :: _ | TFunction :: _ | TReturn :: _ => None
      | _ =>
          match expect is_semi (p_expr n ts) with
          | Some (e, ts') =>
              match p_program n ts' with
              | Some es => Some (e :: es)
              | None => None
              end
          | None => None
          end
      end
  end.

(** Fuel that suffices for a text of [n] tokens. *)
Definition fuel_for (n : nat) : nat := (5 * n + 5)%nat.

(** Code that starts with a string literal may start with a directive,
    and is left out. *)
Definition parse_program (code : string) : option (list expr) :=
  match lex code with
  | Some (TStr _ :: _) => None
  | Some ts => p_program (fuel_for (length ts)) ts
  | None => None
  end.

(** A text that is one expression of the fragment. *)
Definition parse_expression (s : string) : option expr :=
  match lex s with
  | Some ts =>
      match p_expr (fuel_for (length ts)) ts with
      | Some (e, []) => Some e
      | _ => None
      end
  | None => None
  end.

(** *** Values and evaluation *)

#[warnings="-register-all"]
Inductive val : Type :=
| Undef
| Null
| Bool (b : bool)
| Num (n : Z)
| Str (s : string)
| Obj (props : list (string * val))
| Arr (elems : list val)
| Fun (body : list stmt)
| Native (name : string).

Definition typeof_val (v : val) : string :=
  match v with
  | Undef => "undefined"
  | Bool _ => "boolean"
  | Num _ => "number"
  | Str _ => "string"
  | Fun _ | Native _ => "function"
  | Null | Obj _ | Arr _ => "object"
  end.

(** A value as [JSON.stringify] followed by [JSON.parse] carries it:
    [None] where [JSON.stringify] gives [undefined]. *)
Fixpoint to_json (v : val) : option json :=
  match v with
  | Undef | Fun _ | Native _ => None
  | Null => Some JNull
  | Bool b => Some (JBool b)
  | Num n => Some (JNum n)
  | Str s => Some (JStr s)
  | Obj props =>
      Some (JObj
        ((fix go (l : list (string * val)) : list (string * json) :=
            match l with
            | [] => []
            | (k, v) :: l' =>
                match to_json v with
                | Some j => (k, j) :: go l'
                | None => go l'
                end
            end) props))
  | Arr elems =>
      Some (JArr (map (λ v, default JNull (to_json v)) elems))
  end.

(** An element of an array: [undefined] and functions become [null]. *)
Definition to_json_element (v : val) : json := default JNull (to_json v).

(** How evaluation ends. *)
Inductive outcome (A : Type) : Type :=
| Done (a : A)
| RefError (x : string)
    (** the [ReferenceError] for an identifier that is not bound *)
| Exhausted
    (** the fuel is used up *)
| Unmodelled.
    (** the fragment does not settle what happens *)
Arguments Done {A} a.
Arguments RefError {A} x.
Arguments Exhausted {A}.
Arguments Unmodelled {A}.

(** The state of the context: [console] and the global variables that
    the code has made by assignment, and what has been logged. *)
Record state : Type := State {
  globals : gmap string val;
  logged : list json
}.

(** Definition of an own property by an object literal. *)
Fixpoint define (k : string) (v : val) (l : list (string * val))
  : list (string * val) :=
  match l with
  | [] => [(k, v)]
  | (k', v') :: l' =>
      if String.eqb k k' then (k', v) :: l' else (k', v') :: define k v l'
  end.

Fixpoint own (k : string) (l : list (string * val)) : option val :=
  match l with
  | [] => None
  | (k', v) :: l' => if String.eqb k k' then Some v else own k l'
  end.

Fixpoint all_digits (s : string) : bool :=
  match s with
  | "" => true
  | String c s' => Text.is_digit c && all_digits s'
  end.

(** Property names that an object literal or [JSON.stringify] does not
    treat as a plain own property: array indices, which are enumerated
    first, [__proto__], and [toJSON]. *)
Definition special_name (k : string) : bool :=
  all_digits k || String.eqb k "__proto__" || String.eqb k "toJSON".

(** The names that every context binds: the properties of the global
    object of ECMAScript 5 with those of Annex B, the properties that the
    global object inherits from [Object.prototype], [arguments], which
    the function that wraps the code binds, and [print], which the
    package installs beside [console]. *)
Definition standard : list string :=
  ["undefined"; "NaN"; "Infinity"; "arguments"; "eval"; "parseInt";
   "parseFloat"; "isNaN"; "isFinite"; "decodeURI"; "decodeURIComponent";
   "encodeURI"; "encodeURIComponent"; "escape"; "unescape"; "Object";
   "Function"; "Array"; "String"; "Boolean"; "Number"; "Date"; "RegExp";
   "Error"; "EvalError"; "RangeError"; "ReferenceError"; "SyntaxError";
   "TypeError"; "URIError"; "Math"; "JSON"; "print"; "constructor";
   "toString"; "toLocaleString"; "valueOf"; "hasOwnProperty";
   "isPrototypeOf"; "propertyIsEnumerable"; "__proto__";
   "__defineGetter__"; "__defineSetter__"; "__lookupGetter__";
   "__lookupSetter__"].

(** The function that the package installs as [console.log]. *)
Definition is_log (v : val) : bool :=
  match v with
  | Native name => String.eqb name "log"
  | _ => false
  end.

(** What one call of [console.log] records: its first argument, or
    [null] when it has none. *)
Definition log (j : json) (σ : state) : state :=
  State (globals σ) (logged σ ++ [j]).

Section Evaluation.

(** The names that the engine at hand binds beyond the standard ones. *)
Variable bound : string → bool.

(** A name that the engine or the package binds. *)
Definition engine (x : string) : bool :=
  bool_decide (x ∈ standard) || bound x.

Fixpoint eval (fuel : nat) (e : expr) (σ : state) {struct fuel}
  : outcome val * state :=
  match fuel with
  | O => (Exhausted, σ)
  | S n =>
      match e with
      | ENum z => (Done (Num z), σ)
      | EStr s => (Done (Str s), σ)
      | ENull => (Done Null, σ)
      | EBool b => (Done (Bool b), σ)
      | EIdent x =>
          match globals σ !! x with
          | Some v => (Done v, σ)
          | None => if engine x then (Unmodelled, σ) else (RefError x, σ)
          end
      | EObj props =>
          match eval_props n props [] σ with
          | (Done l, σ') => (Done (Obj l), σ')
          | (RefError x, σ') => (RefError x, σ')
          | (Exhausted, σ') => (Exhausted, σ')
          | (Unmodelled, σ') => (Unmodelled, σ')
          end
      | EArr elems =>
          match eval_list n elems σ with
          | (Done l, σ') => (Done (Arr l), σ')
          | (RefError x, σ') => (RefError x, σ')
          | (Exhausted, σ') => (Exhausted, σ')
          | (Unmodelled, σ') => (Unmodelled, σ')
          end
      | EFun body => (Done (Fun body), σ)
      | ETypeof (EIdent x) =>
          match globals σ !! x with
          | Some v => (Done (Str (typeof_val v)), σ)
          | None =>
              if engine x then (Unmodelled, σ)
              else (Done (Str "undefined"), σ)
          end
      | ETypeof e' =>
          match eval n e' σ with
          | (Done v, σ') => (Done (Str (typeof_val v)), σ')
          | r => r
          end
      | EAssign x e' =>
          if engine x then (Unmodelled, σ)
          else
            match eval n e' σ with
            | (Done v, σ') =>
                (Done v, State (<[x := v]> (globals σ')) (logged σ'))
            | r => r
            end
      | EMember e' name =>
          match eval n e' σ with
          | (Done (Obj props), σ') =>
              match own name props with
              | Some v => (Done v, σ')
              | None => (Unmodelled, σ')
              end
          | (Done _, σ') => (Unmodelled, σ')
          | r => r
          end
      | ECall (EFun body) args =>
          match eval_list n args σ with
          | (Done _, σ1) => exec n body σ1
          | (RefError x, σ1) => (RefError x, σ1)
          | (Exhausted, σ1) => (Exhausted, σ1)
          | (Unmodelled, σ1) => (Unmodelled, σ1)
          end
      | ECall f args =>
          match eval n f σ with
          | (Done fv, σ1) =>
              if is_log fv then
                match eval_list n args σ1 with
                | (Done [], σ2) => (Done Undef, log JNull σ2)
                | (Done [v], σ2) =>
                    (Done Undef, log (to_json_element v) σ2)
                | (Done _, σ2) => (Unmodelled, σ2)
                | (RefError x, σ2) => (RefError x, σ2)
                | (Exhausted, σ2) => (Exhausted, σ2)
                | (Unmodelled, σ2) => (Unmodelled, σ2)
                end
              else (Unmodelled, σ1)
          | r => r
          end
      end
  end
with eval_list (fuel : nat) (es : list expr) (σ : state) {struct fuel}
  : outcome (list val) * state :=
  match fuel with
  | O => (Exhausted, σ)
  | S n =>
      match es with
      | [] => (Done [], σ)
      | e :: es' =>
          match eval n e σ with
          | (Done v, σ1) =>
              match eval_list n es' σ1 with
              | (Done vs, σ2) => (Done (v :: vs), σ2)
              | r => r
              end
          | (RefError x, σ1) => (RefError x, σ1)
          | (Exhausted, σ1) => (Exhausted, σ1)
          | (Unmodelled, σ1) => (Unmodelled, σ1)
          end
      end
  end
with eval_props (fuel : nat) (ps : list (string * expr))
    (acc : list (string * val)) (σ : state) {struct fuel}
  : outcome (list (string * val)) * state :=
  match fuel with
  | O => (Exhausted, σ)
  | S n =>
      match ps with
      | [] => (Done acc, σ)
      | (k, e) :: ps' =>
          if special_name k then (Unmodelled, σ)
          else
            match eval n e σ with
            | (Done v, σ1) => eval_props n ps' (define k v acc) σ1
            | (RefError x, σ1) => (RefError x, σ1)
            | (Exhausted, σ1) => (Exhausted, σ1)
            | (Unmodelled, σ1) => (Unmodelled, σ1)
            end
      end
  end
with exec (fuel : nat) (body : list stmt) (σ : state) {struct fuel}
  : outcome val * state :=
  match fuel with
  | O => (Exhausted, σ)
  | S n =>
      match body with
      | [] => (Done Undef, σ)
      | SReturn e :: _ => eval n e σ
      | SExpr e :: body' =>
          match eval n e σ with
          | (Done _, σ1) => exec n body' σ1
          | r => r
          end
      end
  end.

(** The completion value of a program: that of its last statement. *)
Fixpoint run_program (fuel : nat) (es : list expr) (last : val) (σ : state)
  : outcome val * state :=
  match es with
  | [] => (Done last, σ)
  | e :: es' =>
      match eval fuel e σ with
      | (Done v, σ1) => run_program fuel es' v σ1
      | r => r
      end
  end.

(** *** The report *)

Definition plain (c : ascii) : bool :=
  let n := N_of_ascii c in
  ((32 <=? n) && (n <? 127) && negb (n =? 39) && negb (n =? 92))%N.

Fixpoint all_plain (s : string) : bool :=
  match s with
  | "" => true
  | String c s' => plain c && all_plain s'
  end.

(** [util.inspect] of a text without quotes, backslashes or control
    characters. *)
Definition inspect_text (s : string) : option string :=
  if all_plain s then Some ("'" +:+ s +:+ "'") else None.

(** [util.inspect] of the completion value carried across as JSON. *)
Definition inspect (v : val) : option string :=
  match to_json_element v with
  | JNull => Some "null"
  | JBool true => Some "true"
  | JBool false => Some "false"
  | JNum x => Some (Number.to_text x)
  | JStr s => inspect_text s
  | JArr _ | JObj _ => None
  end.

(** The context in which the code starts: [console.log] is installed
    and nothing is logged. *)
Definition initial : state :=
  State {[ "console" := Obj [("log", Native "log")] ]} [].

Definition report (r : outcome val * state) : option Info :=
  match r with
  | (Done v, σ) =>
      match inspect v with
      | Some text => Some (MkInfo text (logged σ))
      | None => None
      end
  | (RefError x, σ) =>
      match inspect_text ("ReferenceError: " +:+ x +:+ " is not defined") with
      | Some text => Some (MkInfo text (logged σ))
      | None => None
      end
  | (Exhausted, _) | (Unmodelled, _) => None
  end.

(** [sandbox.run(code, callback)]: the report handed to the callback,
    for code within the budget [fuel]. *)
Definition run (fuel : nat) (code : string) : option Info :=
  if (fuel <? String.length code)%nat then None
  else
    match parse_program code with
    | Some es => report (run_program fuel es Undef initial)
    | None => None
    end.

End Evaluation.

End MiniJS.

(** A sandbox agrees with the model when it gives the report of the model
    wherever the model has one: [bound] holds the names that its engine
    binds beyond the standard ones, and [fuel] is within what it evaluates
    before its time limit. *)
Definition agrees (sandbox_run : string → Info)
    (fuel : nat) (bound : string → bool) : Prop :=
  ∀ code info, MiniJS.run bound fuel code = Some info →
               sandbox_run code = info.

(** The model as a sandbox, with an empty report where it has none. *)
Definition model_sandbox (fuel : nat) (bound : string → bool)
  : string → Info :=
  λ code, default (MkInfo "" []) (MiniJS.run bound fuel code).

(** * Properties *)

(** ** The model on the values of the documentation *)

Example to_text_integers :
  Number.to_text 42 = "42" ∧ Number.to_text 0 = "0"
  ∧ Number.to_text (-1070) = "-1070".
Proof. by vm_compute. Qed.

Example to_text_large :
  Number.to_text (10 ^ 20) = "100000000000000000000"
  ∧ Number.to_text (10 ^ 21) = "1e+21"
  ∧ Number.to_text (- (123 * 10 ^ 20)) = "-1.23e+22".
Proof. by vm_compute. Qed.

Example to_text_fractions :
  Number.to_text (Decimal false 5 (-1)) = "0.5"
  ∧ Number.to_text (Decimal false 1234 (-2)) = "12.34"
  ∧ Number.to_text (Decimal true 1 (-6)) = "-0.000001"
  ∧ Number.to_text (Decimal false 1 (-7)) = "1e-7"
  ∧ Number.to_text (Decimal false 15 (-8)) = "1.5e-7"
  ∧ Number.to_text (Zero true) = "0".
Proof. by vm_compute. Qed.

Example parseInt_large : parseInt (JNum (10 ^ 21)) = Some 1.
Proof. by vm_compute. Qed.

Example parseInt_no_break_space :
  parseInt (JStr (String "194" (String "160" "7"))) = Some 7.
Proof. by vm_compute. Qed.

Example parseInt_false : parseInt (JBool false) = None.
Proof. reflexivity. Qed.

Example parseInt_2 : parseInt (JNum 2) = Some 2.
Proof. reflexivity. Qed.

Example parseInt_text_4px : parseInt (JStr "  4px") = Some 4.
Proof. reflexivity. Qed.

Example stringify_compact :
  stringify foo_bar_baz (Some 0) = Some (Text.lit "{`foo`:`bar`,`baz`:2}").
Proof. reflexivity. Qed.

Example stringify_nan_space :
  stringify foo_bar_baz None = Some (Text.lit "{`foo`:`bar`,`baz`:2}").
Proof. reflexivity. Qed.

Example stringify_indented :
  stringify (JObj [("a", JArr [JNum 1; JNull]); ("b", JObj [])]) (Some 2)
  = Some ("{" +:+ Stringify.newline
          +:+ Text.lit "  `a`: [" +:+ Stringify.newline
          +:+ "    1," +:+ Stringify.newline
          +:+ "    null" +:+ Stringify.newline
          +:+ "  ]," +:+ Stringify.newline
          +:+ Text.lit "  `b`: {}" +:+ Stringify.newline
          +:+ "}").
Proof. reflexivity. Qed.

Example stringify_text :
  stringify (JStr "{foo: 'bar', baz: 2}") None
  = Some (Text.lit "`{foo: 'bar', baz: 2}`").
Proof. reflexivity. Qed.
Example json_numbers :
  JSON.parse "0.5" = Some (JNum (Decimal false 5 (-1)))
  ∧ JSON.parse "1e+21" = Some (JNum (10 ^ 21))
  ∧ JSON.parse "-12.50e-1" = Some (JNum (Decimal true 125 (-2)))
  ∧ JSON.parse "-0" = Some (JNum (Zero true))
  ∧ JSON.parse "[1E2, 0.0]" = Some (JArr [JNum 100; JNum 0])
  ∧ JSON.parse "01" = None ∧ JSON.parse "1." = None ∧ JSON.parse "1e" = None
  ∧ JSON.parse ".5" = None.
Proof. by vm_compute. Qed.

(** [first_unit] on a character of one byte, of two bytes, and on U+1F600,
    whose first surrogate is U+D83D. *)
Example first_unit_examples :
  first_unit "abc" = "a"
  ∧ first_unit (String "195" (String "169" "t")) = String "195" (String "169" "")
  ∧ first_unit (String "240" (String "159" (String "152" (String "128" "!"))))
    = String "237" (String "160" (String "189" "")).
Proof. repeat split; vm_compute; reflexivity. Qed.

(** ** Text *)

Module TextFacts.
Import Text.

Lemma app_cons a s t : String a s +:+ t = String a (s +:+ t).
Proof. reflexivity. Qed.

Lemma app_nil_l s : "" +:+ s = s.
Proof. reflexivity. Qed.

Lemma app_nil_r s : s +:+ "" = s.
Proof. induction s as [|a s IH]; [done|]. by rewrite app_cons, IH. Qed.

Lemma app_assoc s t u : (s +:+ t) +:+ u = s +:+ t +:+ u.
Proof. induction s as [|a s IH]; [done|]. by rewrite !app_cons, IH. Qed.

Lemma mem_app a s t : mem a (s +:+ t) = mem a s || mem a t.
Proof.
  induction s as [|b s IH]; [done|].
  rewrite app_cons. simpl. rewrite IH. by rewrite orb_assoc.
Qed.

End TextFacts.

(** ** The options merge, as a function on records *)

Definition is_undefined (v : value) : bool :=
  match v with VUndefined => true | _ => false end.

Lemma typeof_undefined v :
  String.eqb (typeof v) "undefined" = is_undefined v.
Proof. by destruct v as [| |[]]. Qed.

(** One step of the merge: a key whose value is [undefined] receives the
    value of the table. *)
Definition fill (o : gmap string value) (entry : string * value)
  : gmap string value :=
  if is_undefined (default VUndefined (o !! entry.1))
  then <[entry.1 := entry.2]> o else o.

Definition merge (o : gmap string value) : gmap string value :=
  foldl fill o default_options.

(** A record that the merge leaves as it is. *)
Definition merged (o : gmap string value) : Prop := merge o = o.

Lemma fill_lookup o e k :
  fill o e !! k =
    if decide (k = e.1) then
      if is_undefined (default VUndefined (o !! k)) then Some e.2 else o !! k
    else o !! k.
Proof.
  unfold fill. destruct e as [k' v']; simpl.
  destruct (decide (k = k')) as [->|Hne].
  - destruct (is_undefined _); [by rewrite lookup_insert_eq|done].
  - destruct (is_undefined _); [by rewrite lookup_insert_ne|done].
Qed.

Lemma foldl_fill_lookup (t : list (string * value)) o k :
  NoDup t.*1 →
  foldl fill o t !! k =
    if is_undefined (default VUndefined (o !! k)) then
      match (list_to_map t : gmap string value) !! k with
      | Some d => Some d
      | None => o !! k
      end
    else o !! k.
Proof.
  revert o. induction t as [|[k' v'] t IH]; intros o Hnd; simpl.
  - rewrite lookup_empty. by destruct (is_undefined _).
  - apply NoDup_cons in Hnd as [Hk' Hnd]. rewrite IH by done.
    rewrite fill_lookup. simpl. destruct (decide (k = k')) as [->|Hne].
    + rewrite lookup_insert_eq.
      assert ((list_to_map t : gmap string value) !! k' = None) as ->
        by by apply not_elem_of_list_to_map_1.
      destruct (is_undefined (default VUndefined (o !! k'))) eqn:Hu; simpl.
      * by destruct (is_undefined v').
      * by rewrite Hu.
    + by rewrite lookup_insert_ne.
Qed.

Lemma default_options_NoDup : NoDup default_options.*1.
Proof. apply (bool_decide_unpack _). by vm_compute. Qed.

(** The merged record, one key at a time. *)
Lemma merge_lookup o k :
  merge o !! k =
    if is_undefined (default VUndefined (o !! k)) then
      match (list_to_map default_options : gmap string value) !! k with
      | Some d => Some d
      | None => o !! k
      end
    else o !! k.
Proof. apply foldl_fill_lookup, default_options_NoDup. Qed.

Lemma default_options_defined k d :
  (list_to_map default_options : gmap string value) !! k = Some d →
  is_undefined d = false.
Proof.
  intros H. apply elem_of_list_to_map_2 in H.
  unfold default_options in H.
  repeat (apply elem_of_cons in H as [[= -> ->]|H]; [done|]).
  by apply elem_of_nil in H.
Qed.

Lemma merge_idempotent o : merged (merge o).
Proof.
  unfold merged. apply map_eq. intros k. rewrite !merge_lookup.
  destruct (is_undefined (default VUndefined (o !! k))) eqn:Hu.
  - destruct ((list_to_map default_options : gmap string value) !! k) as [d|] eqn:Hd.
    + simpl. by rewrite (default_options_defined _ _ Hd).
    + by rewrite Hu.
  - by rewrite Hu.
Qed.

(** ** The options merge, on the heap *)

Lemma fill_default_spec l e w o :
  heap w !! l = Some o →
  fill_default l e w = (Normal (), World (<[l := fill o e]> (heap w)) (trace w)).
Proof.
  intros Hl. unfold fill_default, bind, get, set, ret, record_at, fill.
  rewrite Hl. simpl. rewrite typeof_undefined.
  destruct (is_undefined _); [by rewrite Hl|].
  rewrite insert_id by done. by destruct w.
Qed.

Lemma for_each_fill_default l t w o :
  heap w !! l = Some o →
  for_each (fill_default l) t w
  = (Normal (), World (<[l := foldl fill o t]> (heap w)) (trace w)).
Proof.
  revert w o. induction t as [|e t IH]; intros w o Hl; simpl.
  - unfold ret. rewrite insert_id by done. by destruct w.
  - unfold bind. rewrite (fill_default_spec _ _ _ _ Hl).
    rewrite (IH _ (fill o e)) by (simpl; apply lookup_insert_eq).
    simpl. by rewrite insert_insert_eq.
Qed.

(** On a record of the caller, [options] updates that record in place and
    returns the reference it was given. *)
Lemma options_record l w o :
  heap w !! l = Some o →
  options (Record_ l) w
  = (Normal l, World (<[l := merge o]> (heap w)) (trace w)).
Proof.
  intros Hl. unfold options, defaults, bind, ret.
  by rewrite (for_each_fill_default _ _ _ _ Hl).
Qed.

(** Without a record, or with a callback in its place, [options] builds a
    fresh record and touches no other. *)
Lemma options_fresh a w :
  a = Omitted ∨ a = Callback →
  options a w
  = (Normal (fresh (dom (heap w))),
     World (<[fresh (dom (heap w)) := merge ∅]> (heap w)) (trace w)).
Proof.
  intros [-> | ->]; unfold options, defaults, bind, ret, alloc; cbv beta iota.
  all: rewrite (for_each_fill_default _ _ _ ∅)
         by (cbn [heap]; apply lookup_insert_eq).
  all: cbn [heap trace]; by rewrite insert_insert_eq.
Qed.

(** A merged record is left alone by a further merge. *)
Lemma options_merged l w o :
  heap w !! l = Some o → merged o →
  options (Record_ l) w = (Normal l, w).
Proof.
  intros Hl Hm. rewrite (options_record _ _ _ Hl), Hm.
  rewrite insert_id by done. by destruct w.
Qed.

(** The record that an options argument stands for: the caller's, or the
    empty one that [options] starts from when it is given none. *)
Definition supplied (opts : arg) (w : world) : gmap string value :=
  match opts with
  | Record_ l => record_at w l
  | _ => ∅
  end.

(** A reference among the arguments is one to a record of the heap. *)
Definition refers (opts : arg) (w : world) : Prop :=
  match opts with
  | Record_ l => is_Some (heap w !! l)
  | _ => True
  end.

(** ** The stages on a record of the heap *)

(** [o[key]] on a record. *)
Definition prop (o : gmap string value) (key : string) : value :=
  default VUndefined (o !! key).

Lemma get_spec l key w o :
  heap w !! l = Some o → get l key w = (Normal (prop o key), w).
Proof. intros Hl. unfold get, record_at, prop. by rewrite Hl. Qed.

Lemma bind_normal {A B} (m : M A) (k : A → M B) w a w' :
  m w = (Normal a, w') → bind m k w = k a w'.
Proof. intros H. unfold bind. by rewrite H. Qed.

Lemma bind_get {B} l key (k : value → M B) w o :
  heap w !! l = Some o → bind (get l key) k w = k (prop o key) w.
Proof. intros Hl. by apply bind_normal, get_spec. Qed.

Lemma bind_emit {B} e (k : unit → M B) w :
  bind (emit e) k w = k () (World (heap w) (trace w ++ [e])).
Proof. done. Qed.

Section Stages.

Variable sandbox_run : string → Info.
Variable isTTY : bool.
Variable highlight : option string → value → string + string.
Variable chalk : style → string → string.
Variable writeFileSync : value → option string → option error.
Variable stdout_write : option string → option error.

(** Whether [output] decorates, for a merged record. *)
Definition decorates (o : gmap string value) : bool :=
  isTTY && negb (truthy (prop o "no-color")) && negb (truthy (prop o "output")).

(** What [output] returns and logs, for a merged record. *)
Definition render (o : gmap string value) (v : value)
  : option string * list event :=
  let out := stringify v (parseInt (prop o "indent")) in
  if decorates o then
    match highlight out (prop o "line-nos") with
    | inl coloured => (Some coloured, [Highlight out (prop o "line-nos")])
    | inr message =>
        (out,
         [Highlight out (prop o "line-nos");
          ConsoleWarn
            (chalk StyleWarn (Text.lit "Could not highlight!  Exception: `%s`"))
            message])
    end
  else (out, []).

Lemma output_spec v l w o :
  heap w !! l = Some o →
  output isTTY highlight chalk v (Record_ l) w
  = (Normal (render (merge o) v).1,
     World (<[l := merge o]> (heap w)) (trace w ++ (render (merge o) v).2)).
Proof.
  intros Hl. unfold output.
  rewrite (bind_normal _ _ _ _ _ (options_record _ _ _ Hl)).
  set (w1 := World _ _).
  assert (heap w1 !! l = Some (merge o)) as H1 by apply lookup_insert_eq.
  rewrite !(bind_get _ _ _ _ _ H1).
  unfold render, decorates.
  destruct (isTTY && _ && _).
  - rewrite (bind_get _ _ _ _ _ H1), bind_emit.
    destruct (highlight _ _); [done|].
    rewrite bind_emit. unfold ret. cbn [heap trace]. by rewrite <- app_assoc.
  - unfold ret. cbn [snd]. by rewrite app_nil_r.
Qed.

(** What the sandbox callback does with a report, given [opts.debug]. *)
Definition classify (debug : bool) (info : Info) : completion (promise value) :=
  if bool_decide (result info ∈ accepted) then
    Normal (Fulfilled (first (console info)))
  else if debug then Uncaught (NotCallable "info")
  else Normal (Rejected (rejection info)).

Lemma on_report_spec l info w o :
  heap w !! l = Some o →
  on_report l info w = (classify (truthy (prop o "debug")) info, w).
Proof.
  intros Hl. unfold on_report, classify.
  destruct (bool_decide _); [done|].
  rewrite (bind_get _ _ _ _ _ Hl). by destruct (truthy _).
Qed.

(** What [parse] logs before the sandbox reports. *)
Definition parse_events (o : gmap string value) (fn : string) : list event :=
  (if truthy (prop o "debug")
   then [ConsoleInfo (chalk StyleInfo ("Executing:" +:+ Stringify.newline +:+ fn))]
   else [])
  ++ [SandboxRun fn].

Lemma parse_spec s l w o :
  heap w !! l = Some o →
  parse sandbox_run chalk s (Record_ l) w
  = (classify (truthy (prop (merge o) "debug"))
       (sandbox_run (harness (to_string s))),
     World (<[l := merge o]> (heap w))
       (trace w ++ parse_events (merge o) (harness (to_string s)))).
Proof.
  intros Hl. unfold parse.
  rewrite (bind_normal _ _ _ _ _ (options_record _ _ _ Hl)).
  set (w1 := World _ _).
  assert (heap w1 !! l = Some (merge o)) as H1 by apply lookup_insert_eq.
  rewrite (bind_get _ _ _ _ _ H1). unfold parse_events, when.
  destruct (truthy (prop (merge o) "debug")) eqn:Hd.
  - rewrite !bind_emit. rewrite (on_report_spec _ _ _ (merge o)) by done.
    rewrite Hd. subst w1. cbn [heap trace]. by rewrite <- app_assoc.
  - unfold bind at 1, ret. rewrite bind_emit.
    rewrite (on_report_spec _ _ _ (merge o)) by done. by rewrite Hd.
Qed.

(** On a record that is already merged the stages leave the heap as it
    is. *)
Lemma output_merged v l w o :
  heap w !! l = Some o → merged o →
  output isTTY highlight chalk v (Record_ l) w
  = (Normal (render o v).1, World (heap w) (trace w ++ (render o v).2)).
Proof.
  intros Hl Hm. rewrite (output_spec _ _ _ _ Hl), Hm.
  by rewrite insert_id by done.
Qed.

Lemma parse_merged s l w o :
  heap w !! l = Some o → merged o →
  parse sandbox_run chalk s (Record_ l) w
  = (classify (truthy (prop o "debug")) (sandbox_run (harness (to_string s))),
     World (heap w) (trace w ++ parse_events o (harness (to_string s)))).
Proof.
  intros Hl Hm. rewrite (parse_spec _ _ _ _ Hl), Hm.
  by rewrite insert_id by done.
Qed.

(** *** [j2j] *)

(** What [j2j] does once the options are merged, for an input that is not
    a string: the sandbox report decides. *)
Definition after_parse (o : gmap string value) (fn : string) (w : world)
  : completion (promise (option string)) * world :=
  let w1 := World (heap w) (trace w ++ parse_events o fn) in
  match classify (truthy (prop o "debug")) (sandbox_run fn) with
  | Normal (Fulfilled v) =>
      (Normal (Fulfilled (render o v).1),
       World (heap w) (trace w1 ++ (render o v).2))
  | Normal (Rejected e) => (Normal (Rejected e), w1)
  | Throw e => (Throw e, w1)
  | Exit c => (Exit c, w1)
  | Uncaught e => (Uncaught e, w1)
  end.

Lemma j2j_spec input l w o :
  heap w !! l = Some o →
  j2j sandbox_run isTTY highlight chalk input (Record_ l) w
  = if negb (truthy input) then (Throw empty_input, w)
    else
      let w1 := World (<[l := merge o]> (heap w)) (trace w) in
      if String.eqb (typeof input) "string" then
        (Normal (Fulfilled (render (merge o) input).1),
         World (heap w1) (trace w1 ++ (render (merge o) input).2))
      else after_parse (merge o) (harness (to_string input)) w1.
Proof.
  intros Hl. unfold j2j. destruct (negb (truthy input)); [done|].
  rewrite (bind_normal _ _ _ _ _ (options_record _ _ _ Hl)).
  set (w1 := World _ _). cbv zeta.
  assert (heap w1 !! l = Some (merge o)) as H1 by apply lookup_insert_eq.
  pose proof (merge_idempotent o) as Hm.
  destruct (String.eqb _ _).
  - unfold bind. by rewrite (output_merged _ _ _ _ H1 Hm).
  - unfold bind, after_parse. rewrite (parse_merged _ _ _ _ H1 Hm).
    destruct (classify _ _) as [[v|e]| | |]; try done.
    cbn [then1 then_]. unfold settle.
    by rewrite (output_merged _ _ _ (merge o)).
Qed.

(** *** [write] *)

(** What the last handlers of [write] do with a failure. *)
Definition report_failure (callback : bool) (e : error) (w : world)
  : completion (promise unit) * world :=
  (if callback then Normal (Fulfilled ()) else Exit 1,
   World (heap w) (trace w ++ [ConsoleError (chalk StyleError (error_text e))])).

(** What they do with the rendered text. *)
Definition deliver_text (o : gmap string value) (out : option string)
    (w : world) : completion (promise unit) * world :=
  if truthy (prop o "output") then
    (match writeFileSync (prop o "output") out with
     | Some e => Normal (Rejected e)
     | None => Normal (Fulfilled ())
     end,
     World (heap w) (trace w ++ [FileWrite (prop o "output") out]))
  else
    (match stdout_write out with
     | Some e => Normal (Rejected e)
     | None => Normal (Fulfilled ())
     end,
     World (heap w) (trace w ++ [StdoutWrite out])).

Lemma write_spec input l callback w o :
  heap w !! l = Some o →
  write sandbox_run isTTY highlight chalk writeFileSync stdout_write
    input (Record_ l) callback w
  = let o' := merge o in
    let fn := harness (to_string input) in
    let w1 := World (<[l := o']> (heap w)) (trace w ++ parse_events o' fn) in
    match classify (truthy (prop o' "debug")) (sandbox_run fn) with
    | Normal (Fulfilled v) =>
        deliver_text o' (render o' v).1
          (World (heap w1) (trace w1 ++ (render o' v).2))
    | Normal (Rejected e) =>
        report_failure callback wrapped
          (World (heap w1)
             (trace w1 ++
              if truthy (prop o' "debug")
              then [ConsoleError (chalk StyleError (error_text e))] else []))
    | Throw e => (Throw e, w1)
    | Exit c => (Exit c, w1)
    | Uncaught e => (Uncaught e, w1)
    end.
Proof.
  intros Hl. unfold write.
  rewrite (bind_normal _ _ _ _ _ (options_record _ _ _ Hl)).
  set (w0 := World _ _). cbv zeta.
  assert (heap w0 !! l = Some (merge o)) as H0 by apply lookup_insert_eq.
  pose proof (merge_idempotent o) as Hm.
  unfold bind at 1. rewrite (parse_merged _ _ _ _ H0 Hm).
  destruct (classify _ _) as [[v|e]| | |]; try done.
  - cbn [then_]. unfold bind at 1, settle at 1.
    rewrite (output_merged _ _ _ (merge o)) by done.
    cbn [then_]. unfold settle, deliver, deliver_text.
    rewrite (bind_get _ _ _ _ (merge o)) by done.
    destruct (truthy (prop (merge o) "output")).
    + rewrite bind_emit. by destruct (writeFileSync _ _).
    + rewrite bind_emit. by destruct (stdout_write _).
  - cbn [then_]. unfold bind at 1, settle at 1.
    rewrite (bind_get _ _ _ _ (merge o)) by done.
    unfold report_failure.
    destruct (truthy (prop (merge o) "debug")); cbn [when].
    + rewrite bind_emit. cbn [throw then_]. unfold settle.
      rewrite bind_emit. destruct callback; cbn [heap trace]; done.
    + unfold bind at 1, ret. cbn [throw then_]. unfold settle.
      rewrite bind_emit. cbn [heap trace]. rewrite app_nil_r.
      by destruct callback.
Qed.

(** Without a record, [write] goes on as it does with the record that
    [options] has made. *)
Lemma write_fresh input a callback w :
  a = Omitted ∨ a = Callback →
  write sandbox_run isTTY highlight chalk writeFileSync stdout_write
    input a callback w
  = write sandbox_run isTTY highlight chalk writeFileSync stdout_write
      input (Record_ (fresh (dom (heap w)))) callback
      (World (<[fresh (dom (heap w)) := merge ∅]> (heap w)) (trace w)).
Proof.
  intros Ha. unfold write.
  match goal with
  | |- bind _ ?k _ = _ =>
      rewrite (bind_normal _ k _ _ _ (options_fresh _ _ Ha));
      symmetry; apply (bind_normal _ k)
  end.
  apply (options_merged _ _ (merge ∅));
    [apply lookup_insert_eq|apply merge_idempotent].
Qed.

End Stages.

(** ** Compact output *)

(** The texts of a value: its property names and its strings. *)
Fixpoint texts (j : json) : list string :=
  match j with
  | JStr s => [s]
  | JArr l =>
      (fix go (l : list json) : list string :=
         match l with
         | [] => []
         | x :: l' => texts x ++ go l'
         end) l
  | JObj l =>
      (fix go (l : list (string * json)) : list string :=
         match l with
         | [] => []
         | kv :: l' => kv.1 :: texts kv.2 ++ go l'
         end) l
  | _ => []
  end.

Lemma texts_arr l : texts (JArr l) = mjoin (texts <$> l).
Proof. induction l as [|x l IH]; [done|]. simpl in *. by rewrite IH. Qed.

Lemma texts_obj l :
  texts (JObj l) = mjoin ((λ kv, kv.1 :: texts kv.2) <$> l).
Proof. induction l as [|x l IH]; [done|]. simpl in *. by rewrite IH. Qed.

Module CompactFacts.
Import Text TextFacts Stringify.

Lemma is_white_cases c :
  is_white c = true →
  c = "009"%char ∨ c = "010"%char ∨ c = "011"%char ∨ c = "012"%char
  ∨ c = "013"%char ∨ c = " "%char.
Proof. destruct c as [[][][][][][][][]]; simpl; try discriminate; tauto. Qed.

Lemma digit_not_white c : is_digit c = true → is_white c = false.
Proof. by destruct c as [[][][][][][][][]]. Qed.

Lemma digit_char_digit d : 0 ≤ d < 10 → is_digit (digit_char d) = true.
Proof.
  intros H.
  assert (d = 0 ∨ d = 1 ∨ d = 2 ∨ d = 3 ∨ d = 4 ∨ d = 5 ∨ d = 6 ∨ d = 7
          ∨ d = 8 ∨ d = 9) as Hd by lia.
  repeat destruct Hd as [->|Hd]; try done. by subst.
Qed.

Lemma mem_digits_go c f n acc :
  mem c (digits_go f n acc) = true →
  is_digit c = true ∨ mem c acc = true.
Proof.
  revert n acc. induction f as [|f IH]; intros n acc; simpl; [tauto|].
  assert (is_digit (digit_char (n mod 10)) = true) as Hd
    by (apply digit_char_digit, Z.mod_pos_bound; lia).
  assert (mem c (String (digit_char (n mod 10)) acc) = true →
          is_digit c = true ∨ mem c acc = true) as Hstep.
  { simpl. intros [He|Hm]%orb_true_iff; [|tauto].
    apply Ascii.eqb_eq in He as ->. tauto. }
  destruct (n / 10 =? 0); [done|]. intros H. apply IH in H as [H|H]; tauto.
Qed.

(** A text without white space. *)
Definition solid (s : string) : Prop :=
  ∀ c, mem c s = true → is_white c = false.

Lemma solid_nil : solid "".
Proof. by intros c. Qed.

Lemma solid_cons a s : is_white a = false → solid s → solid (String a s).
Proof.
  intros Ha Hs c. simpl. intros [He|Hm]%orb_true_iff; [|by apply Hs].
  by apply Ascii.eqb_eq in He as ->.
Qed.

Lemma solid_app s t : solid s → solid t → solid (s +:+ t).
Proof.
  intros Hs Ht c. rewrite mem_app. intros [H|H]%orb_true_iff; auto.
Qed.

Lemma solid_digits n : solid (digits n).
Proof.
  intros c Hm. unfold digits in Hm.
  apply mem_digits_go in Hm as [Hm|Hm]; [|done]. by apply digit_not_white.
Qed.

Lemma solid_take n s : solid s → solid (take n s).
Proof.
  revert s. induction n as [|n IH]; intros [|a s] Hs; try apply solid_nil.
  cbn [take]. apply solid_cons.
  - apply Hs. simpl. by rewrite Ascii.eqb_refl.
  - apply IH. intros c Hc. apply Hs. simpl. by rewrite Hc, orb_true_r.
Qed.

Lemma solid_drop n s : solid s → solid (drop n s).
Proof.
  revert s. induction n as [|n IH]; intros [|a s] Hs; try done.
  cbn [drop]. apply IH. intros c Hc. apply Hs. simpl. by rewrite Hc, orb_true_r.
Qed.

Lemma solid_zeros n : solid (Number.zeros n).
Proof.
  unfold Number.zeros. induction (Z.to_nat n) as [|k IH]; [apply solid_nil|].
  by apply solid_cons.
Qed.

Lemma solid_positive_text s e : solid (Number.positive_text s e).
Proof.
  unfold Number.positive_text. cbv zeta.
  pose proof (solid_digits (Z.pos s)) as Hd.
  repeat case_match;
    repeat first [ apply solid_app | apply solid_take | apply solid_drop
                 | apply solid_zeros | apply solid_digits
                 | by apply solid_cons, solid_nil
                 | by apply solid_cons, solid_cons, solid_nil
                 | done ].
Qed.

Lemma solid_to_text x : solid (Number.to_text x).
Proof.
  destruct x as [|[]|[]|[] s e]; cbn [Number.to_text];
    try (by repeat (apply solid_cons; [done|]); apply solid_nil).
  - apply solid_cons; [done|]. apply solid_positive_text.
  - apply solid_positive_text.
Qed.

Lemma mem_quote_char c a :
  is_white c = true → mem c (quote_char a) = true → c = a.
Proof.
  intros Hw Hm. apply is_white_cases in Hw.
  destruct a as [[][][][][][][][]];
    repeat destruct Hw as [->|Hw]; subst; vm_compute in Hm;
    first [discriminate | reflexivity].
Qed.

Lemma mem_quote_body c s :
  is_white c = true → mem c (quote_body s) = true → mem c s = true.
Proof.
  intros Hw. induction s as [|a s IH]; simpl; [done|].
  rewrite mem_app. intros [Hm|Hm]%orb_true_iff.
  - apply (mem_quote_char _ _ Hw) in Hm as ->.
    by rewrite Ascii.eqb_refl.
  - rewrite IH by done. by rewrite orb_true_r.
Qed.

Lemma mem_quote c s :
  is_white c = true → mem c (quote s) = true → mem c s = true.
Proof.
  intros Hw. unfold quote. simpl. rewrite mem_app. simpl.
  destruct (is_white_cases _ Hw) as [->|[->|[->|[->|[->| ->]]]]]; simpl;
    rewrite orb_false_r; by apply mem_quote_body.
Qed.

Lemma mem_join c sep l :
  mem c (join sep l) = true →
  mem c sep = true ∨ ∃ x, x ∈ l ∧ mem c x = true.
Proof.
  induction l as [|x l IH]; [done|]. destruct l as [|y l].
  - simpl. intros H. right. exists x. split; [apply list_elem_of_here|done].
  - change (join sep (x :: y :: l)) with (x +:+ sep +:+ join sep (y :: l)).
    rewrite !mem_app. intros [H|[H|H]%orb_true_iff]%orb_true_iff.
    + right. exists x. split; [apply list_elem_of_here|done].
    + by left.
    + apply IH in H as [H|(z & Hz & H)]; [by left|].
      right. exists z. split; [by apply list_elem_of_further|done].
Qed.

Lemma mem_wrap_compact c open close indent partial :
  mem c (wrap open close "" indent partial) = true →
  mem c open = true ∨ mem c close = true ∨ Ascii.eqb c "," = true
  ∨ ∃ x, x ∈ partial ∧ mem c x = true.
Proof.
  unfold wrap. destruct partial as [|p partial].
  - rewrite mem_app. intros [H|H]%orb_true_iff; tauto.
  - cbn [is_empty]. rewrite !mem_app.
    intros [H|[H|H]%orb_true_iff]%orb_true_iff; [tauto| |tauto].
    apply mem_join in H as [H|H]; [|tauto].
    simpl in H. rewrite orb_false_r in H. tauto.
Qed.

(** White space in the compact rendering comes from the texts of the
    value. *)
Lemma compact_white c j :
  is_white c = true → mem c (str "" "" j) = true →
  ∃ t, t ∈ texts j ∧ mem c t = true.
Proof.
  intros Hw. assert (∀ x, Ascii.eqb c x = true → is_white x = true) as Heq.
  { intros x Hx. by apply Ascii.eqb_eq in Hx as <-. }
  induction j as [|[]|x|s|l IH|l IH] using json_ind'; simpl.
  - intros H. repeat (apply orb_true_iff in H as [H|H]; [by apply Heq in H|]).
    done.
  - intros H. repeat (apply orb_true_iff in H as [H|H]; [by apply Heq in H|]).
    done.
  - intros H. repeat (apply orb_true_iff in H as [H|H]; [by apply Heq in H|]).
    done.
  - destruct (Number.finite x).
    + intros H. apply solid_to_text in H. congruence.
    + intros H.
      repeat (apply orb_true_iff in H as [H|H]; [by apply Heq in H|]). done.
  - intros H. exists s. split; [apply list_elem_of_here|].
    by apply mem_quote.
  - intros H. apply mem_wrap_compact in H as [H|[H|[H|(x & Hx & H)]]].
    + simpl in H. rewrite orb_false_r in H. by apply Heq in H.
    + simpl in H. rewrite orb_false_r in H. by apply Heq in H.
    + by apply Heq in H.
    + apply list_elem_of_fmap in Hx as (y & -> & Hy).
      rewrite Forall_forall in IH. destruct (IH y Hy H) as (t & Ht & Hm).
      exists t. split; [|done]. change (t ∈ texts (JArr l)). rewrite texts_arr.
      apply list_elem_of_join. exists (texts y). split; [done|].
      by apply list_elem_of_fmap_2.
  - intros H. apply mem_wrap_compact in H as [H|[H|[H|(x & Hx & H)]]].
    + simpl in H. rewrite orb_false_r in H. by apply Heq in H.
    + simpl in H. rewrite orb_false_r in H. by apply Heq in H.
    + by apply Heq in H.
    + apply list_elem_of_fmap in Hx as ([k v] & -> & Hy).
      assert (∃ t, t ∈ k :: texts v ∧ mem c t = true) as (t & Ht & Hm).
      { rewrite !mem_app in H.
        apply orb_true_iff in H as [H|H].
        - exists k. split; [apply list_elem_of_here|]. by apply mem_quote.
        - apply orb_true_iff in H as [H|H].
          { simpl in H. rewrite orb_false_r in H. by apply Heq in H. }
          rewrite Forall_forall in IH. destruct (IH _ Hy H) as (t & Ht & Hm).
          exists t. split; [by apply list_elem_of_further|done]. }
      exists t. split; [|done]. change (t ∈ texts (JObj l)). rewrite texts_obj.
      apply list_elem_of_join. exists (k :: texts v). split; [done|].
      by apply (list_elem_of_fmap_2 (λ kv, kv.1 :: texts kv.2) _ (k, v)).
Qed.

End CompactFacts.

(** ** Reading back what [JSON.stringify] writes *)

(** A value that JSON represents: its numbers are finite, and decimals in
    the form that conversion to text determines, and the names of an
    object are distinct. *)
Fixpoint wf (j : json) : Prop :=
  match j with
  | JNum x => Number.finite x = true ∧ Number.canonical x
  | JArr l =>
      (fix go (l : list json) : Prop :=
         match l with
         | [] => True
         | x :: l' => wf x ∧ go l'
         end) l
  | JObj l =>
      NoDup l.*1
      ∧ (fix go (l : list (string * json)) : Prop :=
           match l with
           | [] => True
           | kv :: l' => wf kv.2 ∧ go l'
           end) l
  | _ => True
  end.

Lemma wf_arr l : wf (JArr l) ↔ Forall wf l.
Proof.
  induction l as [|x l IH]; simpl in *; [by split|].
  rewrite Forall_cons. by rewrite IH.
Qed.

Lemma wf_obj l : wf (JObj l) ↔ NoDup l.*1 ∧ Forall (λ kv, wf kv.2) l.
Proof.
  simpl. apply and_iff_compat_l.
  induction l as [|x l IH]; [by split|].
  rewrite Forall_cons. by rewrite IH.
Qed.

(** A value that holds no negative zero. *)
Fixpoint unsigned_zeros (j : json) : Prop :=
  match j with
  | JNum x => x ≠ Zero true
  | JArr l =>
      (fix go (l : list json) : Prop :=
         match l with
         | [] => True
         | x :: l' => unsigned_zeros x ∧ go l'
         end) l
  | JObj l =>
      (fix go (l : list (string * json)) : Prop :=
         match l with
         | [] => True
         | kv :: l' => unsigned_zeros kv.2 ∧ go l'
         end) l
  | _ => True
  end.

Lemma unsigned_zeros_arr l : unsigned_zeros (JArr l) ↔ Forall unsigned_zeros l.
Proof.
  induction l as [|x l IH]; simpl in *; [by split|].
  rewrite Forall_cons. by rewrite IH.
Qed.

Lemma unsigned_zeros_obj l :
  unsigned_zeros (JObj l) ↔ Forall (λ kv, unsigned_zeros kv.2) l.
Proof.
  induction l as [|x l IH]; [by split|]. simpl in *.
  rewrite Forall_cons. by rewrite IH.
Qed.

(** The fuel that reading a value back takes. *)
Fixpoint size (j : json) : nat :=
  match j with
  | JArr l =>
      S ((fix go (l : list json) : nat :=
            match l with
            | [] => O
            | x :: l' => (S (size x) + go l')%nat
            end) l)
  | JObj l =>
      S ((fix go (l : list (string * json)) : nat :=
            match l with
            | [] => O
            | kv :: l' => (S (size kv.2) + go l')%nat
            end) l)
  | _ => O
  end.

Definition sizes (l : list json) : nat :=
  foldr (λ x n, S (size x) + n)%nat O l.

Lemma size_arr l : size (JArr l) = S (sizes l).
Proof. reflexivity. Qed.

Lemma size_obj l : size (JObj l) = S (sizes l.*2).
Proof. simpl. f_equal. induction l as [|x l IH]; [done|]. simpl. by rewrite IH. Qed.

Module RoundTrip.
Import Text TextFacts Stringify.

(** What may follow a value inside a compact text. *)
Definition delimited (s : string) : Prop :=
  match s with
  | "" => True
  | String c _ => c = ","%char ∨ c = "]"%char ∨ c = "}"%char
  end.

(** *** Numbers *)

Lemma digit_val_char d : 0 ≤ d < 10 → digit_val (digit_char d) = d.
Proof.
  intros H.
  assert (d = 0 ∨ d = 1 ∨ d = 2 ∨ d = 3 ∨ d = 4 ∨ d = 5 ∨ d = 6 ∨ d = 7
          ∨ d = 8 ∨ d = 9) as Hd by lia.
  repeat destruct Hd as [->|Hd]; try done. by subst.
Qed.

Lemma read_digits_go f n acc a tail :
  0 ≤ n → n < 10 ^ Z.of_nat f → (1 ≤ f)%nat →
  ∃ k, 0 ≤ k ∧
    read_digits a (digits_go f n acc +:+ tail)
    = read_digits (a * 10 ^ k + n) (acc +:+ tail).
Proof.
  revert n acc. induction f as [|f IH]; intros n acc Hn Hlt Hf; [lia|].
  assert (0 ≤ n mod 10 < 10) as Hmod by (apply Z.mod_pos_bound; lia).
  assert (∀ b, read_digits b (String (digit_char (n mod 10)) acc +:+ tail)
               = read_digits (10 * b + n mod 10) (acc +:+ tail)) as Hone.
  { intros b. rewrite app_cons. cbn [read_digits].
    rewrite CompactFacts.digit_char_digit by done.
    by rewrite digit_val_char. }
  cbn [digits_go]. destruct (n / 10 =? 0) eqn:Hq.
  - apply Z.eqb_eq in Hq. exists 1. split; [lia|].
    rewrite Hone. f_equal. pose proof (Z.div_mod n 10). lia.
  - apply Z.eqb_neq in Hq.
    assert (0 ≤ n / 10) by (apply Z.div_pos; lia).
    assert (n / 10 < 10 ^ Z.of_nat f) as Hdiv.
    { apply Z.div_lt_upper_bound; [lia|].
      replace (Z.of_nat (S f)) with (1 + Z.of_nat f) in Hlt by lia.
      rewrite Z.pow_add_r in Hlt by lia. lia. }
    assert (1 ≤ f)%nat as Hf'.
    { destruct f; [|lia]. simpl in Hdiv. lia. }
    destruct (IH (n / 10) (String (digit_char (n mod 10)) acc))
      as (k & Hk & Hread); [done..|].
    exists (k + 1). split; [lia|]. rewrite Hread, Hone. f_equal.
    rewrite Z.pow_add_r by lia. pose proof (Z.div_mod n 10). lia.
Qed.

Lemma digits_fuel n : 0 ≤ n → n < 10 ^ Z.of_nat (S (Z.to_nat (Z.log2 n))).
Proof.
  intros Hn. destruct (decide (n = 0)) as [->|Hne]; [done|].
  assert (0 ≤ Z.log2 n) by apply Z.log2_nonneg.
  replace (Z.of_nat (S (Z.to_nat (Z.log2 n)))) with (Z.succ (Z.log2 n)) by lia.
  pose proof (Z.log2_spec n ltac:(lia)) as [_ Hlt].
  eapply Z.lt_le_trans; [exact Hlt|].
  apply Z.pow_le_mono_l. lia.
Qed.

Definition not_digit_first (s : string) : Prop :=
  match s with
  | "" => True
  | String c _ => is_digit c = false
  end.

Lemma read_digits_stop a s : not_digit_first s → read_digits a s = (a, s).
Proof. destruct s as [|c s]; [done|]. simpl. by intros ->. Qed.

Lemma read_digits_digits n tail :
  0 ≤ n → not_digit_first tail →
  read_digits 0 (digits n +:+ tail) = (n, tail).
Proof.
  intros Hn Ht. unfold digits.
  destruct (read_digits_go (S (Z.to_nat (Z.log2 n))) n "" 0 tail)
    as (k & Hk & ->); [done|by apply digits_fuel|lia|].
  rewrite app_nil_l. by rewrite read_digits_stop.
Qed.

(** The first digit written is zero only for zero. *)
Lemma digits_go_first f n acc :
  0 < n → n < 10 ^ Z.of_nat f →
  ∃ c r, digits_go f n acc = String c r
         ∧ is_digit c = true ∧ Ascii.eqb c "0" = false.
Proof.
  revert n acc. induction f as [|f IH]; intros n acc Hn Hlt.
  { simpl in Hlt. lia. }
  cbn [digits_go]. destruct (n / 10 =? 0) eqn:Hq.
  - apply Z.eqb_eq in Hq.
    assert (n < 10).
    { destruct (Z.lt_ge_cases n 10) as [|Hge]; [done|].
      assert (1 ≤ n / 10) by (apply Z.div_le_lower_bound; lia). lia. }
    eexists _, _. split; [done|]. rewrite Z.mod_small by lia.
    assert (n = 1 ∨ n = 2 ∨ n = 3 ∨ n = 4 ∨ n = 5 ∨ n = 6 ∨ n = 7
            ∨ n = 8 ∨ n = 9) as Hd by lia.
    repeat destruct Hd as [->|Hd]; try done. by subst.
  - apply Z.eqb_neq in Hq.
    assert (0 ≤ n / 10) by (apply Z.div_pos; lia).
    apply IH; [lia|].
    apply Z.div_lt_upper_bound; [lia|].
    replace (Z.of_nat (S f)) with (1 + Z.of_nat f) in Hlt by lia.
    rewrite Z.pow_add_r in Hlt by lia. lia.
Qed.

(** What ends a number: nothing that could go on with it. *)
Definition stops (s : string) : Prop :=
  match s with
  | "" => True
  | String c _ =>
      is_digit c = false
      ∧ Ascii.eqb c "." || Ascii.eqb c "e" || Ascii.eqb c "E" = false
  end.

Lemma delimited_stops s : delimited s → stops s.
Proof. destruct s as [|c s]; [done|]. by intros [->|[->| ->]]. Qed.

Lemma stops_not_digit s : stops s → not_digit_first s.
Proof. destruct s as [|c s]; [done|]. by intros [? _]. Qed.

(** **** Runs of digits *)

Fixpoint numeral (s : string) : bool :=
  match s with
  | "" => true
  | String a s' => is_digit a && numeral s'
  end.

(** The integer that the digits [ds] make after those of [a]. *)
Definition value (a : Z) (ds : string) : Z := (read_digits a ds).1.

Lemma numeral_app s t : numeral (s +:+ t) = numeral s && numeral t.
Proof.
  induction s as [|a s IH]; [done|].
  rewrite app_cons. simpl. by rewrite IH, andb_assoc.
Qed.

Lemma numeral_digits_go f n acc :
  numeral acc = true → numeral (digits_go f n acc) = true.
Proof.
  revert n acc. induction f as [|f IH]; intros n acc Ha; [done|].
  assert (numeral (String (digit_char (n mod 10)) acc) = true) as Hs.
  { cbn [numeral]. rewrite Ha.
    by rewrite CompactFacts.digit_char_digit
      by (apply Z.mod_pos_bound; lia). }
  cbn [digits_go]. destruct (n / 10 =? 0); [done|]. by apply IH.
Qed.

Lemma numeral_digits n : numeral (digits n) = true.
Proof. by apply numeral_digits_go. Qed.

Lemma numeral_zeros n : numeral (Number.zeros n) = true.
Proof.
  unfold Number.zeros. by induction (Z.to_nat n) as [|k IH].
Qed.

Lemma numeral_take n s : numeral s = true → numeral (take n s) = true.
Proof.
  revert s. induction n as [|n IH]; intros [|a s]; try done.
  cbn [take numeral]. intros [-> Hs]%andb_true_iff. by apply IH.
Qed.

Lemma numeral_drop n s : numeral s = true → numeral (drop n s) = true.
Proof.
  revert s. induction n as [|n IH]; intros [|a s]; try done.
  cbn [drop numeral]. intros [_ Hs]%andb_true_iff. by apply IH.
Qed.

Lemma take_drop n s : take n s +:+ drop n s = s.
Proof.
  revert s. induction n as [|n IH]; intros [|a s]; try done.
  cbn [take drop]. by rewrite app_cons, IH.
Qed.

Lemma length_app s t :
  String.length (s +:+ t) = (String.length s + String.length t)%nat.
Proof. induction s as [|a s IH]; [done|]. rewrite app_cons. simpl. by rewrite IH. Qed.

Lemma length_take n s :
  (n ≤ String.length s)%nat → String.length (take n s) = n.
Proof.
  revert s. induction n as [|n IH]; intros [|a s] H; simpl in *; try lia.
  by rewrite IH by lia.
Qed.

Lemma length_zeros n : 0 ≤ n → Z.of_nat (String.length (Number.zeros n)) = n.
Proof.
  intros Hn. unfold Number.zeros.
  assert (∀ k, String.length (repeat_char "0" k) = k) as H.
  { induction k as [|k IH]; [done|]. simpl. by rewrite IH. }
  rewrite H. lia.
Qed.

Lemma read_digits_numeral a ds tail :
  numeral ds = true → not_digit_first tail →
  read_digits a (ds +:+ tail) = (value a ds, tail).
Proof.
  intros Hd Ht. revert a. induction ds as [|c ds IH]; intros a.
  - rewrite app_nil_l. by rewrite read_digits_stop.
  - cbn [numeral] in Hd. apply andb_true_iff in Hd as [Hc Hd].
    rewrite app_cons. unfold value. cbn [read_digits]. rewrite Hc.
    by apply IH.
Qed.

Lemma value_app a ds1 ds2 :
  numeral ds1 = true → value a (ds1 +:+ ds2) = value (value a ds1) ds2.
Proof.
  revert a. induction ds1 as [|c ds IH]; intros a Hd; [done|].
  cbn [numeral] in Hd. apply andb_true_iff in Hd as [Hc Hd].
  rewrite app_cons. unfold value in *. cbn [read_digits]. rewrite Hc.
  by apply IH.
Qed.

Lemma value_zeros a n : 0 ≤ n → value a (Number.zeros n) = a * 10 ^ n.
Proof.
  intros Hn. unfold Number.zeros.
  rewrite <- (Z2Nat.id n) at 2 by done.
  generalize (Z.to_nat n). clear. intros k. revert a.
  induction k as [|k IH]; intros a.
  - unfold value. simpl. lia.
  - unfold value in *. cbn [repeat_char read_digits].
    change (is_digit "0") with true. cbv iota. rewrite IH.
    change (digit_val "0") with 0.
    rewrite Nat2Z.inj_succ, Z.pow_succ_r by lia. lia.
Qed.

Lemma value_digits n : 0 ≤ n → value 0 (digits n) = n.
Proof.
  intros Hn. pose proof (read_digits_digits n "" Hn I) as H.
  rewrite app_nil_r in H. unfold value. by rewrite H.
Qed.

Lemma fraction_digits_numeral m c ds tail :
  numeral ds = true → not_digit_first tail →
  JSON.fraction_digits m c (ds +:+ tail)
  = (value m ds, c + Z.of_nat (String.length ds), tail).
Proof.
  intros Hd Ht. revert m c. induction ds as [|a ds IH]; intros m c.
  - rewrite app_nil_l. unfold value. cbn [read_digits String.length].
    destruct tail as [|b tail]; [by rewrite Z.add_0_r|].
    simpl in Ht. cbn [JSON.fraction_digits]. rewrite Ht.
    by rewrite Z.add_0_r.
  - cbn [numeral] in Hd. apply andb_true_iff in Hd as [Hc Hd].
    rewrite app_cons. unfold value. cbn [JSON.fraction_digits read_digits].
    rewrite Hc, IH by done. unfold value. f_equal. f_equal.
    cbn [String.length]. lia.
Qed.

(** The digits of a positive integer: the first is not zero. *)
Lemma digits_positive n :
  0 < n →
  ∃ c r, digits n = String c r ∧ is_digit c = true
         ∧ Ascii.eqb c "0" = false.
Proof.
  intros Hn.
  by apply (digits_go_first (S (Z.to_nat (Z.log2 n))) n "");
    [|apply digits_fuel; lia].
Qed.

Lemma digits_first n :
  0 ≤ n → ∃ c r, digits n = String c r ∧ is_digit c = true.
Proof.
  intros Hn. destruct (decide (n = 0)) as [->|Hne].
  - by exists "0"%char, "".
  - destruct (digits_positive n) as (c & r & H1 & H2 & _); [lia|].
    by exists c, r.
Qed.

(** **** The parts of a number *)

Lemma natural_numeral c r tail :
  is_digit c = true → Ascii.eqb c "0" = false → numeral r = true →
  not_digit_first tail →
  JSON.natural (String c r +:+ tail) = Some (value 0 (String c r), tail).
Proof.
  intros Hc H0 Hr Ht. rewrite app_cons. unfold JSON.natural.
  rewrite H0, Hc. rewrite <- app_cons.
  by rewrite read_digits_numeral by (done || (cbn [numeral]; by rewrite Hc)).
Qed.

Lemma natural_zero tail :
  not_digit_first tail → JSON.natural (String "0" tail) = Some (0, tail).
Proof.
  intros Ht. cbn [JSON.natural Ascii.eqb Bool.eqb]. cbn.
  destruct tail as [|c tail]; [done|]. simpl in Ht. by rewrite Ht.
Qed.

Lemma fraction_none m tail :
  stops tail → JSON.fraction m tail = Some (m, 0, tail).
Proof.
  intros Ht. unfold JSON.fraction. destruct tail as [|c tail]; [done|].
  destruct Ht as [_ Ht]. cbn [JSON.next].
  apply orb_false_iff in Ht as [Ht _]. apply orb_false_iff in Ht as [Ht _].
  by rewrite Ht.
Qed.

Lemma fraction_exponent m r :
  JSON.fraction m (String "e" r) = Some (m, 0, String "e" r).
Proof. reflexivity. Qed.

Lemma fraction_numeral m c r tail :
  is_digit c = true → numeral r = true → not_digit_first tail →
  JSON.fraction m (String "." (String c r +:+ tail))
  = Some (value m (String c r),
          Z.of_nat (String.length (String c r)), tail).
Proof.
  intros Hc Hr Ht. unfold JSON.fraction.
  cbn [JSON.next Ascii.eqb Bool.eqb]. cbv iota. rewrite app_cons, Hc.
  rewrite <- app_cons.
  rewrite fraction_digits_numeral by (done || (cbn [numeral]; by rewrite Hc)).
  by rewrite Z.add_0_l.
Qed.

Lemma exponent_none tail : stops tail → JSON.exponent tail = Some (0, tail).
Proof.
  intros Ht. unfold JSON.exponent. destruct tail as [|c tail]; [done|].
  destruct Ht as [_ Ht].
  apply orb_false_iff in Ht as [Ht HE]. apply orb_false_iff in Ht as [_ He].
  by rewrite He, HE.
Qed.

Lemma exponent_text x tail :
  not_digit_first tail →
  JSON.exponent
    (String "e" ((if x <? 0 then "-" else "+") +:+ digits (Z.abs x) +:+ tail))
  = Some (x, tail).
Proof.
  intros Ht.
  destruct (digits_first (Z.abs x)) as (c & r & Hd & Hc); [lia|].
  assert (numeral (String c r) = true) as Hn
    by (rewrite <- Hd; apply numeral_digits).
  assert (value 0 (String c r) = Z.abs x) as Hv
    by (rewrite <- Hd; apply value_digits; lia).
  rewrite Hd.
  unfold JSON.exponent. cbn [Ascii.eqb Bool.eqb orb]. cbv iota.
  destruct (x <? 0) eqn:Hx.
  - apply Z.ltb_lt in Hx. rewrite app_cons, app_nil_l.
    cbn [Ascii.eqb Bool.eqb]. cbv iota beta. rewrite app_cons, Hc.
    rewrite <- app_cons, read_digits_numeral by done. cbn [fst snd].
    rewrite Hv. f_equal. f_equal. lia.
  - apply Z.ltb_ge in Hx. rewrite app_cons, app_nil_l.
    cbn [Ascii.eqb Bool.eqb]. cbv iota beta. rewrite app_cons, Hc.
    rewrite <- app_cons, read_digits_numeral by done. cbn [fst snd].
    rewrite Hv. f_equal. f_equal. lia.
Qed.

(** The digits of a positive integer are as many as its size takes. *)
Lemma digits_go_length f n acc :
  0 < n → n < 10 ^ Z.of_nat f →
  ∃ k, String.length (digits_go f n acc) = (S k + String.length acc)%nat
       ∧ 10 ^ Z.of_nat k ≤ n.
Proof.
  revert n acc. induction f as [|f IH]; intros n acc Hn Hlt.
  { simpl in Hlt. lia. }
  cbn [digits_go]. destruct (n / 10 =? 0) eqn:Hq.
  - exists 0%nat. split; [done|]. simpl. lia.
  - apply Z.eqb_neq in Hq.
    assert (0 ≤ n / 10) by (apply Z.div_pos; lia).
    destruct (IH (n / 10) (String (digit_char (n mod 10)) acc))
      as (k & Hk & Hle); [lia| |].
    { apply Z.div_lt_upper_bound; [lia|].
      replace (Z.of_nat (S f)) with (1 + Z.of_nat f) in Hlt by lia.
      rewrite Z.pow_add_r in Hlt by lia. lia. }
    exists (S k). split; [rewrite Hk; cbn [String.length]; lia|].
    rewrite Nat2Z.inj_succ, Z.pow_succ_r by lia.
    pose proof (Z.div_mod n 10 ltac:(lia)).
    pose proof (Z.mod_pos_bound n 10 ltac:(lia)). lia.
Qed.

Lemma digits_length n :
  0 < n → 10 ^ (Z.of_nat (String.length (digits n)) - 1) ≤ n.
Proof.
  intros Hn.
  destruct (digits_go_length (S (Z.to_nat (Z.log2 n))) n "" Hn)
    as (k & Hk & Hle); [apply digits_fuel; lia|].
  unfold digits. rewrite Hk. cbn [String.length].
  by replace (Z.of_nat (S k + 0) - 1) with (Z.of_nat k) by lia.
Qed.

(** **** The decimal of the digits read *)

(** What is left of a positive integer without its zeros at the end. *)
Lemma strip_positive fuel m e0 :
  0 < m → m < 2 ^ Z.of_nat fuel →
  ∃ s e, Number.strip fuel m e0 = (s, e)
         ∧ 0 < s ∧ s mod 10 ≠ 0 ∧ e0 ≤ e ∧ m = s * 10 ^ (e - e0).
Proof.
  revert m e0. induction fuel as [|f IH]; intros m e0 Hm Hlt.
  { simpl in Hlt. lia. }
  cbn [Number.strip]. destruct (m mod 10 =? 0) eqn:Hmod.
  - apply Z.eqb_eq in Hmod.
    pose proof (Z.div_mod m 10 ltac:(lia)) as Hdm.
    destruct (IH (m / 10) (e0 + 1)) as (s & e & Hs & Hpos & Hne & Hle & Heq).
    { lia. }
    { rewrite Nat2Z.inj_succ, Z.pow_succ_r in Hlt by lia. lia. }
    exists s, e. split; [done|]. repeat split; [done..|lia|].
    replace (e - e0) with (Z.succ (e - (e0 + 1))) by lia.
    rewrite Z.pow_succ_r by lia. lia.
  - apply Z.eqb_neq in Hmod. exists m, e0. repeat split; [done..|lia|].
    rewrite Z.sub_diag. lia.
Qed.

(** The number that an integer is. *)
Lemma of_Z_decimal n :
  n ≠ 0 →
  ∃ s e, Number.of_Z n = Decimal (n <? 0) s e
         ∧ Z.pos s mod 10 ≠ 0 ∧ 0 ≤ e ∧ Z.abs n = Z.pos s * 10 ^ e.
Proof.
  intros Hn. unfold Number.of_Z, Number.decimal.
  destruct (Z.leb_spec (Z.abs n) 0) as [|Hpos]; [lia|].
  destruct (strip_positive (S (Z.to_nat (Z.log2 (Z.abs n)))) (Z.abs n) 0 Hpos)
    as (s & e & Hs & Hs0 & Hne & Hle & Heq).
  { pose proof (Z.log2_spec (Z.abs n) Hpos) as [_ Hlt].
    replace (Z.of_nat (S (Z.to_nat (Z.log2 (Z.abs n)))))
      with (Z.succ (Z.log2 (Z.abs n)))
      by (pose proof (Z.log2_nonneg (Z.abs n)); lia).
    done. }
  rewrite Hs. cbn [fst snd]. exists (Z.to_pos s), e.
  rewrite Z2Pos.id by done. rewrite Z.sub_0_r in Heq. done.
Qed.

(** An integer below [10 ^ 21] in size is printed by its digits. *)
Lemma positive_text_integer s e :
  0 ≤ e → Z.pos s * 10 ^ e < 10 ^ 21 →
  Number.positive_text s e = digits (Z.pos s) +:+ Number.zeros e.
Proof.
  intros He Hlt. unfold Number.positive_text. cbv zeta.
  pose proof (digits_length (Z.pos s) ltac:(done)) as Hlen.
  assert (1 ≤ Z.of_nat (String.length (digits (Z.pos s)))) as Hone.
  { destruct (digits_positive (Z.pos s)) as (c & r & -> & _); [done|].
    cbn [String.length]. lia. }
  set (k := Z.of_nat (String.length (digits (Z.pos s)))) in *.
  assert (e + k ≤ 21) as Hk.
  { destruct (Z.le_gt_cases (e + k) 21) as [|Hgt]; [done|].
    assert (10 ^ 21 ≤ 10 ^ (k - 1) * 10 ^ e).
    { rewrite <- Z.pow_add_r by lia. apply Z.pow_le_mono_r; lia. }
    assert (0 < 10 ^ e) by (apply Z.pow_pos_nonneg; lia). nia. }
  destruct (Z.leb_spec k (e + k)); [|lia].
  destruct (Z.leb_spec (e + k) 21); [|lia].
  cbn [andb]. by replace (e + k - k) with e by lia.
Qed.


Lemma strip_zeros z fuel s e :
  s mod 10 ≠ 0 → (z ≤ fuel)%nat →
  Number.strip fuel (s * 10 ^ Z.of_nat z) e = (s, e + Z.of_nat z).
Proof.
  intros Hs. revert fuel e. induction z as [|z IH]; intros fuel e Hf.
  - rewrite Z.mul_1_r, Z.add_0_r. destruct fuel as [|f]; [done|].
    cbn [Number.strip]. by apply Z.eqb_neq in Hs as ->.
  - destruct fuel as [|f]; [lia|]. cbn [Number.strip].
    rewrite Nat2Z.inj_succ, Z.pow_succ_r by lia.
    replace (s * (10 * 10 ^ Z.of_nat z)) with (s * 10 ^ Z.of_nat z * 10) by lia.
    rewrite Z.mod_mul by lia. cbn [Z.eqb]. rewrite Z.div_mul by lia.
    rewrite IH by lia. f_equal. lia.
Qed.

Lemma decimal_zeros negative s z :
  Z.pos s mod 10 ≠ 0 → 0 ≤ z →
  Number.decimal negative (Z.pos s * 10 ^ z) 0 = Decimal negative s z.
Proof.
  intros Hs Hz. unfold Number.decimal.
  assert (0 < 10 ^ z) by (apply Z.pow_pos_nonneg; lia).
  assert (0 < Z.pos s * 10 ^ z) as Hpos by lia.
  destruct (Z.leb_spec (Z.pos s * 10 ^ z) 0) as [|_]; [lia|].
  assert (z ≤ Z.log2 (Z.pos s * 10 ^ z)) as Hlog; [|
    generalize (S (Z.to_nat (Z.log2 (Z.pos s * 10 ^ z)))) ,
      (ltac:(lia) : (Z.to_nat z ≤ S (Z.to_nat (Z.log2 (Z.pos s * 10 ^ z))))%nat);
    intros fuel Hfuel; rewrite <- (Z2Nat.id z) at 1 2 by done;
    rewrite strip_zeros by done; cbn [fst snd]; by rewrite Z2Nat.id ].
  rewrite <- (Z.log2_pow2 z) at 1 by done. apply Z.log2_le_mono.
  assert (2 ^ z ≤ 10 ^ z) by (apply Z.pow_le_mono_l; lia). nia.
Qed.

Lemma decimal_canonical negative s e :
  Z.pos s mod 10 ≠ 0 →
  Number.decimal negative (Z.pos s) e = Decimal negative s e.
Proof.
  intros Hs. unfold Number.decimal. cbn [Z.leb Z.compare].
  cbn [Number.strip]. by apply Z.eqb_neq in Hs as ->.
Qed.

(** **** Reading back the text of a number *)

Lemma unsigned_positive_text negative s e tail :
  Z.pos s mod 10 ≠ 0 → stops tail →
  JSON.unsigned negative (Number.positive_text s e +:+ tail)
  = Some (Decimal negative s e, tail).
Proof.
  intros Hs Ht. pose proof (stops_not_digit _ Ht) as Hnd.
  unfold Number.positive_text. cbv zeta.
  destruct (digits_positive (Z.pos s)) as (c & r & Hd & Hc & H0); [done|].
  pose proof (numeral_digits (Z.pos s)) as Hn.
  pose proof (value_digits (Z.pos s) ltac:(done)) as Hv.
  assert (numeral r = true) as Hr.
  { rewrite Hd in Hn. cbn [numeral] in Hn. by apply andb_true_iff in Hn as [_ ?]. }
  set (k := Z.of_nat (String.length (digits (Z.pos s)))).
  assert (1 ≤ k) as Hk by (subst k; rewrite Hd; cbn [String.length]; lia).
  unfold JSON.unsigned.
  destruct ((k <=? e + k) && (e + k <=? 21)) eqn:H1.
  { (* digits, then zeros *)
    apply andb_true_iff in H1 as [H1 _]. apply Z.leb_le in H1.
    replace (e + k - k) with e by lia. rewrite app_assoc.
    rewrite Hd at 1. rewrite app_cons.
    rewrite <- (app_cons c r), <- Hd, <- app_assoc.
    assert (digits (Z.pos s) +:+ Number.zeros e
            = String c (r +:+ Number.zeros e)) as Heq
      by by rewrite Hd, app_cons.
    rewrite Heq, natural_numeral
      by (done || by rewrite numeral_app, Hr, numeral_zeros).
    rewrite <- Heq, value_app, Hv, value_zeros by (done || lia).
    rewrite fraction_none, exponent_none by done.
    by rewrite Z.sub_0_r, decimal_zeros by (done || lia). }
  destruct ((0 <? e + k) && (e + k <=? 21)) eqn:H2.
  { (* digits on both sides of the point *)
    apply andb_true_iff in H2 as [H2 H2']. apply Z.ltb_lt in H2.
    apply Z.leb_le in H2'.
    assert (e + k < k) as Hlt.
    { apply andb_false_iff in H1. rewrite !Z.leb_gt in H1. lia. }
    set (n := Z.to_nat (e + k)).
    assert (1 ≤ n < String.length (digits (Z.pos s)))%nat as Hnk by lia.
    pose proof (take_drop n (digits (Z.pos s))) as Htd.
    pose proof (numeral_take n _ Hn) as Hnt.
    pose proof (numeral_drop n _ Hn) as Hndr.
    assert (∃ r1, take n (digits (Z.pos s)) = String c r1) as [r1 Ht1].
    { rewrite Hd. destruct n as [|n']; [lia|]. by eexists. }
    assert (∃ d r2, drop n (digits (Z.pos s)) = String d r2) as (d & r2 & Ht2).
    { destruct (drop n (digits (Z.pos s))) as [|d r2] eqn:Hdr; [|by eexists _, _].
      rewrite app_nil_r in Htd.
      pose proof (length_take n (digits (Z.pos s)) ltac:(lia)) as Hl.
      rewrite Htd in Hl. lia. }
    assert (Z.of_nat (String.length (drop n (digits (Z.pos s)))) = k - (e + k))
      as Hlen.
    { pose proof (length_take n (digits (Z.pos s)) ltac:(lia)) as Hl.
      pose proof (f_equal String.length Htd) as Hsum.
      rewrite length_app, Hl in Hsum. lia. }
    rewrite Ht1 in Hnt. rewrite Ht2 in Hndr.
    cbn [numeral] in Hnt, Hndr.
    apply andb_true_iff in Hnt as [_ Hr1].
    apply andb_true_iff in Hndr as [Hdd Hr2].
    rewrite !app_assoc. rewrite Ht1.
    rewrite natural_numeral by done.
    rewrite app_cons, app_nil_l. rewrite Ht2.
    rewrite fraction_numeral by done.
    rewrite exponent_none by done.
    rewrite <- Ht1, <- Ht2 in *.
    rewrite <- value_app by (by rewrite Ht1; cbn [numeral]; rewrite Hc, Hr1).
    rewrite Htd, Hv, Hlen. rewrite decimal_canonical by done.
    do 3 f_equal. lia. }
  destruct ((-6 <? e + k) && (e + k <=? 0)) eqn:H3.
  { (* zero, point, zeros, digits *)
    apply andb_true_iff in H3 as [_ H3]. apply Z.leb_le in H3.
    change ("0." +:+ ?t) with (String "0" (String "." t)).
    rewrite 2!app_cons. rewrite natural_zero by done.
    assert (∃ d r2, Number.zeros (- (e + k)) +:+ digits (Z.pos s) = String d r2
                    ∧ is_digit d = true ∧ numeral r2 = true)
      as (d & r2 & Hz & Hdd & Hr2).
    { pose proof (numeral_zeros (- (e + k))) as Hnz.
      destruct (Number.zeros (- (e + k))) as [|d z'] eqn:Hzz.
      - exists c, r. by rewrite app_nil_l.
      - exists d, (z' +:+ digits (Z.pos s)). rewrite app_cons.
        cbn [numeral] in Hnz. apply andb_true_iff in Hnz as [? ?].
        by rewrite numeral_app, Hn, andb_true_r. }
    rewrite Hz.
    rewrite fraction_numeral by done. rewrite exponent_none by done.
    rewrite <- Hz, value_app, value_zeros by (apply numeral_zeros || lia).
    rewrite Z.mul_0_l, Hv, length_app, Nat2Z.inj_add, length_zeros by lia.
    fold k. rewrite decimal_canonical by done. do 3 f_equal. lia. }
  (* exponent form *)
  destruct (k =? 1) eqn:H4.
  - apply Z.eqb_eq in H4. rewrite !app_assoc.
    assert (r = "") as ->.
    { subst k. rewrite Hd in H4. cbn [String.length] in H4.
      destruct r; [done|]. cbn [String.length] in H4. lia. }
    rewrite Hd. rewrite natural_numeral by done.
    rewrite app_cons, app_nil_l, fraction_exponent.
    rewrite exponent_text by done.
    rewrite <- Hd, Hv. rewrite decimal_canonical by done.
    do 3 f_equal. lia.
  - apply Z.eqb_neq in H4.
    assert (∃ d r2, r = String d r2) as (d & r2 & ->).
    { destruct r as [|d r2]; [|by eexists _, _].
      subst k. rewrite Hd in H4. by cbn [String.length] in H4. }
    rewrite Hd. cbn [take drop]. rewrite !app_assoc.
    cbn [numeral] in Hr. apply andb_true_iff in Hr as [Hdd Hr2].
    rewrite natural_numeral by done.
    rewrite app_cons, app_nil_l.
    rewrite fraction_numeral by done.
    rewrite app_cons, app_nil_l, exponent_text by done.
    assert (value (value 0 (String c "")) (String d r2) = Z.pos s) as ->.
    { rewrite <- value_app by (cbn [numeral]; by rewrite Hc).
      rewrite app_cons, app_nil_l, <- Hd. exact Hv. }
    rewrite decimal_canonical by done. do 3 f_equal.
    subst k. rewrite Hd. cbn [String.length]. lia.
Qed.

(** The text of a number that JSON represents, zero with a negative sign
    apart, is read back as the number. *)
Lemma number_text x tail :
  Number.finite x = true → Number.canonical x → x ≠ Zero true →
  stops tail →
  JSON.number (Number.to_text x +:+ tail) = Some (x, tail).
Proof.
  intros Hf Hc Hz Ht. pose proof (stops_not_digit _ Ht) as Hnd.
  destruct x as [|b|[]|[] s e]; try done; cbn [Number.to_text].
  - rewrite app_cons, app_nil_l. unfold JSON.number, JSON.unsigned.
    cbn [Ascii.eqb Bool.eqb]. cbv iota.
    rewrite natural_zero, fraction_none, exponent_none by done.
    reflexivity.
  - rewrite app_cons. unfold JSON.number. cbn [Ascii.eqb Bool.eqb]. cbv iota.
    by apply unsigned_positive_text.
  - pose proof (unsigned_positive_text false s e tail Hc Ht) as H.
    assert (∃ c r, Number.positive_text s e +:+ tail = String c r
                   ∧ Ascii.eqb c "-" = false) as (c & r & Heq & Hm);
      [|unfold JSON.number; rewrite Heq, Hm; by rewrite <- Heq].
    unfold JSON.unsigned in H.
    destruct (Number.positive_text s e +:+ tail) as [|c r]; [done|].
    exists c, r. split; [done|]. destruct (Ascii.eqb_spec c "-") as [->|]; done.
Qed.

(** The text of a finite number starts with a digit or the sign. *)
Lemma to_text_first x :
  Number.finite x = true → Number.canonical x → x ≠ Zero true →
  ∃ c r, Number.to_text x = String c r
         ∧ (is_digit c = true ∨ c = "-"%char).
Proof.
  intros Hf Hc Hz. pose proof (number_text x "" Hf Hc Hz I) as H.
  rewrite app_nil_r in H. unfold JSON.number in H.
  destruct (Number.to_text x) as [|c r]; [done|]. exists c, r. split; [done|].
  destruct (Ascii.eqb_spec c "-") as [->|_]; [by right|left].
  unfold JSON.unsigned, JSON.natural in H.
  destruct (Ascii.eqb c "0") eqn:H0; [by apply Ascii.eqb_eq in H0 as ->|].
  by destruct (is_digit c).
Qed.

(** *** Strings *)

Lemma string_body_quote_char a s :
  JSON.string_body (quote_char a +:+ s)
  = JSON.cons_char a (JSON.string_body s).
Proof. destruct a as [[][][][][][][][]]; reflexivity. Qed.

Lemma string_body_quote s rest :
  JSON.string_body (quote_body s +:+ String "034" rest) = Some (s, rest).
Proof.
  induction s as [|a s IH]; [done|].
  cbn [quote_body]. rewrite app_assoc, string_body_quote_char.
  by rewrite IH.
Qed.

Lemma quote_app s rest :
  quote s +:+ rest = String "034" (quote_body s +:+ String "034" rest).
Proof. unfold quote. by rewrite app_cons, app_assoc. Qed.

(** *** The first character of a rendering *)

Definition head_ok (s : string) : Prop :=
  match s with
  | String c _ =>
      JSON.is_ws c = false ∧ Ascii.eqb c "]" = false
      ∧ Ascii.eqb c "}" = false
  | "" => False
  end.

Lemma skip_ws_head s : head_ok s → JSON.skip_ws s = s.
Proof. destruct s as [|c s]; [done|]. simpl. by intros [-> _]. Qed.

Lemma next_head c s :
  head_ok s → c = "]"%char ∨ c = "}"%char → JSON.next c s = None.
Proof.
  destruct s as [|a s]; [done|]. simpl.
  by intros (_ & H1 & H2) [-> | ->]; rewrite ?H1, ?H2.
Qed.

Lemma digit_head c r : is_digit c = true → head_ok (String c r).
Proof. by destruct c as [[][][][][][][][]]. Qed.

Lemma positive_text_first s e :
  ∃ c r, Number.positive_text s e = String c r ∧ is_digit c = true.
Proof.
  destruct (digits_positive (Z.pos s)) as (c & r & Hd & Hc & _); [done|].
  unfold Number.positive_text. cbv zeta. rewrite Hd.
  set (k := Z.of_nat (String.length (String c r))).
  destruct ((k <=? e + k) && (e + k <=? 21));
    [rewrite app_cons; by eexists _, _|].
  destruct ((0 <? e + k) && (e + k <=? 21)) eqn:H2.
  { apply andb_true_iff in H2 as [H2 _]. apply Z.ltb_lt in H2.
    destruct (Z.to_nat (e + k)) as [|n] eqn:Hn; [lia|].
    cbn [take]. rewrite app_cons. by eexists _, _. }
  destruct ((-6 <? e + k) && (e + k <=? 0));
    [by exists "0"%char, ("." +:+ Number.zeros (- (e + k)) +:+ String c r)|].
  destruct (k =? 1); cbn [take]; rewrite app_cons; by eexists _, _.
Qed.

Lemma number_head gap indent x rest :
  head_ok (str gap indent (JNum x) +:+ rest).
Proof.
  cbn [str]. destruct x as [|b|b|[] s e]; try done; cbn [Number.finite Number.to_text].
  destruct (positive_text_first s e) as (c & r & -> & Hc).
  rewrite app_cons. by apply digit_head.
Qed.

Lemma wrap_first open close indent partial rest c :
  ∃ r, wrap (String c open) close "" indent partial +:+ rest = String c r.
Proof.
  unfold wrap. destruct partial; cbn [is_empty]; rewrite !app_cons; by eexists.
Qed.

Lemma str_head j rest : head_ok (str "" "" j +:+ rest).
Proof.
  destruct j as [|[]|x|s|l|l]; try done.
  - apply number_head.
  - cbn [str].
    match goal with
    | |- head_ok (wrap _ _ _ ?i ?p +:+ _) =>
        by destruct (wrap_first "" "]" i p rest "[") as [r ->]
    end.
  - cbn [str].
    match goal with
    | |- head_ok (wrap _ _ _ ?i ?p +:+ _) =>
        by destruct (wrap_first "" "}" i p rest "{") as [r ->]
    end.
Qed.

Lemma delimited_comma r : delimited (String "," r).
Proof. by left. Qed.
Lemma delimited_rbrack r : delimited (String "]" r).
Proof. by right; left. Qed.
Lemma delimited_rbrace r : delimited (String "}" r).
Proof. by right; right. Qed.

(** *** One step of the reader *)

Lemma value_number f c r :
  is_digit c = true ∨ c = "-"%char →
  JSON.value (S f) (String c r)
  = match JSON.number (String c r) with
    | Some (n, r') => Some (JNum n, r')
    | None => None
    end.
Proof.
  intros [H| ->]; [|reflexivity].
  destruct c as [[][][][][][][][]]; try discriminate; reflexivity.
Qed.

Lemma value_string f r :
  JSON.value (S f) (String "034" r)
  = match JSON.string_body r with
    | Some (t, r') => Some (JStr t, r')
    | None => None
    end.
Proof. reflexivity. Qed.

Lemma value_array f r :
  JSON.value (S f) (String "[" r)
  = match JSON.next "]" (JSON.skip_ws r) with
    | Some r' => Some (JArr [], r')
    | None =>
        match JSON.elements f (JSON.skip_ws r) with
        | Some (l, r') => Some (JArr l, r')
        | None => None
        end
    end.
Proof. reflexivity. Qed.

Lemma value_object f r :
  JSON.value (S f) (String "{" r)
  = match JSON.next "}" (JSON.skip_ws r) with
    | Some r' => Some (JObj [], r')
    | None =>
        match JSON.members f (JSON.skip_ws r) with
        | Some (l, r') => Some (JObj (JSON.build l), r')
        | None => None
        end
    end.
Proof. reflexivity. Qed.

Lemma elements_S f s :
  JSON.elements (S f) s
  = match JSON.value f s with
    | Some (v, r) =>
        match JSON.next "," (JSON.skip_ws r) with
        | Some r' =>
            match JSON.elements f (JSON.skip_ws r') with
            | Some (l, r'') => Some (v :: l, r'')
            | None => None
            end
        | None =>
            match JSON.next "]" (JSON.skip_ws r) with
            | Some r' => Some ([v], r')
            | None => None
            end
        end
    | None => None
    end.
Proof. reflexivity. Qed.

Lemma members_S f s :
  JSON.members (S f) s
  = match JSON.next "034" s with
    | Some r =>
        match JSON.string_body r with
        | Some (k, r) =>
            match JSON.next ":" (JSON.skip_ws r) with
            | Some r =>
                match JSON.value f (JSON.skip_ws r) with
                | Some (v, r) =>
                    match JSON.next "," (JSON.skip_ws r) with
                    | Some r' =>
                        match JSON.members f (JSON.skip_ws r') with
                        | Some (l, r'') => Some ((k, v) :: l, r'')
                        | None => None
                        end
                    | None =>
                        match JSON.next "}" (JSON.skip_ws r) with
                        | Some r' => Some ([(k, v)], r')
                        | None => None
                        end
                    end
                | None => None
                end
            | None => None
            end
        | None => None
        end
    | None => None
    end.
Proof. reflexivity. Qed.

(** *** Lists of elements and of members *)

(** What the reader does on the rendering of [x], whatever the fuel above
    the size of [x] and whatever delimited text follows. *)
Definition reads_back (x : json) : Prop :=
  ∀ n rest, (size x < n)%nat → delimited rest →
            JSON.value n (str "" "" x +:+ rest) = Some (x, rest).

Lemma join_cons sep x y l :
  join sep (x :: y :: l) = x +:+ sep +:+ join sep (y :: l).
Proof. reflexivity. Qed.

Lemma join_head (l : list json) rest :
  l ≠ [] → head_ok (join "," (map (str "" "") l) +:+ rest).
Proof.
  destruct l as [|x [|y l]]; [done|..]; intros _.
  - apply str_head.
  - cbn [map]. rewrite join_cons, app_assoc. apply str_head.
Qed.

Lemma elements_join (l : list json) :
  Forall reads_back l → l ≠ [] →
  ∀ n rest, (sizes l < n)%nat →
    JSON.elements n (join "," (map (str "" "") l) +:+ String "]" rest)
    = Some (l, rest).
Proof.
  induction l as [|x l IH]; [done|]. intros Hall _ n rest Hn.
  apply Forall_cons in Hall as [Hx Hl].
  destruct n as [|n]; [simpl in Hn; lia|]. cbn [sizes foldr] in Hn.
  fold (sizes l) in Hn. rewrite elements_S. destruct l as [|y l].
  - cbn [map join]. rewrite Hx by (lia || apply delimited_rbrack).
    reflexivity.
  - cbn [map]. rewrite join_cons, !app_assoc.
    rewrite Hx by (lia || apply delimited_comma).
    rewrite app_cons, app_nil_l.
    change (JSON.skip_ws (String "," ?r)) with (String "," r).
    cbn [JSON.next Ascii.eqb Bool.eqb].
    change (str "" "" y :: map (str "" "") l) with (map (str "" "") (y :: l)).
    rewrite skip_ws_head by by apply join_head.
    rewrite IH by (done || lia). done.
Qed.

Definition member_text (kv : string * json) : string :=
  quote kv.1 +:+ ":" +:+ str "" "" kv.2.

Lemma member_head kv rest : head_ok (member_text kv +:+ rest).
Proof. unfold member_text. by rewrite app_assoc, quote_app. Qed.

Lemma members_head (l : list (string * json)) rest :
  l ≠ [] → head_ok (join "," (map member_text l) +:+ rest).
Proof.
  destruct l as [|x [|y l]]; [done|..]; intros _.
  - apply member_head.
  - cbn [map]. rewrite join_cons, app_assoc. apply member_head.
Qed.

Lemma members_join (l : list (string * json)) :
  Forall (λ kv, reads_back kv.2) l → l ≠ [] →
  ∀ n rest, (sizes l.*2 < n)%nat →
    JSON.members n (join "," (map member_text l) +:+ String "}" rest)
    = Some (l, rest).
Proof.
  induction l as [|[k v] l IH]; [done|]. intros Hall _ n rest Hn.
  apply Forall_cons in Hall as [Hx Hl]. cbn [snd] in Hx.
  destruct n as [|n]; [simpl in Hn; lia|].
  cbn [fmap list_fmap sizes foldr snd] in Hn. fold (sizes l.*2) in Hn.
  rewrite members_S. destruct l as [|y l].
  - cbn [map join]. unfold member_text. cbn [fst snd].
    rewrite !app_assoc, quote_app. cbn [JSON.next Ascii.eqb Bool.eqb].
    rewrite string_body_quote. rewrite app_cons, app_nil_l.
    change (JSON.skip_ws (String ":" ?r)) with (String ":" r).
    cbn [JSON.next Ascii.eqb Bool.eqb].
    rewrite skip_ws_head by apply str_head.
    rewrite Hx by (lia || apply delimited_rbrace).
    reflexivity.
  - cbn [map]. rewrite join_cons, !app_assoc.
    unfold member_text at 1. cbn [fst snd].
    rewrite !app_assoc, quote_app. cbn [JSON.next Ascii.eqb Bool.eqb].
    rewrite string_body_quote. rewrite app_cons, app_nil_l.
    change (JSON.skip_ws (String ":" ?r)) with (String ":" r).
    cbn [JSON.next Ascii.eqb Bool.eqb].
    rewrite skip_ws_head by apply str_head.
    rewrite Hx by (lia || apply delimited_comma).
    rewrite app_cons, app_nil_l.
    change (JSON.skip_ws (String "," ?r)) with (String "," r).
    cbn [JSON.next Ascii.eqb Bool.eqb].
    change (member_text y :: map member_text l)
      with (map member_text (y :: l)).
    rewrite skip_ws_head by by apply members_head.
    rewrite IH by (done || (cbn [fmap list_fmap] in *; lia)). done.
Qed.

(** *** Objects with distinct names *)

Lemma define_fresh k v (l : list (string * json)) :
  k ∉ l.*1 → JSON.define k v l = l ++ [(k, v)].
Proof.
  induction l as [|[k' v'] l IH]; [done|]. cbn [fmap list_fmap fst].
  intros Hk. apply not_elem_of_cons in Hk as [Hne Hk]. cbn [JSON.define].
  destruct (String.eqb_spec k k') as [->|_]; [done|].
  by rewrite IH.
Qed.

Lemma build_from (acc l : list (string * json)) :
  NoDup (acc.*1 ++ l.*1) →
  foldl (λ l kv, JSON.define kv.1 kv.2 l) acc l = acc ++ l.
Proof.
  revert acc. induction l as [|[k v] l IH]; intros acc Hnd.
  - by rewrite List.app_nil_r.
  - cbn [foldl fst snd]. cbn [fmap list_fmap fst] in Hnd.
    apply NoDup_app in Hnd as (Ha & Hdisj & Hl).
    apply NoDup_cons in Hl as [Hk Hl].
    rewrite define_fresh.
    2:{ intros Hin. apply (Hdisj _ Hin). apply list_elem_of_here. }
    rewrite IH.
    + by rewrite <- List.app_assoc.
    + rewrite fmap_app. cbn [fmap list_fmap fst]. rewrite <- List.app_assoc.
      apply NoDup_app. split; [done|]. split; [exact Hdisj|].
      by apply NoDup_cons.
Qed.

Lemma build_distinct l : NoDup l.*1 → JSON.build l = l.
Proof. intros H. unfold JSON.build. by rewrite build_from. Qed.

(** *** Values *)

Lemma str_arr l :
  l ≠ [] →
  str "" "" (JArr l) = "[" +:+ join "," (map (str "" "") l) +:+ "]".
Proof. by destruct l. Qed.

Lemma str_obj l :
  l ≠ [] →
  str "" "" (JObj l) = "{" +:+ join "," (map member_text l) +:+ "}".
Proof.
  destruct l as [|kv l]; [done|]. intros _. cbn [str].
  rewrite (map_ext _ member_text) by by intros [k v].
  reflexivity.
Qed.

Lemma value_str j : wf j → unsigned_zeros j → reads_back j.
Proof.
  induction j as [|b|x|s|l IH|l IH] using json_ind';
    intros Hwf Hz n rest Hn Hd; (destruct n as [|n]; [simpl in Hn; lia|]).
  - reflexivity.
  - by destruct b.
  - destruct Hwf as [Hf Hc]. cbn [unsigned_zeros] in Hz.
    cbn [str]. rewrite Hf.
    destruct (to_text_first x Hf Hc Hz) as (c & r & Heq & Hd').
    rewrite Heq, app_cons, value_number by done.
    rewrite <- app_cons, <- Heq.
    by rewrite number_text by (done || by apply delimited_stops).
  - cbn [str]. by rewrite quote_app, value_string, string_body_quote.
  - destruct (decide (l = [])) as [->|Hne]; [reflexivity|].
    rewrite str_arr by done. rewrite !app_assoc, app_cons, app_nil_l.
    rewrite app_cons, app_nil_l, value_array.
    rewrite skip_ws_head by by apply join_head.
    rewrite next_head by (by apply join_head || by left).
    apply wf_arr in Hwf. apply unsigned_zeros_arr in Hz.
    rewrite size_arr in Hn.
    rewrite elements_join; [done| |done|lia].
    rewrite Forall_forall in IH, Hwf, Hz. apply Forall_forall.
    intros x Hx. by apply IH; [|apply Hwf|apply Hz].
  - destruct (decide (l = [])) as [->|Hne]; [reflexivity|].
    rewrite str_obj by done. rewrite !app_assoc, app_cons, app_nil_l.
    rewrite app_cons, app_nil_l, value_object.
    rewrite skip_ws_head by by apply members_head.
    rewrite next_head by (by apply members_head || by right).
    apply wf_obj in Hwf as [Hnd Hwf]. apply unsigned_zeros_obj in Hz.
    rewrite size_obj in Hn.
    rewrite members_join; [by rewrite build_distinct| |done|lia].
    rewrite Forall_forall in IH, Hwf, Hz. apply Forall_forall.
    intros x Hx. by apply IH; [|apply Hwf|apply Hz].
Qed.

(** *** Enough fuel *)

Lemma sizes_join {A} (f : A → string) (g : A → json) (l : list A) :
  Forall (λ x, (size (g x) ≤ String.length (f x))%nat) l →
  (sizes (map g l) ≤ String.length (join "," (map f l)) + 1)%nat.
Proof.
  induction l as [|x l IH]; [simpl; lia|]. intros [Hx Hl]%Forall_cons.
  specialize (IH Hl). cbn [map sizes foldr]. fold (sizes (map g l)).
  destruct l as [|y l]; [cbn [map join sizes foldr]; lia|].
  cbn [map]. rewrite join_cons, !length_app. cbn [map] in IH.
  simpl String.length at 2. lia.
Qed.

Lemma size_le_length j : (size j ≤ String.length (str "" "" j))%nat.
Proof.
  induction j as [|b|x|s|l IH|l IH] using json_ind'; try (simpl; lia).
  - destruct (decide (l = [])) as [->|Hne]; [simpl; lia|].
    rewrite str_arr, size_arr, !length_app by done.
    pose proof (sizes_join (str "" "") id l) as H. rewrite map_id in H.
    specialize (H IH). simpl String.length at 1 3. lia.
  - destruct (decide (l = [])) as [->|Hne]; [simpl; lia|].
    rewrite str_obj, size_obj, !length_app by done.
    pose proof (sizes_join member_text snd l) as H.
    change (map snd l) with (l.*2) in H.
    simpl String.length at 1 3.
    assert (Forall (λ x, (size x.2 ≤ String.length (member_text x))%nat) l).
    { eapply Forall_impl; [exact IH|]. intros [k v] Hv. cbn [snd] in *.
      unfold member_text. rewrite !length_app. cbn [snd]. lia. }
    specialize (H ltac:(done)). lia.
Qed.

(** Reading back the compact rendering of a value gives the value. *)
Lemma parse_str j :
  wf j → unsigned_zeros j → JSON.parse (str "" "" j) = Some j.
Proof.
  intros Hwf Hz. unfold JSON.parse.
  pose proof (str_head j "") as Hh. rewrite app_nil_r in Hh.
  rewrite skip_ws_head by done.
  pose proof (value_str j Hwf Hz (S (String.length (str "" "" j))) "") as Hv.
  rewrite app_nil_r in Hv. rewrite Hv; [done| |done].
  pose proof (size_le_length j). lia.
Qed.

End RoundTrip.

(** ** The harness in the model of the isolated context *)

Module HarnessFacts.
Import Text TextFacts MiniJS.

(** *** Lexical analysis of a text in context *)

(** The tokens emitted over a text and the state reached at its end. *)
Fixpoint scan (st : lstate) (s : string) : option (list token * lstate) :=
  match s with
  | "" => Some ([], st)
  | String c s' =>
      match step st c with
      | Some (ts, st') =>
          match scan st' s' with
          | Some (ts', st'') => Some (ts ++ ts', st'')
          | None => None
          end
      | None => None
      end
  end.

Lemma lex_from_app st a b :
  lex_from st (a +:+ b)
  = match scan st a with
    | Some (ts, st') =>
        match lex_from st' b with
        | Some ts' => Some (ts ++ ts')
        | None => None
        end
    | None => None
    end.
Proof.
  revert st. induction a as [|c a IH]; intros st.
  - rewrite app_nil_l. cbn [scan]. by destruct (lex_from st b).
  - rewrite app_cons. cbn [lex_from scan].
    destruct (step st c) as [[ts st']|]; [|done]. rewrite IH.
    destruct (scan st' a) as [[ts' st'']|]; [|done].
    destruct (lex_from st'' b); [|done]. by rewrite List.app_assoc.
Qed.

Lemma lex_from_scan st s :
  lex_from st s
  = match scan st s with
    | Some (ts, st') =>
        match flush st' with
        | Some ts' => Some (ts ++ ts')
        | None => None
        end
    | None => None
    end.
Proof.
  rewrite <- (app_nil_r s) at 1. rewrite lex_from_app.
  by destruct (scan st s) as [[ts st']|].
Qed.

(** A closing parenthesis ends whatever is pending, as the end of the
    text does. *)
Lemma lex_from_close st pending rest :
  flush st = Some pending →
  lex_from st (String ")" rest)
  = match lex_from LStart rest with
    | Some ts => Some (pending ++ TRParen :: ts)
    | None => None
    end.
Proof.
  intros Hf.
  assert (step st ")" = Some (pending ++ [TRParen], LStart)) as Hstep.
  { destruct st as [|w|n zero|q t|q t| |]; cbn [flush] in Hf;
      try discriminate.
    - by injection Hf as <-.
    - unfold step. cbn [N.leb N_of_ascii N.compare]. cbn -[word].
      destruct (word w) as [[t st]|]; [|done]. injection Hf as <-.
      by destruct st.
    - unfold step. cbn -[number_token].
      destruct (number_token n) as [t|]; [|done]. by injection Hf as <-.
    - by injection Hf as <-.
    - by injection Hf as <-. }
  cbn [lex_from]. rewrite Hstep.
  destruct (lex_from LStart rest); [|done]. by rewrite <- List.app_assoc.
Qed.

Lemma lex_in_parentheses s ts rest :
  lex s = Some ts →
  lex_from LStart (s +:+ String ")" rest)
  = match lex_from LStart rest with
    | Some ts' => Some (ts ++ TRParen :: ts')
    | None => None
    end.
Proof.
  unfold lex. rewrite lex_from_scan, lex_from_app.
  destruct (scan LStart s) as [[ts0 st]|]; [|done].
  destruct (flush st) as [pending|] eqn:Hf; [|done].
  intros [= <-]. rewrite (lex_from_close _ _ _ Hf).
  destruct (lex_from LStart rest); [|done]. by rewrite <- List.app_assoc.
Qed.

(** The tokens of the harness around the source text. *)
Definition before : list token :=
  [TLParen; TFunction; TLParen; TRParen; TLBrace;
   TIdent "console"; TDot; TIdent "log"; TLParen; TLParen].

Definition between : list token :=
  [TRParen; TRParen; TSemi; TReturn; TTypeof; TFunction; TLParen; TRParen;
   TLBrace; TReturn; TLParen].

Definition after : list token :=
  [TRParen; TSemi; TRBrace; TLParen; TRParen; TSemi; TRBrace; TRParen;
   TLParen; TRParen; TSemi].

Lemma lex_harness s ts :
  lex s = Some ts →
  lex (harness s) = Some (before ++ ts ++ between ++ ts ++ after).
Proof.
  intros Hs. unfold harness, lex.
  rewrite lex_from_app.
  change (scan LStart "(function() { console.log((")
    with (Some (before, LStart)).
  cbv beta iota.
  change (")); return typeof function() { return (" +:+ s +:+ ");}();})();")
    with (String ")" ("); return typeof function() { return ("
                      +:+ s +:+ String ")" ";}();})();")).
  rewrite (lex_in_parentheses _ _ _ Hs).
  rewrite lex_from_app.
  change (scan LStart "); return typeof function() { return (")
    with (Some (tail between, LStart)).
  cbv beta iota.
  rewrite (lex_in_parentheses _ _ _ Hs).
  change (lex_from LStart ";}();})();") with (Some (tail after)).
  reflexivity.
Qed.

(** *** One step of the parser *)

Lemma p_expr_S n ts :
  p_expr (S n) ts
  = match ts with
    | TIdent x :: TAssign :: ts' => map_fst (EAssign x) (p_expr n ts')
    | _ => p_unary n ts
    end.
Proof. reflexivity. Qed.

Lemma p_unary_S n ts :
  p_unary (S n) ts
  = match ts with
    | TTypeof :: ts' => map_fst ETypeof (p_unary n ts')
    | _ =>
        match p_primary n ts with
        | Some (e, ts') => p_postfix n e ts'
        | None => None
        end
    end.
Proof. reflexivity. Qed.

Lemma p_postfix_S n e ts :
  p_postfix (S n) e ts
  = match ts with
    | TDot :: TIdent x :: ts' => p_postfix n (EMember e x) ts'
    | TDot :: _ => None
    | TLParen :: TRParen :: ts' => p_postfix n (ECall e []) ts'
    | TLParen :: ts' =>
        match expect is_rparen (p_exprs n ts') with
        | Some (args, ts'') => p_postfix n (ECall e args) ts''
        | None => None
        end
    | _ => Some (e, ts)
    end.
Proof. reflexivity. Qed.

Lemma p_primary_S n ts :
  p_primary (S n) ts
  = match ts with
    | TNum z :: ts' => Some (ENum z, ts')
    | TStr s :: ts' => Some (EStr s, ts')
    | TNull :: ts' => Some (ENull, ts')
    | TTrue :: ts' => Some (EBool true, ts')
    | TFalse :: ts' => Some (EBool false, ts')
    | TIdent x :: ts' => Some (EIdent x, ts')
    | TLParen :: ts' => expect is_rparen (p_expr n ts')
    | TLBrack :: TRBrack :: ts' => Some (EArr [], ts')
    | TLBrack :: ts' => map_fst EArr (expect is_rbrack (p_exprs n ts'))
    | TLBrace :: TRBrace :: ts' => Some (EObj [], ts')
    | TLBrace :: ts' => map_fst EObj (expect is_rbrace (p_props n ts'))
    | TFunction :: TLParen :: TRParen :: TLBrace :: TStr _ :: _ => None
    | TFunction :: TLParen :: TRParen :: TLBrace :: ts' =>
        map_fst EFun (p_body n ts')
    | _ => None
    end.
Proof. reflexivity. Qed.

Lemma p_exprs_S n ts :
  p_exprs (S n) ts
  = match p_expr n ts with
    | Some (e, TComma :: ts') => map_fst (cons e) (p_exprs n ts')
    | Some (e, ts') => Some ([e], ts')
    | None => None
    end.
Proof. reflexivity. Qed.

Lemma p_props_S n ts :
  p_props (S n) ts
  = match ts with
    | TIdent k :: TColon :: ts' | TStr k :: TColon :: ts' =>
        match p_expr n ts' with
        | Some (e, TComma :: ts'') => map_fst (cons (k, e)) (p_props n ts'')
        | Some (e, ts'') => Some ([(k, e)], ts'')
        | None => None
        end
    | _ => None
    end.
Proof. reflexivity. Qed.

Lemma p_body_S n ts :
  p_body (S n) ts
  = match ts with
    | TRBrace :: ts' => Some ([], ts')
    | TLBrace :: _ | TFunction :: _ => None
    | TReturn :: ts' =>
        match expect is_semi (p_expr n ts') with
        | Some (e, ts'') => map_fst (cons (SReturn e)) (p_body n ts'')
        | None => None
        end
    | _ =>
        match expect is_semi (p_expr n ts) with
        | Some (e, ts'') => map_fst (cons (SExpr e)) (p_body n ts'')
        | None => None
        end
    end.
Proof. reflexivity. Qed.

Lemma p_program_S n ts :
  p_program (S n) ts
  = match ts with
    | [] => Some []
    | TLBrace :: _ | TFunction :: _ | TReturn :: _ => None
    | _ =>
        match expect is_semi (p_expr n ts) with
        | Some (e, ts') =>
            match p_program n ts' with
            | Some es => Some (e :: es)
            | None => None
            end
        | None => None
        end
    end.
Proof. reflexivity. Qed.

(** *** More fuel *)

(** The parsers give at [S n] what they give at [n]. *)
Definition grows (n : nat) : Prop :=
  (∀ ts r, p_expr n ts = Some r → p_expr (S n) ts = Some r)
  ∧ (∀ ts r, p_unary n ts = Some r → p_unary (S n) ts = Some r)
  ∧ (∀ e ts r, p_postfix n e ts = Some r → p_postfix (S n) e ts = Some r)
  ∧ (∀ ts r, p_primary n ts = Some r → p_primary (S n) ts = Some r)
  ∧ (∀ ts r, p_exprs n ts = Some r → p_exprs (S n) ts = Some r)
  ∧ (∀ ts r, p_props n ts = Some r → p_props (S n) ts = Some r)
  ∧ (∀ ts r, p_body n ts = Some r → p_body (S n) ts = Some r).

Lemma p_primary_nil n : p_primary n [] = None.
Proof. by destruct n. Qed.
Lemma p_unary_nil n : p_unary n [] = None.
Proof. destruct n; [done|]. by rewrite p_unary_S, p_primary_nil. Qed.
Lemma p_expr_nil n : p_expr n [] = None.
Proof. destruct n; [done|]. by rewrite p_expr_S, p_unary_nil. Qed.
Lemma p_exprs_nil n : p_exprs n [] = None.
Proof. destruct n; [done|]. by rewrite p_exprs_S, p_expr_nil. Qed.
Lemma p_props_nil n : p_props n [] = None.
Proof. by destruct n. Qed.
Lemma p_body_nil n : p_body n [] = None.
Proof. destruct n; [done|]. by rewrite p_body_S, p_expr_nil. Qed.

(** Case analysis on the tokens that the hypothesis [H] inspects. *)
Ltac split_on H :=
  match type of H with
  | context [match ?l with [] => _ | _ :: _ => _ end] => is_var l; destruct l
  | context [match ?t with
             | TLParen => _ | TRParen => _ | TLBrace => _ | TRBrace => _
             | TLBrack => _ | TRBrack => _ | TComma => _ | TColon => _
             | TSemi => _ | TDot => _ | TAssign => _ | TFunction => _
             | TReturn => _ | TTypeof => _ | TNull => _ | TTrue => _
             | TFalse => _ | TIdent _ => _ | TNum _ => _ | TStr _ => _
             end] => is_var t; destruct t
  end; cbn [app] in H |- *;
  rewrite ?p_exprs_nil, ?p_expr_nil, ?p_props_nil, ?p_body_nil in H;
  cbv beta iota in H |- *; try discriminate H.

(** Case analysis on the result of a parser called in [H]; [lift]
    carries the equation over to the goal. *)
Ltac call_on H lift :=
  match type of H with
  | context [match ?c with Some _ => _ | None => _ end] =>
      lazymatch c with
      | p_expr _ _ => idtac | p_unary _ _ => idtac | p_primary _ _ => idtac
      | p_exprs _ _ => idtac | p_props _ _ => idtac | p_body _ _ => idtac
      end;
      let E := fresh "E" in
      destruct c as [[? ?]|] eqn:E; [lift E|]; cbv beta iota in H |- *;
      try discriminate H
  end.

Ltac crunch H lift :=
  unfold map_fst, expect, is_rparen, is_rbrack, is_rbrace, is_semi in H |- *;
  repeat first [split_on H | call_on H lift];
  try (injection H; intros; subst); try reflexivity.

Lemma grows_all n : grows n.
Proof.
  induction n as [|n IH].
  - repeat split; intros; discriminate.
  - destruct IH as (IHe & IHu & IHpo & IHpr & IHes & IHps & IHb).
    repeat split.
    all: intros *; intros H.
    all: first [rewrite p_expr_S in H; rewrite (p_expr_S (S n))
               |rewrite p_unary_S in H; rewrite (p_unary_S (S n))
               |rewrite p_postfix_S in H; rewrite (p_postfix_S (S n))
               |rewrite p_primary_S in H; rewrite (p_primary_S (S n))
               |rewrite p_exprs_S in H; rewrite (p_exprs_S (S n))
               |rewrite p_props_S in H; rewrite (p_props_S (S n))
               |rewrite p_body_S in H; rewrite (p_body_S (S n))].
    all: crunch H ltac:(fun E =>
           first [apply IHe in E|apply IHu in E|apply IHpr in E
                 |apply IHes in E|apply IHps in E|apply IHb in E];
           rewrite E; clear E).
    all: first [by apply IHe|by apply IHu|by apply IHpo].
Qed.

Lemma grows_le n m :
  (n ≤ m)%nat → ∀ ts r, p_expr n ts = Some r → p_expr m ts = Some r.
Proof.
  induction 1 as [|m Hle IH]; [done|]. intros ts r H.
  by apply (grows_all m), IH.
Qed.

(** *** A closing parenthesis after the text *)

(** What a parser gives on a text it also gives when a closing
    parenthesis and more follow, leaving these unread. *)
Definition extends (n : nat) : Prop :=
  (∀ ts e r rest, p_expr n ts = Some (e, r) →
     p_expr n (ts ++ TRParen :: rest) = Some (e, r ++ TRParen :: rest))
  ∧ (∀ ts e r rest, p_unary n ts = Some (e, r) →
     p_unary n (ts ++ TRParen :: rest) = Some (e, r ++ TRParen :: rest))
  ∧ (∀ e0 ts e r rest, p_postfix n e0 ts = Some (e, r) →
     p_postfix n e0 (ts ++ TRParen :: rest) = Some (e, r ++ TRParen :: rest))
  ∧ (∀ ts e r rest, p_primary n ts = Some (e, r) →
     p_primary n (ts ++ TRParen :: rest) = Some (e, r ++ TRParen :: rest))
  ∧ (∀ ts e r rest, p_exprs n ts = Some (e, r) →
     p_exprs n (ts ++ TRParen :: rest) = Some (e, r ++ TRParen :: rest))
  ∧ (∀ ts e r rest, p_props n ts = Some (e, r) →
     p_props n (ts ++ TRParen :: rest) = Some (e, r ++ TRParen :: rest))
  ∧ (∀ ts e r rest, p_body n ts = Some (e, r) →
     p_body n (ts ++ TRParen :: rest) = Some (e, r ++ TRParen :: rest)).

Lemma extends_all n : extends n.
Proof.
  induction n as [|n IH].
  - repeat split; intros; discriminate.
  - destruct IH as (IHe & IHu & IHpo & IHpr & IHes & IHps & IHb).
    repeat split.
    all: intros *; intros H.
    all: first [rewrite p_expr_S in H; rewrite p_expr_S
               |rewrite p_unary_S in H; rewrite p_unary_S
               |rewrite p_postfix_S in H; rewrite p_postfix_S
               |rewrite p_primary_S in H; rewrite p_primary_S
               |rewrite p_exprs_S in H; rewrite p_exprs_S
               |rewrite p_props_S in H; rewrite p_props_S
               |rewrite p_body_S in H; rewrite p_body_S].
    all: crunch H ltac:(fun E =>
           first [apply (IHe _ _ _ rest) in E|apply (IHu _ _ _ rest) in E
                 |apply (IHpr _ _ _ rest) in E|apply (IHes _ _ _ rest) in E
                 |apply (IHps _ _ _ rest) in E|apply (IHb _ _ _ rest) in E];
           cbn [app] in E; rewrite E; clear E).
    all: first [exact (IHe _ _ _ rest H)
               |exact (IHu _ _ _ rest H)
               |exact (IHpo _ _ _ _ rest H)].
Qed.

(** *** The harness as a program *)

(** The program that the harness is, around the expression [e]. *)
Definition harness_ast (e : expr) : expr :=
  ECall
    (EFun [SExpr (ECall (EMember (EIdent "console") "log") [e]);
           SReturn (ETypeof (ECall (EFun [SReturn e]) []))])
    [].

Lemma parse_harness_tokens ts e f k :
  p_expr f ts = Some (e, []) → (f ≤ k)%nat →
  p_program (25 + k) (before ++ ts ++ between ++ ts ++ after)
  = Some [harness_ast e].
Proof.
  intros He Hk.
  assert (∀ n rest, (f ≤ n)%nat →
            p_expr n (ts ++ TRParen :: rest) = Some (e, TRParen :: rest)) as Px.
  { intros n rest Hn. apply (grows_le f n Hn).
    destruct (extends_all f) as [Hext _]. exact (Hext _ _ _ rest He). }
  unfold before, between, after. cbn [app Nat.add].
  repeat (first [rewrite Px by lia
                |rewrite p_program_S|rewrite p_expr_S|rewrite p_unary_S
                |rewrite p_postfix_S|rewrite p_primary_S|rewrite p_exprs_S
                |rewrite p_props_S|rewrite p_body_S];
          cbv beta iota;
          cbn [expect map_fst is_rparen is_rbrack is_rbrace is_semi]).
  reflexivity.
Qed.

Lemma parse_program_harness s e :
  parse_expression s = Some e →
  parse_program (harness s) = Some [harness_ast e].
Proof.
  unfold parse_expression, parse_program.
  destruct (lex s) as [ts|] eqn:Hlex; [|done].
  destruct (p_expr _ ts) as [[e' [|]]|] eqn:He; try done. intros [= ->].
  rewrite (lex_harness _ _ Hlex).
  change (before ++ ts ++ between ++ ts ++ after)
    with (TLParen :: (tail before ++ ts ++ between ++ ts ++ after)) at 1.
  cbv iota.
  replace (fuel_for (length (before ++ ts ++ between ++ ts ++ after)))
    with (25 + (10 * length ts + 140))%nat.
  - apply (parse_harness_tokens _ _ _ _ He). unfold fuel_for. lia.
  - unfold fuel_for. rewrite !length_app. simpl. lia.
Qed.

(** *** Identifiers *)

Fixpoint all_ident (s : string) : bool :=
  match s with
  | "" => true
  | String c s' => is_ident_part c && all_ident s'
  end.

Definition is_keyword (w : string) : bool :=
  String.eqb w "function" || String.eqb w "return" || String.eqb w "typeof"
  || String.eqb w "null" || String.eqb w "true" || String.eqb w "false"
  || bool_decide (w ∈ reserved).

(** A text that is one identifier: a letter, [$] or [_], followed by
    letters, digits, [$] and [_], and not a reserved word. *)
Definition identifier (s : string) : bool :=
  match s with
  | String c r => is_ident_start c && all_ident r && negb (is_keyword s)
  | "" => false
  end.

Lemma word_identifier w : is_keyword w = false → word w = Some (TIdent w, LStart).
Proof.
  unfold is_keyword, word. intros H.
  repeat (apply orb_false_iff in H as [H ?]). by repeat case_match.
Qed.

Lemma step_start_ident c :
  is_ident_start c = true → step LStart c = Some ([], LWord (String c "")).
Proof. destruct c as [[][][][][][][][]]; try discriminate; reflexivity. Qed.

Lemma step_word_ident w c :
  is_ident_part c = true →
  step (LWord w) c = Some ([], LWord (w +:+ String c "")).
Proof.
  intros H. unfold step. rewrite H.
  by destruct c as [[][][][][][][][]].
Qed.

Lemma scan_word w r :
  all_ident r = true → scan (LWord w) r = Some ([], LWord (w +:+ r)).
Proof.
  revert w. induction r as [|c r IH]; intros w.
  - by rewrite app_nil_r.
  - cbn [all_ident scan]. intros [Hc Hr]%andb_true_iff.
    rewrite (step_word_ident _ _ Hc), (IH _ Hr), app_assoc. done.
Qed.

Lemma lex_identifier s : identifier s = true → lex s = Some [TIdent s].
Proof.
  destruct s as [|c r]; [done|]. unfold identifier.
  intros [[Hc Hr]%andb_true_iff Hk%negb_true_iff]%andb_true_iff.
  unfold lex. cbn [lex_from]. rewrite (step_start_ident _ Hc).
  rewrite lex_from_scan, (scan_word _ _ Hr). cbn [flush].
  change (String c "" +:+ r) with (String c r).
  by rewrite (word_identifier _ Hk).
Qed.

Lemma parse_expression_identifier s :
  identifier s = true → parse_expression s = Some (EIdent s).
Proof. intros H. unfold parse_expression. by rewrite (lex_identifier _ H). Qed.

Lemma ident_part_plain c : is_ident_part c = true → plain c = true.
Proof. by destruct c as [[][][][][][][][]]. Qed.

Lemma all_ident_plain s : all_ident s = true → all_plain s = true.
Proof.
  induction s as [|c s IH]; [done|]. cbn [all_ident all_plain].
  intros [Hc Hs]%andb_true_iff. by rewrite (ident_part_plain _ Hc), IH.
Qed.

Lemma identifier_plain s : identifier s = true → all_plain s = true.
Proof.
  destruct s as [|c r]; [done|]. unfold identifier.
  intros [[Hc Hr]%andb_true_iff _]%andb_true_iff. cbn [all_plain].
  rewrite (all_ident_plain _ Hr), ident_part_plain; [done|].
  unfold is_ident_part. by rewrite Hc.
Qed.

Lemma all_plain_app s t : all_plain (s +:+ t) = all_plain s && all_plain t.
Proof.
  induction s as [|c s IH]; [done|]. rewrite app_cons. cbn [all_plain].
  by rewrite IH, andb_assoc.
Qed.

(** The length of the harness. *)
Lemma harness_length s :
  String.length (harness s) = (77 + 2 * String.length s)%nat.
Proof.
  unfold harness. rewrite !RoundTrip.length_app. simpl. lia.
Qed.

(** *** Running the harness *)

Section Running.

Variable bound : string → bool.

Local Abbreviation eval := (eval bound).
Local Abbreviation eval_list := (eval_list bound).
Local Abbreviation exec := (exec bound).

Lemma eval_call_fun n body args σ :
  eval (S n) (ECall (EFun body) args) σ
  = match eval_list n args σ with
    | (Done _, σ1) => exec n body σ1
    | (RefError x, σ1) => (RefError x, σ1)
    | (Exhausted, σ1) => (Exhausted, σ1)
    | (Unmodelled, σ1) => (Unmodelled, σ1)
    end.
Proof. reflexivity. Qed.

Lemma eval_call_member n e name args σ :
  eval (S n) (ECall (EMember e name) args) σ
  = match eval n (EMember e name) σ with
    | (Done fv, σ1) =>
        if is_log fv then
          match eval_list n args σ1 with
          | (Done [], σ2) => (Done Undef, log JNull σ2)
          | (Done [v], σ2) => (Done Undef, log (to_json_element v) σ2)
          | (Done _, σ2) => (Unmodelled, σ2)
          | (RefError x, σ2) => (RefError x, σ2)
          | (Exhausted, σ2) => (Exhausted, σ2)
          | (Unmodelled, σ2) => (Unmodelled, σ2)
          end
        else (Unmodelled, σ1)
    | r => r
    end.
Proof. reflexivity. Qed.

Lemma eval_ident n x σ :
  eval (S n) (EIdent x) σ
  = match globals σ !! x with
    | Some v => (Done v, σ)
    | None => if engine bound x then (Unmodelled, σ) else (RefError x, σ)
    end.
Proof. reflexivity. Qed.

Lemma eval_member n e name σ :
  eval (S n) (EMember e name) σ
  = match eval n e σ with
    | (Done (Obj props), σ') =>
        match own name props with
        | Some v => (Done v, σ')
        | None => (Unmodelled, σ')
        end
    | (Done _, σ') => (Unmodelled, σ')
    | r => r
    end.
Proof. reflexivity. Qed.

Lemma eval_typeof_call n f args σ :
  eval (S n) (ETypeof (ECall f args)) σ
  = match eval n (ECall f args) σ with
    | (Done v, σ') => (Done (Str (typeof_val v)), σ')
    | r => r
    end.
Proof. reflexivity. Qed.

Lemma eval_list_nil n σ : eval_list (S n) [] σ = (Done [], σ).
Proof. reflexivity. Qed.

Lemma eval_list_cons n e es σ :
  eval_list (S n) (e :: es) σ
  = match eval n e σ with
    | (Done v, σ1) =>
        match eval_list n es σ1 with
        | (Done vs, σ2) => (Done (v :: vs), σ2)
        | r => r
        end
    | (RefError x, σ1) => (RefError x, σ1)
    | (Exhausted, σ1) => (Exhausted, σ1)
    | (Unmodelled, σ1) => (Unmodelled, σ1)
    end.
Proof. reflexivity. Qed.

Lemma exec_expr n e body σ :
  exec (S n) (SExpr e :: body) σ
  = match eval n e σ with
    | (Done _, σ1) => exec n body σ1
    | r => r
    end.
Proof. reflexivity. Qed.

Lemma exec_return n e body σ :
  exec (S n) (SReturn e :: body) σ = eval n e σ.
Proof. reflexivity. Qed.

Ltac step_eval :=
  repeat (first [rewrite eval_call_fun|rewrite eval_call_member
                |rewrite eval_member
                |rewrite eval_typeof_call|rewrite eval_list_nil
                |rewrite eval_list_cons|rewrite exec_expr
                |rewrite exec_return|rewrite eval_ident];
          cbv beta iota).

(** What running the harness around [e] amounts to: [e] is evaluated
    and its value logged; then [e] is evaluated again, in the state
    that the first evaluation left, and the type name of this second
    value is the result. *)
Definition twice (t : nat) (e : expr) (σ : state) : outcome val * state :=
  match eval (2 + t) e σ with
  | (Done v1, σ1) =>
      match eval t e (log (to_json_element v1) σ1) with
      | (Done v2, σ2) => (Done (Str (typeof_val v2)), σ2)
      | r => r
      end
  | r => r
  end.

Lemma eval_harness t e σ :
  globals σ !! "console" = Some (Obj [("log", Native "log")]) →
  eval (6 + t) (harness_ast e) σ = twice t e σ.
Proof.
  intros Hc. unfold harness_ast, twice. cbn [Nat.add].
  step_eval. rewrite Hc. cbv beta iota.
  cbn [own is_log String.eqb Ascii.eqb Bool.eqb]. cbv beta iota. step_eval.
  destruct (eval (S (S t)) e σ) as [[v1|x| |] σ1]; cbv beta iota;
    [|reflexivity..].
  step_eval.
  destruct (eval t e (log (to_json_element v1) σ1)) as [[v2|x| |] σ2];
    reflexivity.
Qed.

(** *** Evaluation only adds to what is logged *)

Definition appends (σ σ' : state) : Prop :=
  ∃ more, logged σ' = logged σ ++ more.

Lemma appends_refl σ : appends σ σ.
Proof. exists []. by rewrite List.app_nil_r. Qed.

Lemma appends_trans σ1 σ2 σ3 :
  appends σ1 σ2 → appends σ2 σ3 → appends σ1 σ3.
Proof.
  intros [m1 H1] [m2 H2]. exists (m1 ++ m2).
  by rewrite H2, H1, List.app_assoc.
Qed.

Lemma appends_log σ σ' j : appends σ σ' → appends σ (log j σ').
Proof.
  intros H. apply (appends_trans _ _ _ H). by exists [j].
Qed.

Lemma appends_bind σ σ' x v :
  appends σ σ' → appends σ (State (<[x := v]> (globals σ')) (logged σ')).
Proof. intros [m H]. by exists m. Qed.

Lemma eval_S n e σ :
  eval (S n) e σ
  = match e with
    | ENum z => (Done (Num z), σ)
    | EStr s => (Done (Str s), σ)
    | ENull => (Done Null, σ)
    | EBool b => (Done (Bool b), σ)
    | EIdent x =>
        match globals σ !! x with
        | Some v => (Done v, σ)
        | None =>
            if engine bound x then (Unmodelled, σ) else (RefError x, σ)
        end
    | EObj props =>
        match eval_props bound n props [] σ with
        | (Done l, σ') => (Done (Obj l), σ')
        | (RefError x, σ') => (RefError x, σ')
        | (Exhausted, σ') => (Exhausted, σ')
        | (Unmodelled, σ') => (Unmodelled, σ')
        end
    | EArr elems =>
        match eval_list n elems σ with
        | (Done l, σ') => (Done (Arr l), σ')
        | (RefError x, σ') => (RefError x, σ')
        | (Exhausted, σ') => (Exhausted, σ')
        | (Unmodelled, σ') => (Unmodelled, σ')
        end
    | EFun body => (Done (Fun body), σ)
    | ETypeof (EIdent x) =>
        match globals σ !! x with
        | Some v => (Done (Str (typeof_val v)), σ)
        | None =>
            if engine bound x then (Unmodelled, σ)
            else (Done (Str "undefined"), σ)
        end
    | ETypeof e' =>
        match eval n e' σ with
        | (Done v, σ') => (Done (Str (typeof_val v)), σ')
        | r => r
        end
    | EAssign x e' =>
        if engine bound x then (Unmodelled, σ)
        else
          match eval n e' σ with
          | (Done v, σ') =>
              (Done v, State (<[x := v]> (globals σ')) (logged σ'))
          | r => r
          end
    | EMember e' name =>
        match eval n e' σ with
        | (Done (Obj props), σ') =>
            match own name props with
            | Some v => (Done v, σ')
            | None => (Unmodelled, σ')
            end
        | (Done _, σ') => (Unmodelled, σ')
        | r => r
        end
    | ECall (EFun body) args =>
        match eval_list n args σ with
        | (Done _, σ1) => exec n body σ1
        | (RefError x, σ1) => (RefError x, σ1)
        | (Exhausted, σ1) => (Exhausted, σ1)
        | (Unmodelled, σ1) => (Unmodelled, σ1)
        end
    | ECall f args =>
        match eval n f σ with
        | (Done fv, σ1) =>
            if is_log fv then
              match eval_list n args σ1 with
              | (Done [], σ2) => (Done Undef, log JNull σ2)
              | (Done [v], σ2) => (Done Undef, log (to_json_element v) σ2)
              | (Done _, σ2) => (Unmodelled, σ2)
              | (RefError x, σ2) => (RefError x, σ2)
              | (Exhausted, σ2) => (Exhausted, σ2)
              | (Unmodelled, σ2) => (Unmodelled, σ2)
              end
            else (Unmodelled, σ1)
        | r => r
        end
    end.
Proof. reflexivity. Qed.

Lemma eval_props_S n ps acc σ :
  eval_props bound (S n) ps acc σ
  = match ps with
    | [] => (Done acc, σ)
    | (k, e) :: ps' =>
        if special_name k then (Unmodelled, σ)
        else
          match eval n e σ with
          | (Done v, σ1) => eval_props bound n ps' (define k v acc) σ1
          | (RefError x, σ1) => (RefError x, σ1)
          | (Exhausted, σ1) => (Exhausted, σ1)
          | (Unmodelled, σ1) => (Unmodelled, σ1)
          end
    end.
Proof. reflexivity. Qed.

Lemma exec_S n body σ :
  exec (S n) body σ
  = match body with
    | [] => (Done Undef, σ)
    | SReturn e :: _ => eval n e σ
    | SExpr e :: body' =>
        match eval n e σ with
        | (Done _, σ1) => exec n body' σ1
        | r => r
        end
    end.
Proof. reflexivity. Qed.

Lemma eval_list_S n es σ :
  eval_list (S n) es σ
  = match es with
    | [] => (Done [], σ)
    | e :: es' =>
        match eval n e σ with
        | (Done v, σ1) =>
            match eval_list n es' σ1 with
            | (Done vs, σ2) => (Done (v :: vs), σ2)
            | r => r
            end
        | (RefError x, σ1) => (RefError x, σ1)
        | (Exhausted, σ1) => (Exhausted, σ1)
        | (Unmodelled, σ1) => (Unmodelled, σ1)
        end
    end.
Proof. reflexivity. Qed.

Ltac run_on IHe IHl IHp IHx :=
  repeat match goal with
  | |- context [match eval ?n ?e ?s with _ => _ end] =>
      let H := fresh "H" in
      pose proof (IHe e s) as H;
      destruct (eval n e s) as [[?|?| |] ?]; cbn [snd] in H
  | |- context [match eval_list ?n ?e ?s with _ => _ end] =>
      let H := fresh "H" in
      pose proof (IHl e s) as H;
      destruct (eval_list n e s) as [[?|?| |] ?]; cbn [snd] in H
  | |- context [match eval_props bound ?n ?e ?a ?s with _ => _ end] =>
      let H := fresh "H" in
      pose proof (IHp e a s) as H;
      destruct (eval_props bound n e a s) as [[?|?| |] ?]; cbn [snd] in H
  | |- context [if ?b then _ else _] => destruct b
  | |- context [match ?x with _ => _ end] => is_var x; destruct x
  | |- context [match ?x with _ => _ end] => destruct x eqn:?
  end;
  cbn [snd];
  eauto using appends_refl, appends_trans, appends_log, appends_bind.

Lemma eval_appends n :
  (∀ e σ, appends σ (eval n e σ).2)
  ∧ (∀ es σ, appends σ (eval_list n es σ).2)
  ∧ (∀ ps acc σ, appends σ (eval_props bound n ps acc σ).2)
  ∧ (∀ body σ, appends σ (exec n body σ).2).
Proof.
  induction n as [|n (IHe & IHl & IHp & IHx)].
  - repeat split; intros; apply appends_refl.
  - repeat split.
    + intros e σ. rewrite eval_S. run_on IHe IHl IHp IHx.
    + intros es σ. rewrite eval_list_S. run_on IHe IHl IHp IHx.
    + intros ps acc σ. rewrite eval_props_S. run_on IHe IHl IHp IHx.
    + intros body σ. rewrite exec_S. run_on IHe IHl IHp IHx.
Qed.

(** The report of two evaluations that both give a value. *)
Lemma twice_done t e σ v1 σ1 v2 σ2 :
  eval (2 + t) e σ = (Done v1, σ1) →
  eval t e (log (to_json_element v1) σ1) = (Done v2, σ2) →
  twice t e σ = (Done (Str (typeof_val v2)), σ2)
  ∧ ∃ later, logged σ2 = logged σ1 ++ to_json_element v1 :: later.
Proof.
  intros H1 H2. unfold twice. rewrite H1, H2. split; [done|].
  destruct (eval_appends t) as [He _].
  destruct (He e (log (to_json_element v1) σ1)) as [later Hl].
  rewrite H2 in Hl. cbn [snd] in Hl. exists later. rewrite Hl. cbn [log logged].
  by rewrite <- List.app_assoc.
Qed.

Lemma typeof_plain v :
  inspect (Str (typeof_val v)) = Some ("'" +:+ typeof_val v +:+ "'").
Proof. by destruct v. Qed.

Lemma initial_console :
  globals initial !! "console" = Some (Obj [("log", Native "log")]).
Proof. apply lookup_singleton_eq. Qed.

(** The report of the sandbox for the harness around a text that is an
    expression of the fragment. *)
Lemma run_harness s e t :
  parse_expression s = Some e →
  (String.length (harness s) ≤ 6 + t)%nat →
  run bound (6 + t) (harness s) = report (twice t e initial).
Proof.
  intros Hs Hlen. unfold run.
  destruct (Nat.ltb_spec (6 + t) (String.length (harness s))); [lia|].
  rewrite (parse_program_harness _ _ Hs).
  cbn [run_program]. rewrite eval_harness by apply initial_console.
  by destruct (twice t e initial) as [[v|x| |] σ].
Qed.

(** The report for the harness around an identifier that is not
    bound. *)
Lemma run_unbound s t :
  identifier s = true → s ≠ "console" → engine bound s = false →
  (String.length (harness s) ≤ 6 + t)%nat →
  run bound (6 + t) (harness s)
  = Some (MkInfo ("'ReferenceError: " +:+ s +:+ " is not defined'") []).
Proof.
  intros Hs Hne Hb Hlen.
  rewrite (run_harness _ _ _ (parse_expression_identifier _ Hs) Hlen).
  unfold twice. cbn [Nat.add]. rewrite eval_ident. unfold initial at 1.
  cbn [globals]. rewrite lookup_singleton_ne by done. rewrite Hb.
  cbn [report]. unfold inspect_text.
  rewrite !all_plain_app, (identifier_plain _ Hs). cbn [all_plain andb].
  change (all_plain "ReferenceError: ") with true.
  change (all_plain " is not defined") with true. cbn [andb].
  do 2 f_equal. rewrite !app_assoc. reflexivity.
Qed.

End Running.

End HarnessFacts.

(** ** Reading back indented output *)

Module Indented.
Import Text TextFacts Stringify.

(** A text of JSON white space. *)
Fixpoint blank (s : string) : bool :=
  match s with
  | "" => true
  | String a s' => JSON.is_ws a && blank s'
  end.

(** What may follow a value inside an indented text: a comma, or the
    line feed before the closing bracket. *)
Definition ends (s : string) : Prop :=
  match s with
  | "" => True
  | String c _ => c = ","%char ∨ c = "010"%char
  end.

(** A member of an object in an indented text. *)
Definition member (gap inner : string) (kv : string * json) : string :=
  quote kv.1 +:+ ": " +:+ str gap inner kv.2.

(** What the reader does on the indented rendering of [x], at any depth. *)
Definition reads_back (gap : string) (x : json) : Prop :=
  ∀ n indent rest, (size x < n)%nat → blank indent = true → ends rest →
    JSON.value n (str gap indent x +:+ rest) = Some (x, rest).

(** *** White space *)

Lemma blank_app s t : blank (s +:+ t) = blank s && blank t.
Proof.
  induction s as [|a s IH]; [done|].
  rewrite app_cons. simpl. by rewrite IH, andb_assoc.
Qed.

Lemma blank_spaces n : blank (repeat_char " " n) = true.
Proof. induction n as [|n IH]; [done|]. simpl. exact IH. Qed.

Lemma skip_ws_blank s t :
  blank s = true → JSON.skip_ws (s +:+ t) = JSON.skip_ws t.
Proof.
  induction s as [|a s IH]; [done|]. cbn [blank].
  intros [Ha Hs]%andb_true_iff. rewrite app_cons. cbn [JSON.skip_ws].
  rewrite Ha. by apply IH.
Qed.

Lemma skip_ws_line s t :
  blank s = true → RoundTrip.head_ok t →
  JSON.skip_ws (newline +:+ s +:+ t) = t.
Proof.
  intros Hs Ht. unfold newline. rewrite app_cons, app_nil_l.
  cbn [JSON.skip_ws JSON.is_ws]. rewrite skip_ws_blank by done.
  by apply RoundTrip.skip_ws_head.
Qed.

Lemma skip_ws_close s c t :
  blank s = true → JSON.is_ws c = false →
  JSON.skip_ws (newline +:+ s +:+ String c t) = String c t.
Proof.
  intros Hs Hc. unfold newline. rewrite app_cons, app_nil_l.
  cbn [JSON.skip_ws JSON.is_ws]. rewrite skip_ws_blank by done.
  simpl. by rewrite Hc.
Qed.

Lemma ends_stops s : ends s → RoundTrip.stops s.
Proof. destruct s as [|c s]; [done|]. by intros [-> | ->]. Qed.

Lemma ends_comma r : ends (String "," r).
Proof. by left. Qed.

Lemma ends_line r : ends (newline +:+ r).
Proof. by right. Qed.

(** *** The first character of a rendering *)

Lemma wrap_head open close gap indent partial rest c :
  ∃ r, wrap (String c open) close gap indent partial +:+ rest = String c r.
Proof.
  unfold wrap. destruct partial; [|destruct (is_empty gap)];
    rewrite !app_cons; by eexists.
Qed.

Lemma str_head_gap gap indent j rest :
  RoundTrip.head_ok (str gap indent j +:+ rest).
Proof.
  destruct j as [|[]|x|s|l|l]; try done.
  - apply RoundTrip.number_head.
  - cbn [str].
    match goal with
    | |- RoundTrip.head_ok (wrap _ _ ?g ?i ?p +:+ _) =>
        by destruct (wrap_head "" "]" g i p rest "[") as [r ->]
    end.
  - cbn [str].
    match goal with
    | |- RoundTrip.head_ok (wrap _ _ ?g ?i ?p +:+ _) =>
        by destruct (wrap_head "" "}" g i p rest "{") as [r ->]
    end.
Qed.

Lemma join_head_gap sep gap inner (l : list json) rest :
  l ≠ [] → RoundTrip.head_ok (join sep (map (str gap inner) l) +:+ rest).
Proof.
  destruct l as [|x [|y l]]; [done|..]; intros _.
  - apply str_head_gap.
  - cbn [map]. rewrite RoundTrip.join_cons, app_assoc. apply str_head_gap.
Qed.

Lemma member_head_gap gap inner kv rest :
  RoundTrip.head_ok (member gap inner kv +:+ rest).
Proof. unfold member. by rewrite app_assoc, RoundTrip.quote_app. Qed.

Lemma members_head_gap sep gap inner (l : list (string * json)) rest :
  l ≠ [] → RoundTrip.head_ok (join sep (map (member gap inner) l) +:+ rest).
Proof.
  destruct l as [|x [|y l]]; [done|..]; intros _.
  - apply member_head_gap.
  - cbn [map]. rewrite RoundTrip.join_cons, app_assoc. apply member_head_gap.
Qed.

(** *** Lists of elements and of members *)

Lemma elements_lines gap indent inner (l : list json) :
  Forall (reads_back gap) l → l ≠ [] →
  blank indent = true → blank inner = true →
  ∀ n rest, (sizes l < n)%nat →
    JSON.elements n
      (join ("," +:+ newline +:+ inner) (map (str gap inner) l)
         +:+ newline +:+ indent +:+ "]" +:+ rest)
    = Some (l, rest).
Proof.
  intros Hall Hne Hi Hin. induction l as [|x l IH]; [done|].
  intros n rest Hn. apply Forall_cons in Hall as [Hx Hl].
  destruct n as [|n]; [simpl in Hn; lia|]. cbn [sizes foldr] in Hn.
  fold (sizes l) in Hn. rewrite RoundTrip.elements_S. destruct l as [|y l].
  - cbn [map join]. rewrite Hx by (lia || done || apply ends_line).
    change ("]" +:+ rest) with (String "]" rest).
    rewrite skip_ws_close by done. reflexivity.
  - cbn [map]. rewrite RoundTrip.join_cons, !app_assoc.
    rewrite app_cons, app_nil_l.
    rewrite Hx by (lia || done || apply ends_comma).
    change (JSON.skip_ws (String "," ?r)) with (String "," r).
    cbn [JSON.next Ascii.eqb Bool.eqb].
    change (str gap inner y :: map (str gap inner) l)
      with (map (str gap inner) (y :: l)).
    rewrite skip_ws_line by (done || by apply join_head_gap).
    rewrite IH by (done || lia). done.
Qed.

Lemma members_lines gap indent inner (l : list (string * json)) :
  Forall (λ kv, reads_back gap kv.2) l → l ≠ [] →
  blank indent = true → blank inner = true →
  ∀ n rest, (sizes l.*2 < n)%nat →
    JSON.members n
      (join ("," +:+ newline +:+ inner) (map (member gap inner) l)
         +:+ newline +:+ indent +:+ "}" +:+ rest)
    = Some (l, rest).
Proof.
  intros Hall Hne Hi Hin. induction l as [|[k v] l IH]; [done|].
  intros n rest Hn. apply Forall_cons in Hall as [Hx Hl]. cbn [snd] in Hx.
  destruct n as [|n]; [simpl in Hn; lia|].
  cbn [fmap list_fmap sizes foldr snd] in Hn. fold (sizes l.*2) in Hn.
  rewrite RoundTrip.members_S. destruct l as [|y l].
  - cbn [map join]. unfold member. cbn [fst snd].
    rewrite !app_assoc, RoundTrip.quote_app.
    cbn [JSON.next Ascii.eqb Bool.eqb].
    rewrite RoundTrip.string_body_quote. rewrite !app_cons, app_nil_l.
    change (JSON.skip_ws (String ":" ?r)) with (String ":" r).
    cbn [JSON.next Ascii.eqb Bool.eqb].
    cbn [JSON.skip_ws JSON.is_ws].
    rewrite RoundTrip.skip_ws_head by apply str_head_gap.
    rewrite Hx by (lia || done || apply ends_line).
    change ("}" +:+ rest) with (String "}" rest).
    rewrite skip_ws_close by done. reflexivity.
  - cbn [map]. rewrite RoundTrip.join_cons, !app_assoc.
    unfold member at 1. cbn [fst snd].
    rewrite !app_assoc, RoundTrip.quote_app.
    cbn [JSON.next Ascii.eqb Bool.eqb].
    rewrite RoundTrip.string_body_quote. rewrite !app_cons, !app_nil_l.
    change (JSON.skip_ws (String ":" ?r)) with (String ":" r).
    cbn [JSON.next Ascii.eqb Bool.eqb].
    cbn [JSON.skip_ws JSON.is_ws].
    rewrite RoundTrip.skip_ws_head by apply str_head_gap.
    rewrite Hx by (lia || done || apply ends_comma).
    change (JSON.skip_ws (String "," ?r)) with (String "," r).
    cbn [JSON.next Ascii.eqb Bool.eqb].
    change (member gap inner y :: map (member gap inner) l)
      with (map (member gap inner) (y :: l)).
    rewrite skip_ws_line by (done || by apply members_head_gap).
    change (String "," (newline +:+ inner)) with ("," +:+ newline +:+ inner).
    change (String "}" rest) with ("}" +:+ rest).
    rewrite IH by (done || (cbn [fmap list_fmap] in *; lia)). done.
Qed.

(** *** Values *)

Lemma str_arr_gap gap indent l :
  is_empty gap = false → l ≠ [] →
  str gap indent (JArr l)
  = "[" +:+ newline +:+ (indent +:+ gap)
      +:+ join ("," +:+ newline +:+ (indent +:+ gap))
            (map (str gap (indent +:+ gap)) l)
      +:+ newline +:+ indent +:+ "]".
Proof. intros Hg Hl. destruct l; [done|]. cbn [str]. unfold wrap. by rewrite Hg. Qed.

Lemma str_obj_gap gap indent l :
  is_empty gap = false → l ≠ [] →
  str gap indent (JObj l)
  = "{" +:+ newline +:+ (indent +:+ gap)
      +:+ join ("," +:+ newline +:+ (indent +:+ gap))
            (map (member gap (indent +:+ gap)) l)
      +:+ newline +:+ indent +:+ "}".
Proof.
  intros Hg Hl. destruct l as [|kv l]; [done|]. cbn [str].
  rewrite (map_ext _ (member gap (indent +:+ gap))).
  - unfold wrap. by rewrite Hg.
  - intros [k v]. unfold member. by rewrite Hg.
Qed.

Lemma value_str_gap gap j :
  is_empty gap = false → blank gap = true →
  wf j → unsigned_zeros j → reads_back gap j.
Proof.
  intros Hg Hb.
  induction j as [|b|x|s|l IH|l IH] using json_ind';
    intros Hwf Hz n indent rest Hn Hi Hd;
    (destruct n as [|n]; [simpl in Hn; lia|]).
  - reflexivity.
  - by destruct b.
  - destruct Hwf as [Hf Hc]. cbn [unsigned_zeros] in Hz.
    cbn [str]. rewrite Hf.
    destruct (RoundTrip.to_text_first x Hf Hc Hz) as (c & r & Heq & Hd').
    rewrite Heq, app_cons, RoundTrip.value_number by done.
    rewrite <- app_cons, <- Heq.
    by rewrite RoundTrip.number_text by (done || by apply ends_stops).
  - cbn [str].
    by rewrite RoundTrip.quote_app, RoundTrip.value_string,
      RoundTrip.string_body_quote.
  - destruct (decide (l = [])) as [->|Hne]; [reflexivity|].
    assert (blank (indent +:+ gap) = true) as Hin
      by by rewrite blank_app, Hi, Hb.
    rewrite str_arr_gap by done. remember (indent +:+ gap) as inner eqn:Hinner.
    clear Hinner. rewrite !app_assoc, app_cons, app_nil_l.
    rewrite RoundTrip.value_array.
    rewrite skip_ws_line by (done || by apply join_head_gap).
    rewrite RoundTrip.next_head by (by apply join_head_gap || by left).
    apply wf_arr in Hwf. apply unsigned_zeros_arr in Hz.
    rewrite size_arr in Hn.
    rewrite elements_lines; [done| |done..|lia].
    rewrite Forall_forall in IH, Hwf, Hz. apply Forall_forall.
    intros x Hx. by apply IH; [|apply Hwf|apply Hz].
  - destruct (decide (l = [])) as [->|Hne]; [reflexivity|].
    assert (blank (indent +:+ gap) = true) as Hin
      by by rewrite blank_app, Hi, Hb.
    rewrite str_obj_gap by done. remember (indent +:+ gap) as inner eqn:Hinner.
    clear Hinner. rewrite !app_assoc, app_cons, app_nil_l.
    rewrite RoundTrip.value_object.
    rewrite skip_ws_line by (done || by apply members_head_gap).
    rewrite RoundTrip.next_head by (by apply members_head_gap || by right).
    apply wf_obj in Hwf as [Hnd Hwf]. apply unsigned_zeros_obj in Hz.
    rewrite size_obj in Hn.
    rewrite members_lines; [by rewrite RoundTrip.build_distinct| |done..|lia].
    rewrite Forall_forall in IH, Hwf, Hz. apply Forall_forall.
    intros x Hx. by apply IH; [|apply Hwf|apply Hz].
Qed.

(** *** Enough fuel *)

Lemma sizes_join_sep {A} sep (f : A → string) (g : A → json) (l : list A) :
  (1 ≤ String.length sep)%nat →
  Forall (λ x, (size (g x) ≤ String.length (f x))%nat) l →
  (sizes (map g l) ≤ String.length (join sep (map f l)) + 1)%nat.
Proof.
  intros Hsep. induction l as [|x l IH]; [simpl; lia|].
  intros [Hx Hl]%Forall_cons.
  specialize (IH Hl). cbn [map sizes foldr]. fold (sizes (map g l)).
  destruct l as [|y l]; [cbn [map join sizes foldr]; lia|].
  cbn [map]. rewrite RoundTrip.join_cons, !RoundTrip.length_app.
  cbn [map] in IH. lia.
Qed.

Lemma size_le_length_gap gap j :
  is_empty gap = false →
  ∀ indent, (size j ≤ String.length (str gap indent j))%nat.
Proof.
  intros Hg.
  induction j as [|b|z|s|l IH|l IH] using json_ind'; intros indent;
    try (simpl; lia).
  - destruct (decide (l = [])) as [->|Hne]; [simpl; lia|].
    rewrite str_arr_gap, size_arr, !RoundTrip.length_app by done.
    pose proof (sizes_join_sep ("," +:+ newline +:+ (indent +:+ gap))
                  (str gap (indent +:+ gap)) id l) as H.
    rewrite map_id in H.
    assert (Forall (λ x, (size (id x)
              ≤ String.length (str gap (indent +:+ gap) x))%nat) l) as Hall.
    { eapply Forall_impl; [exact IH|]. intros x Hx. apply Hx. }
    specialize (H ltac:(simpl; lia) Hall).
    change (String.length newline) with 1%nat. simpl String.length at 1. lia.
  - destruct (decide (l = [])) as [->|Hne]; [simpl; lia|].
    rewrite str_obj_gap, size_obj, !RoundTrip.length_app by done.
    pose proof (sizes_join_sep ("," +:+ newline +:+ (indent +:+ gap))
                  (member gap (indent +:+ gap)) snd l) as H.
    change (map snd l) with (l.*2) in H.
    assert (Forall (λ x, (size x.2
              ≤ String.length (member gap (indent +:+ gap) x))%nat) l) as Hall.
    { eapply Forall_impl; [exact IH|]. intros [k v] Hv. cbn [snd] in *.
      unfold member. rewrite !RoundTrip.length_app. cbn [snd].
      specialize (Hv (indent +:+ gap)). lia. }
    specialize (H ltac:(simpl; lia) Hall).
    change (String.length newline) with 1%nat. simpl String.length at 1. lia.
Qed.

(** Reading back the rendering of a value, indented or not, gives the
    value. *)
Lemma parse_str_gap gap j :
  blank gap = true → wf j → unsigned_zeros j →
  JSON.parse (str gap "" j) = Some j.
Proof.
  intros Hb Hwf Hz. destruct (is_empty gap) eqn:Hg.
  { destruct gap; [|done]. by apply RoundTrip.parse_str. }
  unfold JSON.parse.
  pose proof (str_head_gap gap "" j "") as Hh. rewrite app_nil_r in Hh.
  rewrite RoundTrip.skip_ws_head by done.
  pose proof (value_str_gap gap j Hg Hb Hwf Hz
                (S (String.length (str gap "" j))) "" "") as Hv.
  rewrite app_nil_r in Hv. rewrite Hv; [done| |done..].
  pose proof (size_le_length_gap gap j Hg ""). lia.
Qed.

End Indented.

(** * The claims *)

Section Claims.

Variable sandbox_run : string → Info.
Variable isTTY : bool.
Variable highlight : option string → value → string + string.
Variable chalk : style → string → string.
Variable writeFileSync : value → option string → option error.
Variable stdout_write : option string → option error.

Local Abbreviation j2j := (j2j sandbox_run isTTY highlight chalk).
Local Abbreviation parse := (parse sandbox_run chalk).
Local Abbreviation output := (output isTTY highlight chalk).
Local Abbreviation write :=
  (write sandbox_run isTTY highlight chalk writeFileSync stdout_write).

(** ** Empty input *)

(** C4.  Called with the empty string, [j2j] throws the error
    "input parameter cannot be empty" at once: the world is left as it
    was, so no options record has been built or merged and nothing has
    been handed to the sandbox. *)
Theorem j2j_empty_input (opts : arg) (w : world) :
  j2j (JStr "") opts w = (Throw empty_input, w).
Proof. reflexivity. Qed.

(** ** String and non-string input *)

(** The record [{indent: false}] at the first heap address. *)
Definition indent_false_world : world :=
  World {[ 1%positive := {[ "indent" := VData (JBool false) ]} ]} [].

(** C1.  The documented call [j2j("{foo: 'bar', baz: 2}", {indent:
    false})]: the branch on [typeof input === 'string'] hands the text to
    [output] as it is, so the promise is fulfilled with the text as a JSON
    string literal and the trace shows no sandbox run; an object given as
    input is what goes through [parse], which pastes its string
    conversion into the harness. *)
Theorem j2j_string_is_not_evaluated :
  j2j (JStr "{foo: 'bar', baz: 2}") (Record_ 1%positive) indent_false_world
  = (Normal (Fulfilled (Some (Text.lit "`{foo: 'bar', baz: 2}`"))),
     World {[ 1%positive := merge {[ "indent" := VData (JBool false) ]} ]} [])
  ∧ ∃ c w', j2j (JObj [("foo", JStr "bar")]) (Record_ 1%positive) indent_false_world
            = (c, w')
            ∧ trace w' !! 0%nat = Some (SandboxRun (harness "[object Object]")).
Proof.
  split.
  - destruct isTTY; vm_compute; reflexivity.
  - assert (heap indent_false_world !! 1%positive
            = Some {[ "indent" := VData (JBool false) ]}) as H0 by done.
    rewrite (j2j_spec _ _ _ _ _ _ _ _ H0).
    cbn [truthy negb typeof String.eqb Ascii.eqb Bool.eqb].
    unfold after_parse.
    replace (parse_events chalk _ _)
      with [SandboxRun (harness "[object Object]")] by done.
    destruct (classify _ _) as [[v|e]| | |]; by eexists _, _.
Qed.

(** ** Classification of the sandbox report *)

(** With debug mode off, [parse] fulfils with the first logged value when
    the reported type name is one of the three accepted ones, and rejects
    with the message that names the reported text otherwise. *)
Lemma parse_classifies s l w o :
  heap w !! l = Some o →
  truthy (prop (merge o) "debug") = false →
  let info := sandbox_run (harness (to_string s)) in
  (parse s (Record_ l) w).1
  = if bool_decide (result info ∈ accepted)
    then Normal (Fulfilled (first (console info)))
    else Normal (Rejected
           (Reason ("input evaluated to " +:+ result info
                    +:+ ", which is no good."))).
Proof.
  intros Hl Hd. rewrite (parse_spec _ _ _ _ _ _ Hl). cbn [fst].
  unfold classify. by rewrite Hd.
Qed.

(** C2.  With debug mode on, a report whose type name is not accepted
    does not lead to a rejection: the debug line of the callback calls
    [info], which there is the report and not the styling helper, and the
    resulting [TypeError] leaves the callback before [dfrd.reject] is
    reached. *)
Theorem parse_debug_rejection_escapes s l w o :
  heap w !! l = Some o →
  truthy (prop (merge o) "debug") = true →
  result (sandbox_run (harness (to_string s))) ∉ accepted →
  (parse s (Record_ l) w).1 = Uncaught (NotCallable "info").
Proof.
  intros Hl Hd Hr. rewrite (parse_spec _ _ _ _ _ _ Hl). cbn [fst].
  unfold classify. rewrite Hd. by rewrite bool_decide_eq_false_2.
Qed.

(** ** The options merge *)

(** The heap after [write] and after [j2j] is the heap after the merge. *)
Lemma write_heap input l callback w o :
  heap w !! l = Some o →
  heap (write input (Record_ l) callback w).2 = <[l := merge o]> (heap w).
Proof.
  intros Hl. rewrite (write_spec _ _ _ _ _ _ _ _ _ _ _ Hl). cbv zeta.
  destruct (classify _ _) as [[v|e]| | |]; try done.
  unfold deliver_text. by destruct (truthy _).
Qed.

Lemma j2j_heap input l w o :
  heap w !! l = Some o →
  heap (j2j input (Record_ l) w).2
  = if truthy input then <[l := merge o]> (heap w) else heap w.
Proof.
  intros Hl. rewrite (j2j_spec _ _ _ _ _ _ _ _ Hl).
  destruct (truthy input); cbn [negb]; [|done]. cbv zeta.
  destruct (String.eqb _ _); [done|]. unfold after_parse.
  by destruct (classify _ _) as [[v|e]| | |].
Qed.

(** C3, as amended.  [options] works on the caller's record itself: it
    returns the reference it was given, and of that record it changes
    exactly the keys of the defaults table that were [undefined]; no
    other record is touched.  After that merge nothing changes the
    record: the heap at the end of [write] and of [j2j] is the heap right
    after the merge. *)
Theorem options_merges_in_place l w o :
  heap w !! l = Some o →
  options (Record_ l) w
  = (Normal l, World (<[l := merge o]> (heap w)) (trace w))
  ∧ (∀ k v, o !! k = Some v → v ≠ VUndefined → merge o !! k = Some v)
  ∧ (∀ k, k ∉ default_options.*1 → merge o !! k = o !! k)
  ∧ (∀ input callback,
       heap (write input (Record_ l) callback w).2
       = heap (options (Record_ l) w).2)
  ∧ (∀ input, truthy input = true →
       heap (j2j input (Record_ l) w).2 = heap (options (Record_ l) w).2).
Proof.
  intros Hl. rewrite (options_record _ _ _ Hl). cbn [snd heap].
  split; [done|]. split; [|split; [|split]].
  - intros k v Hk Hv. rewrite merge_lookup, Hk. by destruct v.
  - intros k Hk. rewrite merge_lookup.
    rewrite (not_elem_of_list_to_map_1 _ _ Hk). by destruct (is_undefined _).
  - intros. by apply write_heap.
  - intros input Hi. rewrite (j2j_heap _ _ _ _ Hl). by rewrite Hi.
Qed.

(** ** Explicit options *)

(** C5, as amended.  A field that the caller supplied with a value
    other than [undefined] keeps that value in the merged record, falsy
    or not, and a field of the defaults table that the caller left out
    takes its default.  In particular the record [{indent: false}] keeps
    [indent = false], and [output] with it returns the compact text: for
    the object [{foo: 'bar', baz: 2}] the text [{"foo":"bar","baz":2}],
    and for every value a text without decoration that [JSON.parse]
    reads back as the value and that holds no white space other than
    what the texts of the value contain. *)
Theorem options_explicit_fields_win l w o :
  heap w !! l = Some o →
  let w' := (options (Record_ l) w).2 in
  (∀ k v, o !! k = Some v → v ≠ VUndefined → record_at w' l !! k = Some v)
  ∧ (∀ k d, (k, d) ∈ default_options → prop o k = VUndefined →
            record_at w' l !! k = Some d)
  ∧ (o = {[ "indent" := VData (JBool false) ]} →
     record_at w' l !! "indent" = Some (VData (JBool false))
     ∧ output (VData foo_bar_baz) (Record_ l) w'
       = (Normal (Some (Text.lit "{`foo`:`bar`,`baz`:2}")), w')
     ∧ ∀ j, ∃ text,
         output (VData j) (Record_ l) w' = (Normal (Some text), w')
         ∧ (wf j → unsigned_zeros j → JSON.parse text = Some j)
         ∧ ∀ c, is_white c = true → Text.mem c text = true →
                ∃ t, t ∈ texts j ∧ Text.mem c t = true).
Proof.
  intros Hl. rewrite (options_record _ _ _ Hl). cbn [snd].
  unfold record_at. cbn [heap]. rewrite lookup_insert_eq.
  cbn [default from_option id]. split; [|split].
  - intros k v Hk Hv. rewrite merge_lookup, Hk. by destruct v.
  - intros k d Hk Hu. rewrite merge_lookup. unfold prop in Hu. rewrite Hu.
    cbn [is_undefined].
    by rewrite (elem_of_list_to_map_1 _ _ _ default_options_NoDup Hk).
  - intros ->.
    assert (∀ j, output (VData j) (Record_ l)
                   (World (<[l := merge {[ "indent" := VData (JBool false) ]}]>
                             (heap w)) (trace w))
                 = (Normal (Some (Stringify.str "" "" j)),
                    World (<[l := merge {[ "indent" := VData (JBool false) ]}]>
                             (heap w)) (trace w))) as Hout.
    { intros j.
      rewrite (output_merged _ _ _ _ _ _
                 (merge {[ "indent" := VData (JBool false) ]}))
        by (apply lookup_insert_eq || apply merge_idempotent).
      unfold render, decorates.
      replace (prop (merge {[ "indent" := VData (JBool false) ]}) "no-color")
        with (VData (JBool true)) by done.
      replace (prop (merge {[ "indent" := VData (JBool false) ]}) "indent")
        with (VData (JBool false)) by done.
      cbn [truthy negb]. rewrite andb_false_r. cbn [andb fst snd].
      by rewrite app_nil_r. }
    split; [done|]. split; [by rewrite Hout|].
    intros j. exists (Stringify.str "" "" j). split; [apply Hout|]. split.
    + apply RoundTrip.parse_str.
    + intros c. apply CompactFacts.compact_white.
Qed.

(** ** Failures in [write] *)

(** On a record of the caller. *)
Lemma write_failure_on_record input l callback w o :
  heap w !! l = Some o →
  truthy (prop (merge o) "debug") = false →
  result (sandbox_run (harness (to_string input))) ∉ accepted →
  let r := write input (Record_ l) callback w in
  trace r.2
  = trace w ++
    [SandboxRun (harness (to_string input));
     ConsoleError
       (chalk StyleError
          "Error: cannot coerce input into anything JSON.stringify() can handle")]
  ∧ r.1 = (if callback then Normal (Fulfilled ()) else Exit 1).
Proof.
  intros Hl Hd Hr. cbv zeta.
  rewrite (write_spec _ _ _ _ _ _ _ _ _ _ _ Hl). cbv zeta.
  unfold classify, parse_events. rewrite Hd.
  rewrite bool_decide_eq_false_2 by done.
  unfold report_failure. cbn [fst snd heap trace].
  split; [|by destruct callback].
  by rewrite app_nil_r, <- app_assoc.
Qed.


(** ** The round trip *)

(** C7, as amended.  For a value [j] that JSON represents (finite
    numbers, the names of every object distinct) and that holds no
    negative zero, [output] with the record [{indent: 0}] returns a text,
    and reading that text back with [JSON.parse] gives [j]. *)
Theorem compact_round_trip j l w :
  wf j → unsigned_zeros j →
  heap w !! l = Some {[ "indent" := VData (JNum 0) ]} →
  ∃ text, (output (VData j) (Record_ l) w).1 = Normal (Some text)
          ∧ JSON.parse text = Some j.
Proof.
  intros Hwf Hz Hl. exists (Stringify.str "" "" j). split.
  - rewrite (output_spec _ _ _ _ _ _ _ Hl). cbn [fst].
    unfold render, decorates.
    replace (prop (merge {[ "indent" := VData (JNum 0) ]}) "no-color")
      with (VData (JBool true)) by done.
    replace (prop (merge {[ "indent" := VData (JNum 0) ]}) "indent")
      with (VData (JNum 0)) by done.
    cbn [truthy negb]. by rewrite andb_false_r.
  - by apply RoundTrip.parse_str.
Qed.

(** ** The harness in the isolated context *)

Section Sandbox.

(** The sandbox is one that the model describes. *)
Variable fuel : nat.
Variable bound : string → bool.
Hypothesis sandbox_agrees : agrees sandbox_run fuel bound.

(** C6.  With a sandbox that the model describes and a budget that
    covers the harness, [parse] on the text [{foo: 'bar', baz: 2}]
    fulfils with the object that the literal denotes, and [output]
    with [indent = 0] renders that object as
    [{"foo":"bar","baz":2}]. *)
Theorem literal_evaluates_and_serializes l w :
  (117 ≤ fuel)%nat →
  heap w !! l = Some {[ "indent" := VData (JNum 0) ]} →
  ∃ w1,
    parse (JStr "{foo: 'bar', baz: 2}") (Record_ l) w
    = (Normal (Fulfilled (VData foo_bar_baz)), w1)
    ∧ (output (VData foo_bar_baz) (Record_ l) w1).1
      = Normal (Some (Text.lit "{`foo`:`bar`,`baz`:2}")).
Proof.
  intros Ht Hl.
  assert (sandbox_run (harness "{foo: 'bar', baz: 2}")
          = MkInfo "'object'" [foo_bar_baz]) as Hrun.
  { apply sandbox_agrees.
    replace fuel with (6 + (4 + (fuel - 10)))%nat by lia.
    rewrite (HarnessFacts.run_harness _ _
               (MiniJS.EObj [("foo", MiniJS.EStr "bar");
                             ("baz", MiniJS.ENum 2)]));
      [done|done|].
    rewrite HarnessFacts.harness_length. simpl String.length. lia. }
  rewrite (parse_spec _ _ _ _ _ _ Hl). cbn [to_string json_to_string].
  rewrite Hrun. eexists. split; [reflexivity|].
  rewrite (output_merged _ _ _ _ _ _
             (merge {[ "indent" := VData (JNum 0) ]}))
    by (apply lookup_insert_eq || apply merge_idempotent).
  cbn [fst]. unfold render, decorates.
  replace (prop (merge {[ "indent" := VData (JNum 0) ]}) "no-color")
    with (VData (JBool true)) by done.
  replace (prop (merge {[ "indent" := VData (JNum 0) ]}) "indent")
    with (VData (JNum 0)) by done.
  cbn [truthy negb]. by rewrite andb_false_r.
Qed.



End Sandbox.

End Claims.

(** ** Instances *)

(** A styling that leaves the text as it is, a highlighter that always
    fails, and writes that always succeed. *)
Definition no_style : style → string → string := λ _ text, text.
Definition no_highlight : option string → value → string + string :=
  λ _ _, inr "".
Definition write_ok : value → option string → option error := λ _ _, None.
Definition stdout_ok : option string → option error := λ _, None.

(** A sandbox that reports the type name [undefined] for any code. *)
Definition undefined_sandbox : string → Info :=
  λ _, MkInfo "'undefined'" [JNull].

Definition debug_world : world :=
  World {[ 1%positive := {[ "debug" := VData (JBool true) ]} ]} [].

Definition empty_record_world : world := World {[ 1%positive := ∅ ]} [].

Lemma parse_debug_rejection_escapes_witness :
  (parse undefined_sandbox no_style (JStr "undefined") (Record_ 1%positive)
     debug_world).1
  = Uncaught (NotCallable "info").
Proof.
  apply (parse_debug_rejection_escapes undefined_sandbox no_style
           (JStr "undefined") 1%positive debug_world
           {[ "debug" := VData (JBool true) ]}).
  - reflexivity.
  - reflexivity.
  - apply (bool_decide_unpack _). vm_compute. exact I.
Defined.

(** C3, as stated, fails: after [options] the empty record that the caller
    passed holds the four defaults. *)
Lemma options_changes_the_callers_record :
  heap empty_record_world !! 1%positive = Some ∅
  ∧ options (Record_ 1%positive) empty_record_world
    = (Normal 1%positive,
       World {[ 1%positive := list_to_map default_options ]} [])
  ∧ (list_to_map default_options : gmap string value) ≠ ∅.
Proof.
  split; [reflexivity|]. split; [vm_compute; reflexivity|].
  intros H. by apply (f_equal (λ m, m !! "debug")) in H.
Qed.

Lemma options_merges_in_place_witness :
  options (Record_ 1%positive) indent_false_world
  = (Normal 1%positive,
     World (<[1%positive := merge {[ "indent" := VData (JBool false) ]}]>
              (heap indent_false_world))
       (trace indent_false_world))
  ∧ heap (j2j undefined_sandbox false no_highlight no_style
            (JNum 5) (Record_ 1%positive) indent_false_world).2
    = heap (options (Record_ 1%positive) indent_false_world).2.
Proof.
  destruct (options_merges_in_place undefined_sandbox false no_highlight
              no_style write_ok stdout_ok 1%positive indent_false_world
              {[ "indent" := VData (JBool false) ]} eq_refl)
    as (H1 & _ & _ & _ & H5).
  split; [exact H1|]. apply H5. reflexivity.
Defined.

(** The record [{indent: undefined}]. *)
Definition indent_undefined_world : world :=
  World {[ 1%positive := {[ "indent" := VUndefined ]} ]} [].

(** C5, as stated, fails: a field that the caller supplied as [undefined],
    a falsy value, does not override the default. *)
Lemma options_undefined_field_takes_default :
  record_at indent_undefined_world 1%positive !! "indent" = Some VUndefined
  ∧ truthy VUndefined = false
  ∧ record_at (options (Record_ 1%positive) indent_undefined_world).2
      1%positive !! "indent"
    = Some (VData (JNum 2)).
Proof. repeat split; vm_compute; reflexivity. Qed.

Lemma options_explicit_fields_win_witness :
  record_at (options (Record_ 1%positive) indent_false_world).2 1%positive
    !! "indent"
  = Some (VData (JBool false))
  ∧ output true no_highlight no_style (VData foo_bar_baz) (Record_ 1%positive)
      (options (Record_ 1%positive) indent_false_world).2
    = (Normal (Some (Text.lit "{`foo`:`bar`,`baz`:2}")),
       (options (Record_ 1%positive) indent_false_world).2).
Proof.
  destruct (options_explicit_fields_win true no_highlight no_style
              1%positive indent_false_world
              {[ "indent" := VData (JBool false) ]} eq_refl)
    as (_ & _ & H3).
  destruct (H3 eq_refl) as (H4 & H5 & _). split; [exact H4|exact H5].
Defined.



(** With a callback in the place of the options and none as third
    argument the process exits as well, although the documentation of
    [write] takes such a callback for the callback. *)
Example write_callback_in_place_of_options :
  (write undefined_sandbox false no_highlight no_style write_ok stdout_ok
     (JStr "undefined") Callback false (World ∅ [])).1
  = Exit 1.
Proof. vm_compute. reflexivity. Qed.

Definition zero_indent_world : world :=
  World {[ 1%positive := {[ "indent" := VData (JNum 0) ]} ]} [].

(** A value with nesting, numbers with a sign, a fraction and an exponent,
    and characters that the serializer escapes. *)
Definition sample_value : json :=
  JObj [("a b", JArr [JNum (-12); JNull; JStr (String "010" (String "034" "x"));
                      JNum (Decimal false 5 (-1)); JNum (Decimal true 1 21)]);
        ("c", JObj [("d", JBool true)])].

Lemma compact_round_trip_witness :
  ∃ text,
    (output true no_highlight no_style (VData sample_value)
       (Record_ 1%positive) zero_indent_world).1
    = Normal (Some text)
    ∧ JSON.parse text = Some sample_value.
Proof.
  apply (compact_round_trip true no_highlight no_style sample_value
           1%positive zero_indent_world).
  - simpl. repeat split; try done;
      apply (bool_decide_unpack _); vm_compute; exact I.
  - simpl. repeat split; discriminate.
  - reflexivity.
Defined.

(** C7, as stated, fails: JSON represents the negative zero (as [-0]), the
    text that [output] returns for it is [0], and that is read back as the
    zero without the sign. *)
Lemma negative_zero_loses_its_sign :
  JSON.parse "-0" = Some (JNum (Zero true))
  ∧ wf (JNum (Zero true))
  ∧ (output true no_highlight no_style (VData (JNum (Zero true)))
       (Record_ 1%positive) zero_indent_world).1
    = Normal (Some "0")
  ∧ JSON.parse "0" = Some (JNum (Zero false))
  ∧ JNum (Zero false) ≠ JNum (Zero true).
Proof. repeat split; try discriminate; vm_compute; reflexivity. Qed.

(** An engine that binds the standard names and no others. *)
Definition no_names : string → bool := λ _, false.

(** The model is a sandbox that agrees with itself. *)
Lemma model_agrees fuel bound : agrees (model_sandbox fuel bound) fuel bound.
Proof. intros code info H. unfold model_sandbox. by rewrite H. Qed.

Lemma literal_evaluates_and_serializes_witness :
  ∃ w1,
    parse (model_sandbox 117 no_names) no_style (JStr "{foo: 'bar', baz: 2}")
      (Record_ 1%positive) zero_indent_world
    = (Normal (Fulfilled (VData foo_bar_baz)), w1)
    ∧ (output false no_highlight no_style (VData foo_bar_baz)
         (Record_ 1%positive) w1).1
      = Normal (Some (Text.lit "{`foo`:`bar`,`baz`:2}")).
Proof.
  apply (literal_evaluates_and_serializes (model_sandbox 117 no_names) false
           no_highlight no_style 117 no_names).
  - intros code info H. unfold model_sandbox. rewrite H. reflexivity.
  - lia.
  - reflexivity.
Defined.



(** A text whose two evaluations differ: the first gives the object that
    [console] holds at the start, the second the number that the first has
    put in its place. *)
Definition swapping_source : string :=
  "(function() { r = console; console = 1; return r; })()".

Definition swapping_ast : MiniJS.expr :=
  MiniJS.ECall
    (MiniJS.EFun
       [MiniJS.SExpr (MiniJS.EAssign "r" (MiniJS.EIdent "console"));
        MiniJS.SExpr (MiniJS.EAssign "console" (MiniJS.ENum 1));
        MiniJS.SReturn (MiniJS.EIdent "r")])
    [].

(** The context after the first evaluation, and after the second. *)
Definition after_first : MiniJS.state :=
  (MiniJS.eval no_names 196 swapping_ast MiniJS.initial).2.

Definition after_second : MiniJS.state :=
  (MiniJS.eval no_names 194 swapping_ast
     (MiniJS.log (JObj []) after_first)).2.


(** There the logged value is the object of the first evaluation, as JSON
    carries it, and the reported type name that of the number of the
    second. *)
Example swapping_report :
  MiniJS.run no_names 200 (harness swapping_source)
  = Some (MkInfo "'number'" [JObj []]).
Proof. vm_compute. reflexivity. Qed.

(** * Further properties of the module *)

(** ** Facts on the built-ins *)

Lemma parseInt_text_digit c r :
  Text.is_digit c = true →
  parseInt_text (String c r) = Some (1 * (Text.read_digits 0 (String c r)).1).
Proof.
  intros H. destruct c as [[][][][][][][][]]; try discriminate H; reflexivity.
Qed.

Lemma parseInt_text_minus c r :
  Text.is_digit c = true →
  parseInt_text (String "-" (String c r))
  = Some (-1 * (Text.read_digits 0 (String c r)).1).
Proof.
  intros H. destruct c as [[][][][][][][][]]; try discriminate H; reflexivity.
Qed.

(** [parseInt] reads back the text of an integer below [10 ^ 21] in
    size: from there on the text has an exponent, of which [parseInt]
    reads the digits before the point only. *)
Lemma parseInt_num n :
  - 10 ^ 21 < n < 10 ^ 21 → parseInt (VData (JNum n)) = Some n.
Proof.
  intros Hn. unfold parseInt. cbn [to_string json_to_string].
  destruct (decide (n = 0)) as [->|Hne]; [reflexivity|].
  destruct (RoundTrip.of_Z_decimal n Hne) as (s & e & -> & Hs & He & Heq).
  cbn [Number.to_text].
  rewrite RoundTrip.positive_text_integer by (done || lia).
  destruct (RoundTrip.digits_positive (Z.pos s)) as (c & r & Hd & Hc & _);
    [done|].
  assert (Text.read_digits 0 (Text.digits (Z.pos s) +:+ Number.zeros e)
          = (Z.abs n, "")) as Hread.
  { rewrite <- (TextFacts.app_nil_r (_ +:+ Number.zeros e)).
    rewrite RoundTrip.read_digits_numeral; [|by
      rewrite RoundTrip.numeral_app, RoundTrip.numeral_digits,
        RoundTrip.numeral_zeros|done].
    rewrite RoundTrip.value_app by apply RoundTrip.numeral_digits.
    by rewrite RoundTrip.value_digits, RoundTrip.value_zeros, Heq by done. }
  rewrite Hd, TextFacts.app_cons in *.
  destruct (n <? 0) eqn:Hneg.
  - apply Z.ltb_lt in Hneg.
    change ("-" +:+ ?t) with (String "-" t).
    rewrite (parseInt_text_minus _ _ Hc), Hread. cbn [fst]. f_equal. lia.
  - apply Z.ltb_ge in Hneg.
    rewrite (parseInt_text_digit _ _ Hc), Hread. cbn [fst]. f_equal. lia.
Qed.

(** A text of white space. *)
Definition white (s : string) : Prop :=
  ∀ c, Text.mem c s = true → is_white c = true.

Lemma skip_white_white s : white s → skip_white s = "".
Proof.
  induction s as [|a s IH]; [done|]. intros H. cbn [skip_white].
  rewrite (H a) by (simpl; by rewrite Ascii.eqb_refl).
  apply IH. intros c Hc. apply H. simpl. by rewrite Hc, orb_true_r.
Qed.

Lemma parseInt_white s : white s → parseInt (VData (JStr s)) = None.
Proof.
  intros H. unfold parseInt, parseInt_text. cbn [to_string json_to_string].
  by rewrite skip_white_white.
Qed.

Lemma blank_gap space : Indented.blank (Stringify.gap_of space) = true.
Proof. destruct space; [apply Indented.blank_spaces|done]. Qed.

(** The falsy values. *)
Lemma falsy_cases (v : value) :
  truthy v = false ↔
  v = VUndefined ∨ v = VData JNull ∨ v = VData (JBool false)
  ∨ v = VData (JNum 0) ∨ v = VData (JNum (Zero true))
  ∨ v = VData (JNum NaN) ∨ v = VData (JStr "").
Proof.
  split.
  - destruct v as [|src|[|[]|[|b|[]|b s e]|[|c s]|l|l]]; simpl;
      try discriminate; tauto.
  - by intros [->|[->|[->|[->|[->|[->| ->]]]]]].
Qed.

(** ** Facts on the merge *)

Lemma merge_empty : merge ∅ = list_to_map default_options.
Proof.
  apply map_eq. intros k. rewrite merge_lookup, lookup_empty. cbn [default].
  cbn [is_undefined from_option]. by destruct (_ !! k).
Qed.

Lemma merge_keeps o k v :
  o !! k = Some v → v ≠ VUndefined → merge o !! k = Some v.
Proof. intros Hk Hv. rewrite merge_lookup, Hk. by destruct v. Qed.

Lemma merge_prop_default o k d :
  (k, d) ∈ default_options → prop o k = VUndefined → prop (merge o) k = d.
Proof.
  intros Hk Hu. unfold prop in *. rewrite merge_lookup, Hu. cbn [is_undefined].
  by rewrite (elem_of_list_to_map_1 _ _ _ default_options_NoDup Hk).
Qed.

Lemma merge_prop_other o k :
  k ∉ default_options.*1 → prop (merge o) k = prop o k.
Proof.
  intros Hk. unfold prop. rewrite merge_lookup.
  rewrite (not_elem_of_list_to_map_1 _ _ Hk). by destruct (is_undefined _).
Qed.

Lemma defaults_record l t w o :
  heap w !! l = Some o →
  defaults (Record_ l) t w
  = (Normal l, World (<[l := foldl fill o t]> (heap w)) (trace w)).
Proof.
  intros Hl. unfold defaults, bind, ret.
  by rewrite (for_each_fill_default _ _ _ _ Hl).
Qed.

(** The events of a delivery: an error on the console, a write to the
    standard output or to a file. *)
Definition delivers (e : event) : bool :=
  match e with
  | ConsoleError _ | StdoutWrite _ | FileWrite _ _ => true
  | _ => false
  end.

(** ** The options merge *)

(** A second merge changes nothing: [options] on a record that [options]
    has returned leaves the heap as it is and returns the same reference. *)
Theorem options_twice l w o :
  heap w !! l = Some o →
  options (Record_ l) (options (Record_ l) w).2
  = (Normal l, (options (Record_ l) w).2).
Proof.
  intros Hl. rewrite (options_record _ _ _ Hl). cbn [snd].
  apply (options_merged _ _ (merge o));
    [apply lookup_insert_eq|apply merge_idempotent].
Qed.

(** Without an options argument, or with a callback in its place,
    [options] returns a new record, at an address that held nothing, whose
    fields are the four defaults; every record that existed is left as it
    was. *)
Theorem options_without_record a w :
  a = Omitted ∨ a = Callback →
  ∃ l, heap w !! l = None
       ∧ options a w
         = (Normal l,
            World (<[l := list_to_map default_options]> (heap w)) (trace w)).
Proof.
  intros Ha. exists (fresh (dom (heap w))). split.
  - apply not_elem_of_dom, is_fresh.
  - rewrite (options_fresh _ _ Ha). by rewrite merge_empty.
Qed.

(** Dropping the result of a computation leaves its effects. *)
Lemma bind_ret_world {A} (m : M A) w :
  (bind m (λ _, ret ()) w).2 = (m w).2.
Proof. unfold bind, ret. by destruct (m w) as [[a|e|c|e] w']. Qed.

Section Further.

Variable sandbox_run : string → Info.
Variable isTTY : bool.
Variable highlight : option string → value → string + string.
Variable chalk : style → string → string.
Variable writeFileSync : value → option string → option error.
Variable stdout_write : option string → option error.
Variable readFileSync : value → error + string.
Variable stdin_chunks : list string.

Local Abbreviation j2j := (j2j sandbox_run isTTY highlight chalk).
Local Abbreviation parse := (parse sandbox_run chalk).
Local Abbreviation output := (output isTTY highlight chalk).
Local Abbreviation write :=
  (write sandbox_run isTTY highlight chalk writeFileSync stdout_write).
Local Abbreviation _main :=
  (_main sandbox_run isTTY highlight chalk writeFileSync stdout_write
     readFileSync stdin_chunks).
Local Abbreviation decorated := (decorates isTTY).
Local Abbreviation rendered := (render isTTY highlight chalk).
Local Abbreviation parse_log := (parse_events chalk).

(** ** [output] *)

Lemma render_plain o v :
  decorated o = false →
  rendered o v = (stringify v (parseInt (prop o "indent")), []).
Proof. intros H. unfold render. by rewrite H. Qed.

(** Without decoration, [output] of a value that JSON represents and
    that holds no negative zero returns a text that [JSON.parse] reads
    back as that value, whatever the [indent] option holds. *)
Theorem output_reads_back j l w o :
  wf j → unsigned_zeros j →
  heap w !! l = Some o → decorated (merge o) = false →
  ∃ text, (output (VData j) (Record_ l) w).1 = Normal (Some text)
          ∧ JSON.parse text = Some j.
Proof.
  intros Hwf Hz Hl Hd. rewrite (output_spec _ _ _ _ _ _ _ Hl). cbn [fst].
  rewrite (render_plain _ _ Hd). cbn [fst stringify]. eexists. split; [done|].
  apply Indented.parse_str_gap; [apply blank_gap|done..].
Qed.

(** With an integer [n] below [10 ^ 21] in size as [indent], [output]
    indents each level by [n] spaces, by ten when [n] is above ten, and
    by none (the compact form) when [n] is zero or negative. *)
Theorem output_indent_width j n l w o :
  - 10 ^ 21 < n < 10 ^ 21 →
  heap w !! l = Some o → o !! "indent" = Some (VData (JNum n)) →
  decorated (merge o) = false →
  (output (VData j) (Record_ l) w).1
  = Normal (Some (Stringify.str
                    (Text.repeat_char " " (Z.to_nat (Z.min 10 n))) "" j)).
Proof.
  intros Hn Hl Hi Hd. rewrite (output_spec _ _ _ _ _ _ _ Hl). cbn [fst].
  rewrite (render_plain _ _ Hd). cbn [fst stringify]. unfold prop.
  rewrite (merge_keeps _ _ _ Hi) by done. cbn [default from_option id].
  by rewrite parseInt_num.
Qed.

(** An [indent] given as a text of white space, a tab say, is not used as
    the indentation: [parseInt] makes it NaN and the output is compact. *)
Theorem output_white_indent_is_compact j s l w o :
  heap w !! l = Some o → o !! "indent" = Some (VData (JStr s)) → white s →
  decorated (merge o) = false →
  (output (VData j) (Record_ l) w).1 = Normal (Some (Stringify.str "" "" j)).
Proof.
  intros Hl Hi Hs Hd. rewrite (output_spec _ _ _ _ _ _ _ Hl). cbn [fst].
  rewrite (render_plain _ _ Hd). cbn [fst stringify]. unfold prop.
  rewrite (merge_keeps _ _ _ Hi) by done. cbn [default from_option id].
  by rewrite parseInt_white.
Qed.

(** With a record that leaves [no-color] out, [output] never decorates,
    on a terminal or not: the default of the field is [true], so the
    result is the text of [JSON.stringify] and nothing is logged. *)
Theorem output_plain_by_default v l w o :
  heap w !! l = Some o → prop o "no-color" = VUndefined →
  output v (Record_ l) w
  = (Normal (stringify v (parseInt (prop (merge o) "indent"))),
     World (<[l := merge o]> (heap w)) (trace w)).
Proof.
  intros Hl Hn. rewrite (output_spec _ _ _ _ _ _ _ Hl).
  rewrite render_plain; [cbn [fst snd]; by rewrite app_nil_r|].
  unfold decorates.
  rewrite (merge_prop_default o "no-color" DEFAULT_NOCOLOR) by
    (done || apply list_elem_of_further, list_elem_of_further,
               list_elem_of_here).
  cbn [truthy DEFAULT_NOCOLOR negb]. by rewrite andb_false_r.
Qed.

(** When the highlighter throws, [output] does not: it prints one warning
    with the message of the exception and returns the plain text. *)
Theorem output_highlight_failure v l w o message :
  heap w !! l = Some o →
  decorated (merge o) = true →
  highlight (stringify v (parseInt (prop (merge o) "indent")))
    (prop (merge o) "line-nos") = inr message →
  output v (Record_ l) w
  = (Normal (stringify v (parseInt (prop (merge o) "indent"))),
     World (<[l := merge o]> (heap w))
       (trace w ++
        [Highlight (stringify v (parseInt (prop (merge o) "indent")))
           (prop (merge o) "line-nos");
         ConsoleWarn
           (chalk StyleWarn (Text.lit "Could not highlight!  Exception: `%s`"))
           message])).
Proof.
  intros Hl Hd Hh. rewrite (output_spec _ _ _ _ _ _ _ Hl).
  unfold render. by rewrite Hd, Hh.
Qed.

(** ** [parse] *)

(** Whatever the report and whatever becomes of it, a call of [parse]
    adds to the trace one sandbox run, of the harness around the text of
    its input, preceded in debug mode by the line that shows that code. *)
Theorem parse_trace s l w o :
  heap w !! l = Some o →
  trace (parse s (Record_ l) w).2
  = trace w
    ++ (if truthy (prop (merge o) "debug")
        then [ConsoleInfo
                (chalk StyleInfo
                   ("Executing:" +:+ Stringify.newline
                    +:+ harness (to_string s)))]
        else [])
    ++ [SandboxRun (harness (to_string s))].
Proof. intros Hl. by rewrite (parse_spec _ _ _ _ _ _ Hl). Qed.

(** ** [write] *)

(** The writer that [write] uses for a text: the file named by the
    [output] option when there is one, the standard output otherwise. *)
Definition sink (o : gmap string value) (text : option string) : event :=
  if truthy (prop o "output") then FileWrite (prop o "output") text
  else StdoutWrite text.

Definition sink_error (o : gmap string value) (text : option string)
  : option error :=
  if truthy (prop o "output") then writeFileSync (prop o "output") text
  else stdout_write text.

(** When the sandbox report is accepted, [write] renders the first logged
    value and hands the text to one writer, as its last action: the file
    of the [output] option if set, the standard output otherwise, never
    both.  The promise is fulfilled when the writer returns, and rejected
    with the writer's own exception when it throws; that exception is
    neither wrapped nor printed, and the process does not exit. *)
Theorem write_delivers input l callback w o :
  heap w !! l = Some o →
  result (sandbox_run (harness (to_string input))) ∈ accepted →
  let o' := merge o in
  let fn := harness (to_string input) in
  let r := rendered o' (first (console (sandbox_run fn))) in
  write input (Record_ l) callback w
  = (match sink_error o' r.1 with
     | Some e => Normal (Rejected e)
     | None => Normal (Fulfilled ())
     end,
     World (<[l := o']> (heap w))
       (trace w ++ parse_log o' fn ++ r.2 ++ [sink o' r.1])).
Proof.
  intros Hl Ha. cbv zeta.
  rewrite (write_spec _ _ _ _ _ _ _ _ _ _ _ Hl). cbv zeta.
  unfold classify. rewrite bool_decide_eq_true_2 by done.
  unfold deliver_text, sink, sink_error.
  destruct (truthy (prop (merge o) "output")); cbn [heap trace];
    by rewrite <- !app_assoc.
Qed.

(** A text that goes to a file is never decorated: with the [output]
    option set, what is written is the text of [JSON.stringify], on a
    terminal or not and whatever [no-color] says. *)
Theorem write_file_is_plain input l callback w o :
  heap w !! l = Some o →
  result (sandbox_run (harness (to_string input))) ∈ accepted →
  truthy (prop (merge o) "output") = true →
  trace (write input (Record_ l) callback w).2
  = trace w ++ parse_log (merge o) (harness (to_string input))
    ++ [FileWrite (prop (merge o) "output")
          (stringify (first (console (sandbox_run (harness (to_string input)))))
             (parseInt (prop (merge o) "indent")))].
Proof.
  intros Hl Ha Ho. rewrite (write_spec _ _ _ _ _ _ _ _ _ _ _ Hl). cbv zeta.
  unfold classify. rewrite bool_decide_eq_true_2 by done.
  unfold deliver_text. rewrite Ho. cbn [snd trace].
  rewrite render_plain by (unfold decorates; by rewrite Ho, andb_false_r).
  cbn [fst snd]. by rewrite app_nil_r, <- app_assoc.
Qed.

(** [write] ends the process in one case only: no callback was given as
    third argument and the report was not accepted; the status is 1 and
    the last thing done before is printing the wrapped error. *)
Theorem write_exit input l callback w o c :
  heap w !! l = Some o →
  (write input (Record_ l) callback w).1 = Exit c →
  c = 1 ∧ callback = false
  ∧ (result (sandbox_run (harness (to_string input))) ∉ accepted)
  ∧ last (trace (write input (Record_ l) callback w).2)
    = Some (ConsoleError (chalk StyleError (error_text wrapped))).
Proof.
  intros Hl. rewrite (write_spec _ _ _ _ _ _ _ _ _ _ _ Hl). cbv zeta.
  unfold classify. destruct (bool_decide _) eqn:Ha.
  - unfold deliver_text. destruct (truthy (prop (merge o) "output")); cbn [fst].
    + by destruct (writeFileSync _ _).
    + by destruct (stdout_write _).
  - apply bool_decide_eq_false in Ha.
    destruct (truthy (prop (merge o) "debug")); [done|].
    unfold report_failure. cbn [fst snd trace]. destruct callback; [done|].
    intros [= <-]. by rewrite last_snoc.
Qed.

(** [write] has no guard against empty input: for every input, the empty
    text and [undefined] too, it merges the options and runs the harness
    around the text of the input before anything else. *)
Theorem write_always_evaluates input l callback w o :
  heap w !! l = Some o →
  ∃ rest,
    trace (write input (Record_ l) callback w).2
    = trace w ++ parse_log (merge o) (harness (to_string input)) ++ rest.
Proof.
  intros Hl. rewrite (write_spec _ _ _ _ _ _ _ _ _ _ _ Hl). cbv zeta.
  destruct (classify _ _) as [[v|e]| | |]; cbn [snd trace].
  - unfold deliver_text. destruct (truthy _); cbn [snd trace];
      eexists; by rewrite <- !app_assoc.
  - unfold report_failure. cbn [snd trace]. eexists.
    by rewrite <- !app_assoc.
  - exists []. by rewrite app_nil_r.
  - exists []. by rewrite app_nil_r.
  - exists []. by rewrite app_nil_r.
Qed.

(** ** [j2j] *)

(** [j2j] throws its error "input parameter cannot be empty" exactly for
    the falsy inputs: the empty text, and also [undefined], [null],
    [false], the number 0 with either sign, and NaN. *)
Theorem j2j_throws_iff_falsy input l w o :
  heap w !! l = Some o →
  (j2j input (Record_ l) w).1 = Throw empty_input
  ↔ input = VUndefined ∨ input = VData JNull ∨ input = VData (JBool false)
    ∨ input = VData (JNum 0) ∨ input = VData (JNum (Zero true))
    ∨ input = VData (JNum NaN) ∨ input = VData (JStr "").
Proof.
  intros Hl. rewrite <- falsy_cases. rewrite (j2j_spec _ _ _ _ _ _ _ _ Hl).
  destruct (truthy input); cbn [negb]; [|done]. split; [|done].
  cbv zeta. destruct (String.eqb _ _); [done|]. unfold after_parse.
  unfold classify. destruct (bool_decide _); [done|].
  by destruct (truthy (prop (merge o) "debug")).
Qed.

(** For every text that is not empty, [j2j] without decoration fulfils
    with the text as a JSON string literal, which [JSON.parse] reads back
    as the text itself: nothing is handed to the sandbox and the
    [indent] option plays no part. *)
Theorem j2j_text_is_quoted s l w o :
  s ≠ "" → heap w !! l = Some o → decorated (merge o) = false →
  j2j (VData (JStr s)) (Record_ l) w
  = (Normal (Fulfilled (Some (Stringify.quote s))),
     World (<[l := merge o]> (heap w)) (trace w))
  ∧ JSON.parse (Stringify.quote s) = Some (JStr s).
Proof.
  intros Hs Hl Hd. split.
  - rewrite (j2j_spec _ _ _ _ _ _ _ _ Hl).
    destruct s as [|c s]; [done|]. cbn [truthy Text.is_empty negb typeof].
    cbn [String.eqb Ascii.eqb Bool.eqb]. cbv zeta beta iota.
    rewrite (render_plain _ _ Hd). cbn [fst snd heap trace stringify Stringify.str].
    by rewrite app_nil_r.
  - by apply (RoundTrip.parse_str (JStr s)).
Qed.

(** A rejection of [parse] is what [j2j] rejects with: the reason is
    passed on as it is, not wrapped as in [write], nothing is printed and
    the process goes on. *)
Theorem j2j_rejection_passes_through input l w o :
  heap w !! l = Some o →
  truthy input = true → typeof input ≠ "string" →
  truthy (prop (merge o) "debug") = false →
  result (sandbox_run (harness (to_string input))) ∉ accepted →
  j2j input (Record_ l) w
  = (Normal (Rejected (rejection (sandbox_run (harness (to_string input))))),
     World (<[l := merge o]> (heap w))
       (trace w ++ [SandboxRun (harness (to_string input))])).
Proof.
  intros Hl Ht Hs Hd Ha. rewrite (j2j_spec _ _ _ _ _ _ _ _ Hl).
  rewrite Ht. cbn [negb]. cbv zeta.
  destruct (String.eqb_spec (typeof input) "string") as [|_]; [done|].
  unfold after_parse, classify, parse_events. rewrite Hd.
  by rewrite bool_decide_eq_false_2.
Qed.


(** ** [_main] *)

(** The record that [_main] hands to [write]: [no-color] is set to
    [false] where the command line left it undefined. *)
Definition cli_record (o : gmap string value) : gmap string value :=
  fill o ("no-color", VData (JBool false)).

(** [_main] on the record of the command line. *)
Lemma main_spec argv w o :
  heap w !! argv = Some o →
  _main argv w
  = let w1 := World (<[argv := cli_record o]> (heap w)) (trace w) in
    let run input :=
      bind (write input (Record_ argv) false) (λ _, ret ()) w1 in
    if truthy (prop o "file") then
      match readFileSync (prop o "file") with
      | inl e => (Throw e, w)
      | inr contents => run (VData (JStr contents))
      end
    else
      match item0 (prop o "_") with
      | inl e => (Throw e, w)
      | inr v =>
          if truthy v then run v
          else run (VData (JStr (Text.join "," stdin_chunks)))
      end.
Proof.
  intros Hl. unfold _main. rewrite (bind_get _ _ _ _ _ Hl). cbv zeta.
  assert (∀ input,
    bind (defaults (Record_ argv) [("no-color", VData (JBool false))])
      (λ argv0,
         if negb (source_truthy input) then
           let* _ := write (VData (JStr (Text.join "," stdin_chunks)))
                       (Record_ argv0) false in ret ()
         else
           let* _ := write (source_value input) (Record_ argv0) false in
           ret ()) w
    = (if negb (source_truthy input) then
         let* _ := write (VData (JStr (Text.join "," stdin_chunks)))
                     (Record_ argv) false in ret ()
       else
         let* _ := write (source_value input) (Record_ argv) false in ret ())
        (World (<[argv := cli_record o]> (heap w)) (trace w))) as Hrest.
  { intros input.
    by rewrite (bind_normal _ _ _ _ _ (defaults_record _ _ _ _ Hl)). }
  destruct (truthy (prop o "file")).
  - destruct (readFileSync _) as [e|contents]; [done|].
    unfold bind at 1, ret at 1. apply Hrest.
  - unfold bind at 1. rewrite (bind_get _ _ _ _ _ Hl).
    destruct (item0 _) as [e|v]; [done|].
    unfold ret at 1. cbv beta iota. rewrite Hrest.
    cbn [source_truthy source_value]. by destruct (truthy v).
Qed.

(** The code that [write] hands to the sandbox shows in its trace. *)
Lemma write_runs input l callback w o :
  heap w !! l = Some o →
  SandboxRun (harness (to_string input))
  ∈ trace (write input (Record_ l) callback w).2.
Proof.
  intros Hl. rewrite (write_spec _ _ _ _ _ _ _ _ _ _ _ Hl). cbv zeta.
  assert (∀ t, SandboxRun (harness (to_string input))
               ∈ (trace w ++ parse_log (merge o) (harness (to_string input)))
                 ++ t) as Hin.
  { intros t. unfold parse_events. rewrite !elem_of_app, list_elem_of_singleton.
    tauto. }
  destruct (classify _ _) as [[v|e]| | |]; cbn [snd trace].
  - unfold deliver_text. destruct (truthy _); cbn [snd trace];
      rewrite <- app_assoc; apply Hin.
  - unfold report_failure. cbn [snd trace]. rewrite <- app_assoc. apply Hin.
  - rewrite <- (app_nil_r (_ ++ _)). apply Hin.
  - rewrite <- (app_nil_r (_ ++ _)). apply Hin.
  - rewrite <- (app_nil_r (_ ++ _)). apply Hin.
Qed.

(** Without a file and with a first argument that is missing or falsy,
    [_main] takes the chunks that the standard input delivers and joins
    them with commas: it does what [write], without callback, does on
    that text, so a comma stands in the evaluated code wherever one chunk
    ended and the next began. *)
Theorem main_joins_chunks_with_commas argv w o v :
  heap w !! argv = Some o →
  truthy (prop o "file") = false →
  item0 (prop o "_") = inr v → truthy v = false →
  _main argv w
  = bind (write (VData (JStr (Text.join "," stdin_chunks))) (Record_ argv) false)
      (λ _, ret ())
      (World (<[argv := cli_record o]> (heap w)) (trace w))
  ∧ SandboxRun (harness (Text.join "," stdin_chunks))
    ∈ trace (_main argv w).2.
Proof.
  intros Hl Hf Hp Hv.
  assert (_main argv w
          = bind (write (VData (JStr (Text.join "," stdin_chunks)))
                    (Record_ argv) false)
              (λ _, ret ())
              (World (<[argv := cli_record o]> (heap w)) (trace w))) as Hm.
  { rewrite (main_spec _ _ _ Hl). cbv zeta. by rewrite Hf, Hp, Hv. }
  split; [exact Hm|]. rewrite Hm, bind_ret_world.
  apply (write_runs (VData (JStr (Text.join "," stdin_chunks))) _ _ _
           (cli_record o)).
  apply lookup_insert_eq.
Qed.

(** With the [file] option set, [_main] evaluates the contents of the
    file and nothing else: the arguments and the standard input play no
    part, also when the file is empty. *)
Theorem main_file_first argv w o contents :
  heap w !! argv = Some o →
  truthy (prop o "file") = true →
  readFileSync (prop o "file") = inr contents →
  _main argv w
  = bind (write (VData (JStr contents)) (Record_ argv) false) (λ _, ret ())
      (World (<[argv := cli_record o]> (heap w)) (trace w))
  ∧ SandboxRun (harness contents) ∈ trace (_main argv w).2.
Proof.
  intros Hl Hf Hr.
  assert (_main argv w
          = bind (write (VData (JStr contents)) (Record_ argv) false)
              (λ _, ret ())
              (World (<[argv := cli_record o]> (heap w)) (trace w))) as Hm.
  { rewrite (main_spec _ _ _ Hl). cbv zeta. by rewrite Hf, Hr. }
  split; [exact Hm|]. rewrite Hm, bind_ret_world.
  apply (write_runs (VData (JStr contents)) _ _ _ (cli_record o)).
  apply lookup_insert_eq.
Qed.

(** When the file cannot be read, [_main] throws the exception of
    [readFileSync] and has done nothing else: no record is changed,
    nothing is run and nothing is printed. *)
Theorem main_read_error argv w o e :
  heap w !! argv = Some o →
  truthy (prop o "file") = true →
  readFileSync (prop o "file") = inl e →
  _main argv w = (Throw e, w).
Proof.
  intros Hl Hf Hr. rewrite (main_spec _ _ _ Hl). cbv zeta. by rewrite Hf, Hr.
Qed.

(** From the command line a failed evaluation always ends the process:
    [_main] calls [write] without callback, so with debug mode off and a
    report that is not accepted the wrapped error is printed and the
    process exits with status 1. *)
Theorem main_exits_on_failure argv w o v :
  heap w !! argv = Some o →
  truthy (prop o "file") = false →
  item0 (prop o "_") = inr v → truthy v = true →
  truthy (prop (merge (cli_record o)) "debug") = false →
  result (sandbox_run (harness (to_string v))) ∉ accepted →
  _main argv w
  = (Exit 1,
     World (<[argv := merge (cli_record o)]> (heap w))
       (trace w ++
        [SandboxRun (harness (to_string v));
         ConsoleError (chalk StyleError (error_text wrapped))])).
Proof.
  intros Hl Hf Hp Hv Hd Ha. rewrite (main_spec _ _ _ Hl). cbv zeta.
  rewrite Hf, Hp, Hv. unfold bind.
  rewrite (write_spec _ _ _ _ _ _ _ _ _ _ (cli_record o))
    by apply lookup_insert_eq.
  cbv zeta. unfold classify, parse_events. rewrite Hd.
  rewrite bool_decide_eq_false_2 by done.
  unfold report_failure. cbn [heap trace]. rewrite insert_insert_eq.
  by rewrite !app_nil_r, <- app_assoc.
Qed.

(** The record that [_main] hands on has a falsy [no-color] when the
    command line gave none or a falsy one: the default [true] of
    [options] comes too late to apply. *)
Lemma cli_nocolor o :
  truthy (prop o "no-color") = false →
  truthy (prop (merge (cli_record o)) "no-color") = false.
Proof.
  intros Hn. unfold cli_record, fill. cbn [fst snd].
  fold (prop o "no-color").
  destruct (is_undefined (prop o "no-color")) eqn:Hu.
  - unfold prop at 1.
    by rewrite (merge_keeps _ "no-color" (VData (JBool false)))
      by (apply lookup_insert_eq || done).
  - unfold prop at 1. rewrite merge_lookup. fold (prop o "no-color").
    rewrite Hu. exact Hn.
Qed.

(** From the command line the output is decorated where [j2j.output]
    alone, with the same fields, would not be: [_main] turns a missing
    [no-color] into [false] before the defaults of [options] apply, so
    unless the command line asks for no colour, on a terminal and without
    an output file, what reaches the standard output is the highlighted
    text. *)
Theorem main_decorates_on_terminal argv w o v coloured :
  heap w !! argv = Some o →
  truthy (prop o "file") = false →
  item0 (prop o "_") = inr v → truthy v = true →
  truthy (prop o "no-color") = false →
  isTTY = true →
  let o' := merge (cli_record o) in
  let info := sandbox_run (harness (to_string v)) in
  let text := stringify (first (console info)) (parseInt (prop o' "indent")) in
  truthy (prop o' "output") = false →
  result info ∈ accepted →
  highlight text (prop o' "line-nos") = inl coloured →
  last (trace (_main argv w).2) = Some (StdoutWrite (Some coloured)).
Proof.
  intros Hl Hf Hp Hv Hn Ht o' info text Ho Ha Hh.
  pose proof (cli_nocolor o Hn) as Hc. fold o' in Hc.
  rewrite (main_spec _ _ _ Hl). cbv zeta. rewrite Hf, Hp, Hv.
  rewrite bind_ret_world.
  rewrite (write_spec _ _ _ _ _ _ _ _ _ _ (cli_record o))
    by apply lookup_insert_eq.
  cbv zeta. fold o'. fold info. unfold classify.
  rewrite bool_decide_eq_true_2 by done.
  unfold deliver_text. rewrite Ho. cbn [snd trace].
  unfold render, decorates. rewrite Hc, Ho, Ht. cbn [negb andb].
  fold text. rewrite Hh. cbn [fst snd]. by rewrite last_snoc.
Qed.

End Further.

(** ** Literals that are keywords *)

Section Keywords.

Variable sandbox_run : string → Info.
Variable chalk : style → string → string.
Variable fuel : nat.
Variable bound : string → bool.
Hypothesis sandbox_agrees : agrees sandbox_run fuel bound.

(** With a sandbox that the model describes, a budget that covers the
    harness, and debug mode off: [true] and [false] evaluate, but [parse]
    rejects them, their type name [boolean] not being one of the accepted
    three; [null] is accepted, its type name being [object], and [parse]
    fulfils with it. *)
Theorem keyword_literals b l w o :
  (87 ≤ fuel)%nat →
  heap w !! l = Some o →
  truthy (prop (merge o) "debug") = false →
  (parse sandbox_run chalk (VData (JBool b)) (Record_ l) w).1
  = Normal (Rejected
      (Reason "input evaluated to 'boolean', which is no good."))
  ∧ (parse sandbox_run chalk (VData JNull) (Record_ l) w).1
    = Normal (Fulfilled (VData JNull)).
Proof.
  intros Ht Hl Hd.
  assert (∀ s e, MiniJS.parse_expression s = Some e →
            (String.length s ≤ 5)%nat →
            MiniJS.run bound fuel (harness s)
            = MiniJS.report
                (HarnessFacts.twice bound (2 + (fuel - 8)) e
                   MiniJS.initial)) as Hrun.
  { intros s e He Hlen.
    replace fuel with (6 + (2 + (fuel - 8)))%nat at 1 by lia.
    apply HarnessFacts.run_harness; [done|].
    rewrite HarnessFacts.harness_length. lia. }
  rewrite !(parse_spec _ _ _ _ _ _ Hl). cbn [fst]. unfold classify.
  rewrite Hd. split.
  - assert (sandbox_run (harness (to_string (VData (JBool b))))
            = MkInfo "'boolean'" [JBool b]) as ->.
    { apply sandbox_agrees. destruct b; cbn [to_string json_to_string].
      - by rewrite (Hrun "true" (MiniJS.EBool true)) by (done || simpl; lia).
      - by rewrite (Hrun "false" (MiniJS.EBool false)) by (done || simpl; lia). }
    done.
  - assert (sandbox_run (harness (to_string (VData JNull)))
            = MkInfo "'object'" [JNull]) as ->.
    { apply sandbox_agrees. cbn [to_string json_to_string].
      by rewrite (Hrun "null" MiniJS.ENull) by (done || simpl; lia). }
    done.
Qed.

End Keywords.

(** ** Instances *)

(** A sandbox that reports an object for any code, a highlighter that
    always succeeds, a file that is empty and one that is missing. *)
Definition object_sandbox : string → Info :=
  λ _, MkInfo "'object'" [foo_bar_baz].
Definition always_coloured : option string → value → string + string :=
  λ _ _, inl "coloured".
Definition empty_file : value → error + string := λ _, inr "".
Definition missing_file : value → error + string :=
  λ _, inl (ErrorObject "Error" "ENOENT, no such file or directory 'in.js'").

Definition wide_indent_world : world :=
  World {[ 1%positive := {[ "indent" := VData (JNum 12) ]} ]} [].
Definition tab_indent_world : world :=
  World {[ 1%positive := {[ "indent" := VData (JStr (String "009" "")) ]} ]} [].
Definition colour_world : world :=
  World {[ 1%positive := {[ "no-color" := VData (JBool false) ]} ]} [].
Definition file_output_world : world :=
  World {[ 1%positive := {[ "output" := VData (JStr "out.json");
                            "no-color" := VData (JBool false) ]} ]} [].
Definition no_argument : gmap string value := {[ "_" := VData (JArr []) ]}.
Definition file_argument : gmap string value :=
  {[ "file" := VData (JStr "in.js"); "_" := VData (JArr [JStr "{a: 1}"]) ]}.
Definition text_argument : gmap string value :=
  {[ "_" := VData (JArr [JStr "undefined"]) ]}.
Definition literal_argument : gmap string value :=
  {[ "_" := VData (JArr [JStr "{foo: 'bar', baz: 2}"]) ]}.

Lemma options_twice_witness :
  options (Record_ 1%positive)
    (options (Record_ 1%positive) indent_false_world).2
  = (Normal 1%positive, (options (Record_ 1%positive) indent_false_world).2).
Proof.
  apply (options_twice 1%positive indent_false_world
           {[ "indent" := VData (JBool false) ]}).
  reflexivity.
Defined.

Lemma options_without_record_witness :
  ∃ l, heap indent_false_world !! l = None
       ∧ options Callback indent_false_world
         = (Normal l,
            World (<[l := list_to_map default_options]> (heap indent_false_world))
              (trace indent_false_world)).
Proof. apply (options_without_record Callback indent_false_world). by right. Defined.

Lemma output_reads_back_witness :
  ∃ text,
    (output true no_highlight no_style (VData sample_value) (Record_ 1%positive)
       wide_indent_world).1 = Normal (Some text)
    ∧ JSON.parse text = Some sample_value.
Proof.
  apply (output_reads_back true no_highlight no_style sample_value 1%positive
           wide_indent_world {[ "indent" := VData (JNum 12) ]}).
  - simpl. repeat split; try done;
      apply (bool_decide_unpack _); vm_compute; exact I.
  - simpl. repeat split; discriminate.
  - reflexivity.
  - reflexivity.
Defined.

Lemma output_indent_width_witness :
  (output true no_highlight no_style (VData foo_bar_baz) (Record_ 1%positive)
     wide_indent_world).1
  = Normal (Some (Stringify.str
                    (Text.repeat_char " " (Z.to_nat (Z.min 10 12))) ""
                    foo_bar_baz)).
Proof.
  apply (output_indent_width true no_highlight no_style foo_bar_baz 12
           1%positive wide_indent_world {[ "indent" := VData (JNum 12) ]});
    [lia|reflexivity..].
Defined.

Lemma output_white_indent_is_compact_witness :
  (output true no_highlight no_style (VData foo_bar_baz) (Record_ 1%positive)
     tab_indent_world).1
  = Normal (Some (Stringify.str "" "" foo_bar_baz)).
Proof.
  apply (output_white_indent_is_compact true no_highlight no_style foo_bar_baz
           (String "009" "") 1%positive tab_indent_world
           {[ "indent" := VData (JStr (String "009" "")) ]}).
  - reflexivity.
  - reflexivity.
  - intros c Hc. simpl in Hc. rewrite orb_false_r in Hc.
    apply Ascii.eqb_eq in Hc. subst c. reflexivity.
  - reflexivity.
Defined.

Lemma output_plain_by_default_witness :
  output true always_coloured no_style (VData foo_bar_baz) (Record_ 1%positive)
    empty_record_world
  = (Normal (stringify (VData foo_bar_baz)
               (parseInt (prop (merge ∅) "indent"))),
     World (<[1%positive := merge ∅]> (heap empty_record_world))
       (trace empty_record_world)).
Proof.
  apply (output_plain_by_default true always_coloured no_style
           (VData foo_bar_baz) 1%positive empty_record_world ∅);
    reflexivity.
Defined.

Lemma output_highlight_failure_witness :
  output true no_highlight no_style (VData foo_bar_baz) (Record_ 1%positive)
    colour_world
  = (Normal (stringify (VData foo_bar_baz)
               (parseInt (prop (merge {[ "no-color" := VData (JBool false) ]})
                            "indent"))),
     World (<[1%positive := merge {[ "no-color" := VData (JBool false) ]}]>
              (heap colour_world))
       (trace colour_world ++
        [Highlight
           (stringify (VData foo_bar_baz)
              (parseInt (prop (merge {[ "no-color" := VData (JBool false) ]})
                           "indent")))
           (prop (merge {[ "no-color" := VData (JBool false) ]}) "line-nos");
         ConsoleWarn
           (no_style StyleWarn
              (Text.lit "Could not highlight!  Exception: `%s`"))
           ""])).
Proof.
  apply (output_highlight_failure true no_highlight no_style
           (VData foo_bar_baz) 1%positive colour_world
           {[ "no-color" := VData (JBool false) ]} "");
    reflexivity.
Defined.

Lemma parse_trace_witness :
  trace (parse undefined_sandbox no_style (VData (JStr "undefined"))
           (Record_ 1%positive) debug_world).2
  = trace debug_world
    ++ (if truthy (prop (merge {[ "debug" := VData (JBool true) ]}) "debug")
        then [ConsoleInfo
                (no_style StyleInfo
                   ("Executing:" +:+ Stringify.newline
                    +:+ harness (to_string (VData (JStr "undefined")))))]
        else [])
    ++ [SandboxRun (harness (to_string (VData (JStr "undefined"))))].
Proof.
  apply (parse_trace undefined_sandbox no_style (VData (JStr "undefined"))
           1%positive debug_world {[ "debug" := VData (JBool true) ]}).
  reflexivity.
Defined.

Lemma write_delivers_witness :
  let o' := merge {[ "no-color" := VData (JBool false) ]} in
  let fn := harness (to_string (VData (JStr "{foo: 'bar', baz: 2}"))) in
  let r := render true always_coloured no_style o'
             (first (console (object_sandbox fn))) in
  write object_sandbox true always_coloured no_style write_ok stdout_ok
    (VData (JStr "{foo: 'bar', baz: 2}")) (Record_ 1%positive) false colour_world
  = (match sink_error write_ok stdout_ok o' r.1 with
     | Some e => Normal (Rejected e)
     | None => Normal (Fulfilled ())
     end,
     World (<[1%positive := o']> (heap colour_world))
       (trace colour_world ++ parse_events no_style o' fn ++ r.2
        ++ [sink o' r.1])).
Proof.
  apply (write_delivers object_sandbox true always_coloured no_style write_ok
           stdout_ok (VData (JStr "{foo: 'bar', baz: 2}")) 1%positive false
           colour_world {[ "no-color" := VData (JBool false) ]}).
  - reflexivity.
  - apply (bool_decide_unpack _). vm_compute. exact I.
Defined.

Lemma write_file_is_plain_witness :
  trace (write object_sandbox true always_coloured no_style write_ok stdout_ok
           (VData (JStr "{foo: 'bar', baz: 2}")) (Record_ 1%positive) false
           file_output_world).2
  = trace file_output_world
    ++ parse_events no_style
         (merge {[ "output" := VData (JStr "out.json");
                   "no-color" := VData (JBool false) ]})
         (harness (to_string (VData (JStr "{foo: 'bar', baz: 2}"))))
    ++ [FileWrite
          (prop (merge {[ "output" := VData (JStr "out.json");
                          "no-color" := VData (JBool false) ]}) "output")
          (stringify
             (first (console (object_sandbox
                (harness (to_string (VData (JStr "{foo: 'bar', baz: 2}")))))))
             (parseInt
                (prop (merge {[ "output" := VData (JStr "out.json");
                                "no-color" := VData (JBool false) ]})
                   "indent")))].
Proof.
  apply (write_file_is_plain object_sandbox true always_coloured no_style
           write_ok stdout_ok (VData (JStr "{foo: 'bar', baz: 2}")) 1%positive
           false file_output_world
           {[ "output" := VData (JStr "out.json");
              "no-color" := VData (JBool false) ]}).
  - reflexivity.
  - apply (bool_decide_unpack _). vm_compute. exact I.
  - reflexivity.
Defined.

Lemma write_exit_witness :
  1 = 1 ∧ false = false
  ∧ (result (undefined_sandbox (harness (to_string (VData (JStr "undefined")))))
     ∉ accepted)
  ∧ last (trace (write undefined_sandbox false no_highlight no_style write_ok
                   stdout_ok (VData (JStr "undefined")) (Record_ 1%positive)
                   false empty_record_world).2)
    = Some (ConsoleError (no_style StyleError (error_text wrapped))).
Proof.
  apply (write_exit undefined_sandbox false no_highlight no_style write_ok
           stdout_ok (VData (JStr "undefined")) 1%positive false
           empty_record_world ∅ 1);
    reflexivity.
Defined.

Lemma write_always_evaluates_witness :
  ∃ rest,
    trace (write undefined_sandbox false no_highlight no_style write_ok
             stdout_ok (VData (JStr "")) (Record_ 1%positive) false
             empty_record_world).2
    = trace empty_record_world
      ++ parse_events no_style (merge ∅) (harness (to_string (VData (JStr ""))))
      ++ rest.
Proof.
  apply (write_always_evaluates undefined_sandbox false no_highlight no_style
           write_ok stdout_ok (VData (JStr "")) 1%positive false
           empty_record_world ∅).
  reflexivity.
Defined.

Lemma j2j_throws_iff_falsy_witness :
  (j2j undefined_sandbox false no_highlight no_style (VData (JNum NaN))
     (Record_ 1%positive) empty_record_world).1 = Throw empty_input
  ↔ VData (JNum NaN) = VUndefined ∨ VData (JNum NaN) = VData JNull
    ∨ VData (JNum NaN) = VData (JBool false)
    ∨ VData (JNum NaN) = VData (JNum 0)
    ∨ VData (JNum NaN) = VData (JNum (Zero true))
    ∨ VData (JNum NaN) = VData (JNum NaN)
    ∨ VData (JNum NaN) = VData (JStr "").
Proof.
  apply (j2j_throws_iff_falsy undefined_sandbox false no_highlight no_style
           (VData (JNum NaN)) 1%positive empty_record_world ∅).
  reflexivity.
Defined.

Lemma j2j_text_is_quoted_witness :
  j2j undefined_sandbox true always_coloured no_style
    (VData (JStr "{foo: 'bar', baz: 2}")) (Record_ 1%positive) wide_indent_world
  = (Normal (Fulfilled (Some (Stringify.quote "{foo: 'bar', baz: 2}"))),
     World (<[1%positive := merge {[ "indent" := VData (JNum 12) ]}]>
              (heap wide_indent_world))
       (trace wide_indent_world))
  ∧ JSON.parse (Stringify.quote "{foo: 'bar', baz: 2}")
    = Some (JStr "{foo: 'bar', baz: 2}").
Proof.
  apply (j2j_text_is_quoted undefined_sandbox true always_coloured no_style
           "{foo: 'bar', baz: 2}" 1%positive wide_indent_world
           {[ "indent" := VData (JNum 12) ]}).
  - discriminate.
  - reflexivity.
  - reflexivity.
Defined.

Lemma j2j_rejection_passes_through_witness :
  j2j undefined_sandbox false no_highlight no_style (VData (JNum 5))
    (Record_ 1%positive) empty_record_world
  = (Normal (Rejected
       (rejection (undefined_sandbox (harness (to_string (VData (JNum 5))))))),
     World (<[1%positive := merge ∅]> (heap empty_record_world))
       (trace empty_record_world
        ++ [SandboxRun (harness (to_string (VData (JNum 5))))])).
Proof.
  apply (j2j_rejection_passes_through undefined_sandbox false no_highlight
           no_style (VData (JNum 5)) 1%positive empty_record_world ∅).
  - reflexivity.
  - reflexivity.
  - discriminate.
  - reflexivity.
  - apply (bool_decide_unpack _). vm_compute. exact I.
Defined.


Lemma main_joins_chunks_with_commas_witness :
  _main object_sandbox false no_highlight no_style write_ok stdout_ok
    empty_file ["{foo: 'bar'"; " baz: 2}"] 1%positive
    (World {[ 1%positive := no_argument ]} [])
  = bind (write object_sandbox false no_highlight no_style write_ok stdout_ok
            (VData (JStr (Text.join "," ["{foo: 'bar'"; " baz: 2}"])))
            (Record_ 1%positive) false)
      (λ _, ret ())
      (World (<[1%positive := cli_record no_argument]>
                (heap (World {[ 1%positive := no_argument ]} [])))
         (trace (World {[ 1%positive := no_argument ]} [])))
  ∧ SandboxRun (harness (Text.join "," ["{foo: 'bar'"; " baz: 2}"]))
    ∈ trace (_main object_sandbox false no_highlight no_style write_ok
               stdout_ok empty_file ["{foo: 'bar'"; " baz: 2}"] 1%positive
               (World {[ 1%positive := no_argument ]} [])).2.
Proof.
  apply (main_joins_chunks_with_commas object_sandbox false no_highlight
           no_style write_ok stdout_ok empty_file ["{foo: 'bar'"; " baz: 2}"]
           1%positive (World {[ 1%positive := no_argument ]} []) no_argument
           VUndefined);
    reflexivity.
Defined.

Lemma main_file_first_witness :
  _main object_sandbox false no_highlight no_style write_ok stdout_ok
    empty_file ["ignored"] 1%positive
    (World {[ 1%positive := file_argument ]} [])
  = bind (write object_sandbox false no_highlight no_style write_ok stdout_ok
            (VData (JStr "")) (Record_ 1%positive) false)
      (λ _, ret ())
      (World (<[1%positive := cli_record file_argument]>
                (heap (World {[ 1%positive := file_argument ]} [])))
         (trace (World {[ 1%positive := file_argument ]} [])))
  ∧ SandboxRun (harness "")
    ∈ trace (_main object_sandbox false no_highlight no_style write_ok
               stdout_ok empty_file ["ignored"] 1%positive
               (World {[ 1%positive := file_argument ]} [])).2.
Proof.
  apply (main_file_first object_sandbox false no_highlight no_style write_ok
           stdout_ok empty_file ["ignored"] 1%positive
           (World {[ 1%positive := file_argument ]} []) file_argument "");
    reflexivity.
Defined.

Lemma main_read_error_witness :
  _main object_sandbox false no_highlight no_style write_ok stdout_ok
    missing_file [] 1%positive (World {[ 1%positive := file_argument ]} [])
  = (Throw (ErrorObject "Error" "ENOENT, no such file or directory 'in.js'"),
     World {[ 1%positive := file_argument ]} []).
Proof.
  apply (main_read_error object_sandbox false no_highlight no_style write_ok
           stdout_ok missing_file [] 1%positive
           (World {[ 1%positive := file_argument ]} []) file_argument);
    reflexivity.
Defined.

Lemma main_exits_on_failure_witness :
  _main undefined_sandbox false no_highlight no_style write_ok stdout_ok
    empty_file [] 1%positive (World {[ 1%positive := text_argument ]} [])
  = (Exit 1,
     World (<[1%positive := merge (cli_record text_argument)]>
              (heap (World {[ 1%positive := text_argument ]} [])))
       (trace (World {[ 1%positive := text_argument ]} []) ++
        [SandboxRun (harness (to_string (VData (JStr "undefined"))));
         ConsoleError (no_style StyleError (error_text wrapped))])).
Proof.
  apply (main_exits_on_failure undefined_sandbox false no_highlight no_style
           write_ok stdout_ok empty_file [] 1%positive
           (World {[ 1%positive := text_argument ]} []) text_argument
           (VData (JStr "undefined"))).
  - reflexivity.
  - reflexivity.
  - reflexivity.
  - reflexivity.
  - reflexivity.
  - apply (bool_decide_unpack _). vm_compute. exact I.
Defined.

Lemma main_decorates_on_terminal_witness :
  last (trace (_main object_sandbox true always_coloured no_style write_ok
                   stdout_ok empty_file [] 1%positive
                   (World {[ 1%positive := literal_argument ]} [])).2)
  = Some (StdoutWrite (Some "coloured")).
Proof.
  apply (main_decorates_on_terminal object_sandbox true always_coloured
           no_style write_ok stdout_ok empty_file [] 1%positive
           (World {[ 1%positive := literal_argument ]} []) literal_argument
           (VData (JStr "{foo: 'bar', baz: 2}")) "coloured").
  - reflexivity.
  - reflexivity.
  - reflexivity.
  - reflexivity.
  - reflexivity.
  - reflexivity.
  - reflexivity.
  - apply (bool_decide_unpack _). vm_compute. exact I.
  - reflexivity.
Defined.

Lemma keyword_literals_witness :
  (parse (model_sandbox 100 no_names) no_style (VData (JBool true))
     (Record_ 1%positive) empty_record_world).1
  = Normal (Rejected
      (Reason "input evaluated to 'boolean', which is no good."))
  ∧ (parse (model_sandbox 100 no_names) no_style (VData JNull)
       (Record_ 1%positive) empty_record_world).1
    = Normal (Fulfilled (VData JNull)).
Proof.
  apply (keyword_literals (model_sandbox 100 no_names) no_style 100 no_names)
    with (o := ∅).
  - intros code info H. unfold model_sandbox. rewrite H. reflexivity.
  - lia.
  - reflexivity.
  - reflexivity.
Defined.
